(** * A shallow embedding of the transaction codec, the address derivation
      and the durable client of solana-web3.js (lib/index.esm.js)

    Numbers are [Z] or [N], buffers are lists of [byte], JavaScript strings
    are [string], objects are records, thrown errors are the [Err] branch of
    [Result].  Object maps keyed by integers are [gmap]s. *)

From Stdlib Require Import ZArith NArith List String Ascii Lia Bool.
From Stdlib.Strings Require Import Byte.
From stdpp Require Import gmap sorting.
Import ListNotations.

(* ===================================================================== *)
(** ** Lists: leading elements                                            *)
(* ===================================================================== *)

Section Leading.
Context {A : Type} (p : A -> bool).

(** Number of elements at the front that satisfy [p]. *)
Fixpoint leading (l : list A) : nat :=
  match l with
  | x :: r => if p x then S (leading r) else O
  | [] => O
  end.

(** The list without those elements. *)
Fixpoint strip (l : list A) : list A :=
  match l with
  | x :: r => if p x then strip r else l
  | [] => []
  end.

Definition starts_clean (l : list A) : Prop :=
  match l with
  | x :: _ => p x = false
  | [] => True
  end.

Lemma strip_clean l : starts_clean (strip l).
Proof.
  induction l as [|x r IH]; simpl; [exact I|].
  destruct (p x) eqn:E; [exact IH | exact E].
Qed.

Lemma strip_of_clean l : starts_clean l -> strip l = l.
Proof. destruct l as [|x r]; simpl; [reflexivity|]. intros ->. reflexivity. Qed.

Lemma leading_of_clean l : starts_clean l -> leading l = O.
Proof. destruct l as [|x r]; simpl; [reflexivity|]. intros ->. reflexivity. Qed.

Lemma leading_app_clean (pre l : list A) :
  Forall (fun x => p x = true) pre -> starts_clean l ->
  leading (pre ++ l) = length pre /\ strip (pre ++ l) = l.
Proof.
  intros Hpre Hl. induction Hpre as [|x r Hx _ IH]; simpl.
  - split; [apply leading_of_clean | apply strip_of_clean]; assumption.
  - rewrite Hx. destruct IH as [-> ->]. split; reflexivity.
Qed.

Lemma leading_strip_split l :
  l = firstn (leading l) l ++ strip l /\
  Forall (fun x => p x = true) (firstn (leading l) l).
Proof.
  induction l as [|x r [IH1 IH2]]; simpl.
  - split; [reflexivity | constructor].
  - destruct (p x) eqn:E; simpl.
    + split; [f_equal; exact IH1 | constructor; assumption].
    + split; [reflexivity | constructor].
Qed.

Lemma repeat_leading_strip (x0 : A) l :
  (forall x, p x = true -> x = x0) ->
  repeat x0 (leading l) ++ strip l = l.
Proof.
  intros Hp. induction l as [|x r IH]; simpl; [reflexivity|].
  destruct (p x) eqn:E; simpl; [|reflexivity].
  rewrite IH, (Hp x E). reflexivity.
Qed.
End Leading.

Lemma leading_map {A C} (f : A -> C) (q : C -> bool) (l : list A) :
  leading q (map f l) = leading (fun x => q (f x)) l.
Proof.
  induction l as [|x r IH]; simpl; [reflexivity|].
  destruct (q (f x)); [rewrite IH|]; reflexivity.
Qed.

Lemma strip_map {A C} (f : A -> C) (q : C -> bool) (l : list A) :
  strip q (map f l) = map f (strip (fun x => q (f x)) l).
Proof.
  induction l as [|x r IH]; simpl; [reflexivity|].
  destruct (q (f x)); [rewrite IH|]; reflexivity.
Qed.

(* ===================================================================== *)
(** ** Positional numerals, most significant digit first                  *)
(* ===================================================================== *)

Module Radix.
Local Open Scope N_scope.
Section Radix.
Variable B : N.
Hypothesis B_ge_2 : (2 <= B)%N.

Definition step (acc d : N) : N := (acc * B + d)%N.

(** The number written by the digits [ds]. *)
Definition value (ds : list N) : N := fold_left step ds 0%N.

(** The digits of [n], none for zero.  [fuel] bounds the number of
    digits; the bit size of [n] is always enough. *)
Fixpoint to_digits_aux (fuel : nat) (n : N) (acc : list N) : list N :=
  match fuel with
  | O => acc
  | S f => if (n =? 0)%N then acc
           else to_digits_aux f (n / B) ((n mod B)%N :: acc)
  end.

Definition to_digits (n : N) : list N :=
  to_digits_aux (N.to_nat (N.size n)) n [].

Definition is_zero (d : N) : bool := (d =? 0)%N.

Definition canonical (ds : list N) : Prop :=
  Forall (fun d => (d < B)%N) ds /\ starts_clean is_zero ds.

Lemma value_snoc ds d : value (ds ++ [d]) = (value ds * B + d)%N.
Proof. unfold value. rewrite fold_left_app. reflexivity. Qed.

Lemma value_zeros k ds : value (repeat 0%N k ++ ds) = value ds.
Proof. induction k as [|k IH]; simpl; [reflexivity|]. exact IH. Qed.

Lemma value_strip ds : value (strip is_zero ds) = value ds.
Proof.
  induction ds as [|d r IH]; simpl; [reflexivity|].
  unfold is_zero at 1. destruct (N.eqb_spec d 0) as [->|Hd]; [|reflexivity].
  rewrite IH. reflexivity.
Qed.

Lemma half_bound (n : N) (f : nat) :
  (n < 2 ^ N.of_nat (S f))%N -> (n / B < 2 ^ N.of_nat f)%N.
Proof.
  intros Hn. rewrite Nat2N.inj_succ, N.pow_succ_r' in Hn.
  apply N.Div0.div_lt_upper_bound. nia.
Qed.

Lemma to_digits_aux_fold fuel : forall n acc,
  (n < 2 ^ N.of_nat fuel)%N ->
  fold_left step (to_digits_aux fuel n acc) 0%N = fold_left step acc n.
Proof.
  induction fuel as [|f IH]; intros n acc Hn.
  - simpl in *. assert (n = 0%N) as -> by lia. reflexivity.
  - cbn [to_digits_aux]. destruct (N.eqb_spec n 0) as [->|Hn0]; [reflexivity|].
    rewrite IH by (apply half_bound; exact Hn).
    simpl. unfold step at 2. f_equal.
    pose proof (N.div_mod' n B). lia.
Qed.

Lemma value_to_digits n : value (to_digits n) = n.
Proof.
  unfold value, to_digits. rewrite to_digits_aux_fold; [reflexivity|].
  rewrite N2Nat.id. apply N.size_gt.
Qed.

Lemma to_digits_aux_range fuel : forall n acc,
  Forall (fun d => (d < B)%N) acc ->
  Forall (fun d => (d < B)%N) (to_digits_aux fuel n acc).
Proof.
  induction fuel as [|f IH]; intros n acc Hacc; simpl; [exact Hacc|].
  destruct (n =? 0)%N; [exact Hacc|].
  apply IH. constructor; [|exact Hacc]. apply N.mod_lt. lia.
Qed.

Lemma to_digits_aux_clean fuel : forall n acc,
  (n < 2 ^ N.of_nat fuel)%N -> n <> 0%N ->
  starts_clean is_zero (to_digits_aux fuel n acc).
Proof.
  induction fuel as [|f IH]; intros n acc Hn Hn0.
  - simpl in Hn. lia.
  - cbn [to_digits_aux]. destruct (N.eqb_spec n 0) as [|_]; [contradiction|].
    destruct (N.eq_dec (n / B) 0) as [Hq|Hq].
    + rewrite Hq.
      assert (to_digits_aux f 0 ((n mod B)%N :: acc) = (n mod B)%N :: acc) as ->
        by (destruct f; reflexivity).
      simpl. unfold is_zero. apply N.eqb_neq.
      pose proof (N.div_mod' n B). rewrite Hq in *. lia.
    + apply IH; [apply half_bound; exact Hn | exact Hq].
Qed.

Lemma to_digits_canonical n : canonical (to_digits n).
Proof.
  split.
  - apply to_digits_aux_range. constructor.
  - unfold to_digits. destruct (N.eq_dec n 0) as [->|Hn]; [exact I|].
    apply to_digits_aux_clean; [|exact Hn].
    rewrite N2Nat.id. apply N.size_gt.
Qed.

Lemma canonical_nonzero d ds : canonical (d :: ds) -> value (d :: ds) <> 0%N.
Proof.
  intros [_ Hd]. simpl in Hd. unfold is_zero in Hd. apply N.eqb_neq in Hd.
  revert d Hd. induction ds as [|e r IH] using rev_ind; intros d Hd.
  - unfold value. simpl. unfold step. lia.
  - rewrite app_comm_cons, value_snoc. specialize (IH d Hd). nia.
Qed.

Lemma to_digits_aux_value ds : canonical ds -> forall fuel acc,
  (value ds < 2 ^ N.of_nat fuel)%N ->
  to_digits_aux fuel (value ds) acc = ds ++ acc.
Proof.
  induction ds as [|d r IH] using rev_ind; intros Hc fuel acc Hv.
  - destruct fuel; reflexivity.
  - destruct Hc as [Hr Hz]. apply Forall_app in Hr as [Hr Hd].
    inversion Hd as [|? ? Hd' _]; subst.
    assert (Hcr : canonical r).
    { split; [exact Hr|]. destruct r; [exact I | exact Hz]. }
    assert (Hne : value (r ++ [d]) <> 0%N).
    { destruct r as [|a r'].
      - simpl in Hz. unfold is_zero in Hz. apply N.eqb_neq in Hz.
        unfold value. simpl. unfold step. lia.
      - rewrite <- app_comm_cons. apply canonical_nonzero.
        split; [rewrite app_comm_cons; apply Forall_app; split; assumption | exact Hz]. }
    destruct fuel as [|f]; [simpl in Hv; lia|].
    cbn [to_digits_aux]. destruct (N.eqb_spec (value (r ++ [d])) 0) as [|_]; [contradiction|].
    pose proof (half_bound _ _ Hv) as Hh.
    rewrite value_snoc in *.
    assert ((value r * B + d) / B = value r)%N as Hq.
    { symmetry. apply (N.div_unique _ _ _ d); lia. }
    assert ((value r * B + d) mod B = d)%N as Hm.
    { symmetry. apply (N.mod_unique _ _ (value r)); lia. }
    rewrite Hq, Hm in *. rewrite IH by assumption.
    rewrite <- app_assoc. reflexivity.
Qed.

Lemma to_digits_value ds : canonical ds -> to_digits (value ds) = ds.
Proof.
  intros Hc. unfold to_digits. rewrite (to_digits_aux_value ds Hc).
  - apply app_nil_r.
  - rewrite N2Nat.id. apply N.size_gt.
Qed.
End Radix.
End Radix.

(* ===================================================================== *)
(** ** Buffers and big numbers (Buffer, bn.js)                            *)
(* ===================================================================== *)

Definition byte_of_N (n : N) : byte :=
  match Byte.of_N n with Some b => b | None => x00 end.

Lemma byte_of_N_to_N b : byte_of_N (Byte.to_N b) = b.
Proof. unfold byte_of_N. rewrite Byte.of_to_N. reflexivity. Qed.

Lemma to_N_byte_of_N n : (n < 256)%N -> Byte.to_N (byte_of_N n) = n.
Proof.
  intros Hn. unfold byte_of_N. destruct (Byte.of_N n) as [b|] eqn:E.
  - apply Byte.to_of_N. exact E.
  - apply Byte.of_N_None_iff in E. lia.
Qed.

Lemma to_N_lt_256 b : (Byte.to_N b < 256)%N.
Proof. pose proof (Byte.to_N_bounded b). lia. Qed.

Lemma map_to_N_byte_of_N ds :
  Forall (fun d => (d < 256)%N) ds -> map Byte.to_N (map byte_of_N ds) = ds.
Proof.
  induction 1 as [|d r Hd _ IH]; simpl; [reflexivity|].
  rewrite to_N_byte_of_N, IH by assumption. reflexivity.
Qed.

Lemma map_byte_of_N_to_N bs : map byte_of_N (map Byte.to_N bs) = bs.
Proof.
  induction bs as [|b r IH]; simpl; [reflexivity|].
  rewrite byte_of_N_to_N, IH. reflexivity.
Qed.

Definition is_x00 (b : byte) : bool := Radix.is_zero (Byte.to_N b).

Lemma is_x00_eq b : is_x00 b = true -> b = x00.
Proof.
  unfold is_x00, Radix.is_zero. intros H. apply N.eqb_eq in H.
  rewrite <- (byte_of_N_to_N b), H. reflexivity.
Qed.

(** [new BN(bytes)]: the big-endian number held by a buffer. *)
Definition bytes_to_N (bs : list byte) : N := Radix.value 256 (map Byte.to_N bs).

(** The shortest big-endian buffer holding [n] (empty for zero). *)
Definition N_to_bytes (n : N) : list byte := map byte_of_N (Radix.to_digits 256 n).

Lemma bytes_to_N_to_bytes n : bytes_to_N (N_to_bytes n) = n.
Proof.
  unfold bytes_to_N, N_to_bytes.
  rewrite map_to_N_byte_of_N by (apply Radix.to_digits_canonical; lia).
  apply Radix.value_to_digits. lia.
Qed.

Lemma N_to_bytes_to_N bs : N_to_bytes (bytes_to_N bs) = strip is_x00 bs.
Proof.
  unfold N_to_bytes, bytes_to_N.
  rewrite <- (Radix.value_strip 256 (map Byte.to_N bs)).
  rewrite Radix.to_digits_value.
  - rewrite strip_map. apply map_byte_of_N_to_N.
  - lia.
  - split; [|apply strip_clean].
    rewrite strip_map. apply List.Forall_map, List.Forall_forall. intros b _. apply to_N_lt_256.
Qed.

Lemma N_to_bytes_clean n : starts_clean is_x00 (N_to_bytes n).
Proof.
  unfold N_to_bytes.
  destruct (Radix.to_digits_canonical 256 ltac:(lia) n) as [Hr Hc].
  destruct (Radix.to_digits 256 n) as [|d r]; simpl; [exact I|].
  inversion Hr; subst. unfold is_x00. rewrite to_N_byte_of_N by assumption. exact Hc.
Qed.

Lemma bytes_to_N_zeros k bs : bytes_to_N (repeat x00 k ++ bs) = bytes_to_N bs.
Proof.
  unfold bytes_to_N. rewrite map_app, map_repeat. apply Radix.value_zeros.
Qed.

(* ===================================================================== *)
(** ** Base-58 text (the bs58 package)                                    *)
(* ===================================================================== *)

(** Modelled from the package's documented behaviour: bs58 is a dependency
    of the library and not part of its sources.  Every leading zero byte is
    written as the character '1'; the remaining bytes, read as one
    big-endian number, are written in base 58 over the Bitcoin alphabet. *)
Module bs58.
Definition ALPHABET : list ascii :=
  list_ascii_of_string "123456789ABCDEFGHJKLMNPQRSTUVWXYZabcdefghijkmnopqrstuvwxyz".

Fixpoint index_of (c : ascii) (l : list ascii) : option N :=
  match l with
  | [] => None
  | x :: r => if Ascii.eqb c x then Some 0%N else option_map N.succ (index_of c r)
  end.

Definition digit_of_char (c : ascii) : option N := index_of c ALPHABET.

Definition char_of_digit (d : N) : ascii := nth (N.to_nat d) ALPHABET "1"%char.

Fixpoint digits_of_chars (cs : list ascii) : option (list N) :=
  match cs with
  | [] => Some []
  | c :: r =>
      match digit_of_char c, digits_of_chars r with
      | Some d, Some ds => Some (d :: ds)
      | _, _ => None
      end
  end.

Definition encode (bs : list byte) : string :=
  string_of_list_ascii
    (repeat "1"%char (leading is_x00 bs)
     ++ map char_of_digit (Radix.to_digits 58 (bytes_to_N bs))).

(** [None] stands for the exception thrown on a character outside the
    alphabet. *)
Definition decode (s : string) : option (list byte) :=
  match digits_of_chars (list_ascii_of_string s) with
  | None => None
  | Some ds =>
      Some (repeat x00 (leading Radix.is_zero ds) ++ N_to_bytes (Radix.value 58 ds))
  end.

Lemma index_of_sound c l i :
  index_of c l = Some i ->
  (N.to_nat i < length l)%nat /\ nth (N.to_nat i) l "1"%char = c.
Proof.
  revert i. induction l as [|x r IH]; intros i; simpl; [discriminate|].
  destruct (Ascii.eqb_spec c x) as [->|Hne].
  - intros [= <-]. simpl. split; [lia | reflexivity].
  - destruct (index_of c r) as [j|]; simpl; [|discriminate].
    intros [= <-]. destruct (IH j eq_refl) as [Hlt Hnth].
    rewrite N2Nat.inj_succ. split; [lia | exact Hnth].
Qed.

Lemma digit_of_char_sound c d :
  digit_of_char c = Some d -> (d < 58)%N /\ char_of_digit d = c.
Proof.
  intros H. apply index_of_sound in H as [Hlt Hnth].
  change (length ALPHABET) with 58%nat in Hlt. split; [lia | exact Hnth].
Qed.

Lemma digit_of_char_of_digit d :
  (d < 58)%N -> digit_of_char (char_of_digit d) = Some d.
Proof.
  intros Hd.
  assert (H : forall n, (n < 58)%nat ->
            index_of (nth n ALPHABET "1"%char) ALPHABET = Some (N.of_nat n)).
  { intros n Hn. do 58 (destruct n as [|n]; [reflexivity|]). lia. }
  unfold digit_of_char, char_of_digit. rewrite H by lia.
  rewrite N2Nat.id. reflexivity.
Qed.

Lemma digits_of_chars_map ds :
  Forall (fun d => (d < 58)%N) ds ->
  digits_of_chars (map char_of_digit ds) = Some ds.
Proof.
  induction 1 as [|d r Hd _ IH]; simpl; [reflexivity|].
  rewrite digit_of_char_of_digit, IH by assumption. reflexivity.
Qed.

Lemma digits_of_chars_sound cs : forall ds,
  digits_of_chars cs = Some ds ->
  cs = map char_of_digit ds /\ Forall (fun d => (d < 58)%N) ds.
Proof.
  induction cs as [|c r IH]; intros ds; simpl.
  - intros [= <-]. split; [reflexivity | constructor].
  - destruct (digit_of_char c) as [d|] eqn:Ed; [|discriminate].
    destruct (digits_of_chars r) as [ds'|]; [|discriminate].
    intros [= <-]. destruct (IH ds' eq_refl) as [-> Hr].
    apply digit_of_char_sound in Ed as [Hd <-].
    split; [reflexivity | constructor; assumption].
Qed.

Lemma ones_chars k ds :
  repeat "1"%char k ++ map char_of_digit ds
  = map char_of_digit (repeat 0%N k ++ ds).
Proof. rewrite map_app, map_repeat. reflexivity. Qed.

Lemma Forall_zero_repeat k : Forall (fun d => Radix.is_zero d = true) (repeat 0%N k).
Proof. apply List.Forall_forall. intros d Hd. apply repeat_spec in Hd. subst. reflexivity. Qed.

Lemma Forall_x00_repeat k : Forall (fun b => is_x00 b = true) (repeat x00 k).
Proof. apply List.Forall_forall. intros d Hd. apply repeat_spec in Hd. subst. reflexivity. Qed.

(** Decoding what was encoded gives the buffer back. *)
Lemma decode_encode bs : decode (encode bs) = Some bs.
Proof.
  unfold decode, encode. rewrite list_ascii_of_string_of_list_ascii, ones_chars.
  destruct (Radix.to_digits_canonical 58 ltac:(lia) (bytes_to_N bs)) as [Hr Hc].
  rewrite digits_of_chars_map.
  2:{ apply Forall_app. split; [|exact Hr].
      apply List.Forall_forall. intros d Hd. apply repeat_spec in Hd. subst. lia. }
  destruct (leading_app_clean Radix.is_zero _ _ (Forall_zero_repeat (leading is_x00 bs)) Hc)
    as [-> _].
  rewrite repeat_length, Radix.value_zeros, Radix.value_to_digits by lia.
  rewrite N_to_bytes_to_N. f_equal.
  apply repeat_leading_strip. exact is_x00_eq.
Qed.

(** Only the encoding of a buffer decodes to it. *)
Lemma encode_decode s bs : decode s = Some bs -> encode bs = s.
Proof.
  unfold decode. destruct (digits_of_chars (list_ascii_of_string s)) as [ds|] eqn:E;
    [|discriminate].
  intros [= <-]. apply digits_of_chars_sound in E as [Hs Hr].
  unfold encode.
  destruct (leading_app_clean is_x00 _ _
              (Forall_x00_repeat (leading Radix.is_zero ds))
              (N_to_bytes_clean (Radix.value 58 ds))) as [-> _].
  rewrite repeat_length, bytes_to_N_zeros, bytes_to_N_to_bytes.
  rewrite <- (Radix.value_strip 58 ds), Radix.to_digits_value.
  - rewrite ones_chars, repeat_leading_strip.
    + rewrite <- Hs. apply string_of_list_ascii_of_string.
    + intros d Hd. apply N.eqb_eq in Hd. exact Hd.
  - lia.
  - split; [|apply strip_clean].
    apply List.Forall_forall. intros d Hd. rewrite List.Forall_forall in Hr. apply Hr.
    destruct (leading_strip_split Radix.is_zero ds) as [Hsplit _].
    rewrite Hsplit. apply in_or_app. right. exact Hd.
Qed.

Lemma encode_inj a b : encode a = encode b -> a = b.
Proof.
  intros H. pose proof (decode_encode a) as Ha. rewrite H, decode_encode in Ha.
  congruence.
Qed.
End bs58.

(* ===================================================================== *)
(** ** Thrown errors                                                      *)
(* ===================================================================== *)

Inductive Error : Type :=
| NonBase58Character          (* bs58.decode rejects its input *)
| InvalidPublicKeyInput       (* Error('Invalid public key input') *)
| RecentBlockhashRequired     (* Error('Transaction recentBlockhash required') *)
| FeePayerRequired            (* Error('Transaction fee payer required') *)
| UndefinedProgramId (i : nat)
| UnknownSigner (address : string)
| AssertionFailed
| NoSigners                   (* Error('No signers') *)
| NoSignature                 (* Error('!signature') *)
| SignatureVerificationFailed (* Error('Signature verification failed') *)
| MaxSeedLengthExceeded       (* TypeError('Max seed length exceeded') *)
| InvalidSeeds                (* Error('Invalid seeds, address must fall off the curve') *)
| NoViableNonce               (* Error('Unable to find a viable program address nonce') *)
| BlockhashTimeout            (* Error('Unable to obtain a new blockhash after ...') *)
| UndefinedRead               (* a property read on undefined, a TypeError *)
| UndefinedField              (* no exception: the object built holds undefined *)
| LayoutTypeError             (* Blob.encode: source of the wrong length *)
| LayoutRangeError            (* an encoding that overruns its buffer or field *)
| DoesNotReturn               (* a loop that never ends *)
| OutOfFuel                   (* the bound on a loop of the model was reached *)
| HttpError (status : Z) (text : string)   (* Error(`${status} ${statusText}: ${text}`) *)
| RemoteError (message : string).

Inductive Result (A : Type) : Type :=
| Ok (a : A)
| Err (e : Error).
Arguments Ok {A} a.
Arguments Err {A} e.

Definition bind {A C} (r : Result A) (k : A -> Result C) : Result C :=
  match r with
  | Ok a => k a
  | Err e => Err e
  end.

Notation "'let*' x ':=' e 'in' k" := (bind e (fun x => k))
  (at level 10, x name, e at level 100, k at level 200).

Definition of_option {A} (e : Error) (o : option A) : Result A :=
  match o with Some a => Ok a | None => Err e end.

(** [xs.map(f)] for an [f] that can throw: the first exception wins. *)
Fixpoint mapM {A C} (f : A -> Result C) (l : list A) : Result (list C) :=
  match l with
  | [] => Ok []
  | x :: r => let* y := f x in let* ys := mapM f r in Ok (y :: ys)
  end.

Lemma bind_Ok {A C} (r : Result A) (k : A -> Result C) c :
  bind r k = Ok c -> exists a, r = Ok a /\ k a = Ok c.
Proof. destruct r as [a|e]; simpl; [eauto | discriminate]. Qed.

Lemma mapM_Ok_length {A C} (f : A -> Result C) l : forall ys,
  mapM f l = Ok ys -> length ys = length l.
Proof.
  induction l as [|x r IH]; simpl; intros ys.
  - intros [= <-]. reflexivity.
  - intros H. apply bind_Ok in H as (y & _ & H). apply bind_Ok in H as (ys' & Hr & H).
    injection H as <-. simpl. f_equal. apply IH. exact Hr.
Qed.

Lemma mapM_ext_Ok {A C} (f : A -> Result C) (g : A -> C) l :
  Forall (fun x => f x = Ok (g x)) l -> mapM f l = Ok (map g l).
Proof.
  induction 1 as [|x r Hx _ IH]; simpl; [reflexivity|].
  rewrite Hx, IH. reflexivity.
Qed.

(* ===================================================================== *)
(** ** PublicKey                                                          *)
(* ===================================================================== *)

(** A key is the big number [_bn] it wraps. *)
Record PublicKey : Type := mkPublicKey { bn : N }.

(** [_bn.byteLength()] *)
Definition byteLength (n : N) : nat := length (N_to_bytes n).

(** What the constructor enforces: [_bn.byteLength() <= 32]. *)
Definition PublicKey_wf (k : PublicKey) : Prop := (byteLength (bn k) <= 32)%nat.

(** [new PublicKey(value)] for a buffer. *)
Definition PublicKey_of_bytes (value : list byte) : Result PublicKey :=
  let n := bytes_to_N value in
  if (32 <? byteLength n)%nat then Err InvalidPublicKeyInput
  else Ok (mkPublicKey n).

(** [new PublicKey(value)] for a string, read as base 58. *)
Definition PublicKey_of_string (value : string) : Result PublicKey :=
  let* decoded := of_option NonBase58Character (bs58.decode value) in
  if negb (length decoded =? 32)%nat then Err InvalidPublicKeyInput
  else PublicKey_of_bytes decoded.

Definition PublicKey_equals (a b : PublicKey) : bool := (bn a =? bn b)%N.

(** [toBuffer]: the number in 32 big-endian bytes, zero padded on the left.
    (A key always has at most 32 bytes.) *)
Definition PublicKey_toBuffer (k : PublicKey) : list byte :=
  let b := N_to_bytes (bn k) in
  repeat x00 (32 - length b) ++ b.

Definition PublicKey_toBytes := PublicKey_toBuffer.

Definition PublicKey_toBase58 (k : PublicKey) : string :=
  bs58.encode (PublicKey_toBytes k).

Definition PublicKey_toString := PublicKey_toBase58.

Lemma PublicKey_equals_eq a b : PublicKey_equals a b = true <-> a = b.
Proof.
  unfold PublicKey_equals. destruct a as [x], b as [y]. simpl.
  rewrite N.eqb_eq. split; congruence.
Qed.

Lemma PublicKey_toBuffer_length k :
  PublicKey_wf k -> length (PublicKey_toBuffer k) = 32%nat.
Proof.
  unfold PublicKey_wf, byteLength, PublicKey_toBuffer. intros H.
  rewrite length_app, repeat_length. lia.
Qed.

Lemma PublicKey_toBuffer_value k : bytes_to_N (PublicKey_toBuffer k) = bn k.
Proof.
  unfold PublicKey_toBuffer. rewrite bytes_to_N_zeros. apply bytes_to_N_to_bytes.
Qed.

Lemma PublicKey_of_bytes_toBuffer k :
  PublicKey_wf k -> PublicKey_of_bytes (PublicKey_toBuffer k) = Ok k.
Proof.
  intros H. unfold PublicKey_of_bytes. rewrite PublicKey_toBuffer_value.
  unfold PublicKey_wf in H.
  destruct (Nat.ltb_spec 32 (byteLength (bn k))); [lia|]. destruct k; reflexivity.
Qed.

Lemma PublicKey_of_bytes_wf bs k : PublicKey_of_bytes bs = Ok k -> PublicKey_wf k.
Proof.
  unfold PublicKey_of_bytes, PublicKey_wf.
  destruct (Nat.ltb_spec 32 (byteLength (bytes_to_N bs))); [discriminate|].
  intros [= <-]. simpl. lia.
Qed.

Lemma PublicKey_of_string_toString k :
  PublicKey_wf k -> PublicKey_of_string (PublicKey_toString k) = Ok k.
Proof.
  intros H. unfold PublicKey_of_string, PublicKey_toString, PublicKey_toBase58,
    PublicKey_toBytes.
  rewrite bs58.decode_encode. simpl.
  rewrite PublicKey_toBuffer_length by exact H. simpl.
  apply PublicKey_of_bytes_toBuffer. exact H.
Qed.

Lemma PublicKey_of_string_wf s k : PublicKey_of_string s = Ok k -> PublicKey_wf k.
Proof.
  unfold PublicKey_of_string. intros H. apply bind_Ok in H as (d & _ & H).
  destruct (negb _); [discriminate|]. eapply PublicKey_of_bytes_wf. exact H.
Qed.

Lemma PublicKey_toString_inj a b :
  PublicKey_toString a = PublicKey_toString b -> a = b.
Proof.
  intros H. apply bs58.encode_inj in H.
  apply (f_equal bytes_to_N) in H. unfold PublicKey_toBytes in H.
  rewrite !PublicKey_toBuffer_value in H. destruct a, b; simpl in H; congruence.
Qed.

(* ===================================================================== *)
(** ** 32-bit integer operators and the compact length encoding           *)
(* ===================================================================== *)

Local Open Scope Z_scope.

(** ToInt32 *)
Definition int32 (z : Z) : Z := (z + 2 ^ 31) mod 2 ^ 32 - 2 ^ 31.

(** [a << b], [a >> b], [a | b], [a & b] *)
Definition js_shl (a b : Z) : Z := int32 (Z.shiftl (int32 a) (b mod 32)).
Definition js_sar (a b : Z) : Z := Z.shiftr (int32 a) (b mod 32).
Definition js_or (a b : Z) : Z := Z.lor (int32 a) (int32 b).
Definition js_and (a b : Z) : Z := Z.land (int32 a) (int32 b).

Definition byte_to_Z (b : byte) : Z := Z.of_N (Byte.to_N b).

(** Storing a number in a buffer keeps its low eight bits. *)
Definition byte_of_Z (z : Z) : byte := byte_of_N (Z.to_N (z mod 256)).

(** [decodeLength(bytes)]: the value read and the bytes left in the array.
    [bytes.shift()] on an empty array gives [undefined], which both
    operators read as 0, so the loop stops there. *)
Fixpoint decodeLength_loop (bytes : list byte) (len size : Z) : Z * list byte :=
  match bytes with
  | [] => (js_or len (js_shl 0 (size * 7)), [])
  | b :: rest =>
      let elem := byte_to_Z b in
      let len := js_or len (js_shl (js_and elem 127) (size * 7)) in
      let size := size + 1 in
      if js_and elem 128 =? 0 then (len, rest)
      else decodeLength_loop rest len size
  end.

Definition decodeLength (bytes : list byte) : Z * list byte :=
  decodeLength_loop bytes 0 0.

(** [encodeLength(bytes, len)], the bytes pushed.  The loop runs until the
    remainder is zero; [fuel] bounds the iterations of the model. *)
Fixpoint encodeLength_loop (fuel : nat) (rem_len : Z) : option (list byte) :=
  match fuel with
  | O => None
  | S f =>
      let elem := js_and rem_len 127 in
      let rem_len := js_sar rem_len 7 in
      if rem_len =? 0 then Some [byte_of_Z elem]
      else option_map (cons (byte_of_Z (js_or elem 128))) (encodeLength_loop f rem_len)
  end.

(** Five rounds consume 35 bits: every non-negative 32-bit length is done
    by then.  A length that reads as a negative 32-bit integer never
    reaches zero. *)
Definition encodeLength (len : Z) : Result (list byte) :=
  of_option DoesNotReturn (encodeLength_loop 5 len).

Lemma int32_small z : - 2 ^ 31 <= z < 2 ^ 31 -> int32 z = z.
Proof. intros H. unfold int32. rewrite Z.mod_small; lia. Qed.

Lemma land_disjoint a b k :
  0 <= k -> 0 <= a < 2 ^ k -> Z.land a (b * 2 ^ k) = 0.
Proof.
  intros Hk Ha. apply Z.bits_inj'. intros n Hn.
  rewrite Z.land_spec, Z.bits_0. destruct (Z.lt_ge_cases n k) as [Hlt|Hge].
  - rewrite Z.mul_pow2_bits_low by lia. apply andb_false_r.
  - destruct (Z.eq_dec a 0) as [->|Ha0]; [rewrite Z.bits_0; reflexivity|].
    rewrite (Z.bits_above_log2 a n); [reflexivity | lia |].
    assert (Z.log2 a < k) by (apply Z.log2_lt_pow2; lia). lia.
Qed.

Lemma lor_disjoint a b k :
  0 <= k -> 0 <= a < 2 ^ k -> Z.lor a (b * 2 ^ k) = a + b * 2 ^ k.
Proof.
  intros Hk Ha. pose proof (land_disjoint a b k Hk Ha) as Hd.
  rewrite <- Z.lxor_lor by exact Hd. symmetry. apply Z.add_nocarry_lxor. exact Hd.
Qed.

(** The facts about one group of seven bits, checked value by value. *)
Definition septet_facts (z : Z) : Prop :=
  byte_to_Z (byte_of_Z z) = z /\
  js_and z 127 = z /\
  (js_and z 128 =? 0) = true /\
  byte_to_Z (byte_of_Z (js_or z 128)) = z + 128 /\
  js_and (z + 128) 127 = z /\
  (js_and (z + 128) 128 =? 0) = false.

Lemma septet_facts_nat (n : nat) : (n < 128)%nat -> septet_facts (Z.of_nat n).
Proof.
  intros Hn.
  do 128 (destruct n as [|n]; [vm_compute; repeat split; reflexivity|]).
  lia.
Qed.

Lemma septet_facts_Z z : 0 <= z < 128 -> septet_facts z.
Proof.
  intros Hz. rewrite <- (Z2Nat.id z) by lia. apply septet_facts_nat. lia.
Qed.

Lemma js_and_127 r : 0 <= r < 2 ^ 31 -> js_and r 127 = r mod 128.
Proof.
  intros Hr. unfold js_and. rewrite int32_small by lia.
  change (int32 127) with (Z.ones 7). rewrite Z.land_ones by lia. reflexivity.
Qed.

Lemma js_sar_7 r : 0 <= r < 2 ^ 31 -> js_sar r 7 = r / 128.
Proof.
  intros Hr. unfold js_sar. rewrite int32_small by lia.
  change (7 mod 32) with 7. rewrite Z.shiftr_div_pow2 by lia. reflexivity.
Qed.

Lemma js_or_shl_group len z size :
  0 <= size <= 4 -> 0 <= len < 2 ^ (size * 7) -> 0 <= z ->
  z * 2 ^ (size * 7) < 2 ^ 31 ->
  js_or len (js_shl z (size * 7)) = len + z * 2 ^ (size * 7).
Proof.
  intros Hs Hlen Hz Hb.
  assert (Hp : 0 < 2 ^ (size * 7)) by (apply Z.pow_pos_nonneg; lia).
  assert (Hz31 : z < 2 ^ 31) by nia.
  assert (Hp28 : 2 ^ (size * 7) <= 2 ^ 28) by (apply Z.pow_le_mono_r; lia).
  change (2 ^ 28) with 268435456 in Hp28. change (2 ^ 31) with 2147483648 in *.
  unfold js_or, js_shl.
  rewrite (int32_small z) by (change (2 ^ 31) with 2147483648; lia).
  rewrite (Z.mod_small (size * 7) 32) by lia.
  rewrite Z.shiftl_mul_pow2 by lia.
  rewrite (int32_small (z * _)) by (change (2 ^ 31) with 2147483648; nia).
  rewrite (int32_small len) by (change (2 ^ 31) with 2147483648; lia).
  rewrite (int32_small (z * _)) by (change (2 ^ 31) with 2147483648; nia).
  apply lor_disjoint; lia.
Qed.

Lemma encodeLength_loop_decode fuel : forall r,
  0 <= r < 2 ^ (7 * Z.of_nat fuel) -> r < 2 ^ 31 -> (0 < fuel)%nat ->
  exists bs, encodeLength_loop fuel r = Some bs /\
    (0 < length bs <= fuel)%nat /\
    forall rest len size,
      0 <= size <= 4 -> 0 <= len < 2 ^ (size * 7) ->
      r * 2 ^ (size * 7) < 2 ^ 31 ->
      decodeLength_loop (bs ++ rest) len size = (len + r * 2 ^ (size * 7), rest).
Proof.
  induction fuel as [|f IH]; intros r Hr Hr31 Hf; [lia|].
  cbn [encodeLength_loop].
  rewrite js_and_127, js_sar_7 by lia.
  assert (Hm : 0 <= r mod 128 < 128) by (apply Z.mod_pos_bound; lia).
  destruct (septet_facts_Z _ Hm) as (F1 & F2 & F3 & F4 & F5 & F6).
  pose proof (Z.div_mod r 128 ltac:(lia)) as Hdm.
  destruct (Z.eqb_spec (r / 128) 0) as [Hq|Hq].
  - eexists. split; [reflexivity|]. split; [simpl; lia|].
    intros rest len size Hs Hlen Hb.
    assert (r mod 128 = r) as Hrr by lia.
    cbn [app decodeLength_loop]. rewrite F1, F2, F3.
    rewrite js_or_shl_group by (rewrite ?Hrr; lia). rewrite Hrr. reflexivity.
  - assert (Hq1 : 1 <= r / 128) by (pose proof (Z.div_pos r 128); lia).
    assert (Hf' : (0 < f)%nat).
    { destruct f; [|lia]. simpl in Hr. lia. }
    destruct (IH (r / 128)) as (bs & Hbs & Hlen_bs & Hdec); try lia.
    { split; [lia|]. apply Z.div_lt_upper_bound; [lia|].
      replace (7 * Z.of_nat (S f)) with (7 + 7 * Z.of_nat f) in Hr by lia.
      rewrite Z.pow_add_r in Hr by lia. change (2 ^ 7) with 128 in Hr. lia. }
    rewrite Hbs. eexists. split; [reflexivity|]. split; [simpl; lia|].
    intros rest len size Hs Hlen Hb.
    assert (Hp : 0 < 2 ^ (size * 7)) by (apply Z.pow_pos_nonneg; lia).
    assert (Hs3 : size <= 3).
    { destruct (Z.le_gt_cases size 3) as [|Hgt]; [assumption|].
      assert (size = 4) as -> by lia. change (2 ^ (4 * 7)) with 268435456 in *.
      change (2 ^ 31) with 2147483648 in *. lia. }
    cbn [app decodeLength_loop]. rewrite F4, F5, F6.
    rewrite js_or_shl_group by nia.
    assert (He : 2 ^ ((size + 1) * 7) = 128 * 2 ^ (size * 7)).
    { replace ((size + 1) * 7) with (7 + size * 7) by lia.
      rewrite Z.pow_add_r by lia. reflexivity. }
    rewrite Hdec; rewrite ?He.
    + f_equal. nia.
    + lia.
    + nia.
    + nia.
Qed.

(** A length below 2^31 is encoded in at most five bytes, and decoding
    reads it back and leaves what follows. *)
Lemma decodeLength_encodeLength n :
  0 <= n < 2 ^ 31 ->
  exists bs, encodeLength n = Ok bs /\ (0 < length bs <= 5)%nat /\
             forall rest, decodeLength (bs ++ rest) = (n, rest).
Proof.
  intros Hn.
  destruct (encodeLength_loop_decode 5 n) as (bs & Hbs & Hlen & Hdec); try lia.
  exists bs. unfold encodeLength. rewrite Hbs. split; [reflexivity|].
  split; [exact Hlen|].
  intros rest. unfold decodeLength.
  specialize (Hdec rest 0 0). change (2 ^ (0 * 7)) with 1 in Hdec.
  rewrite Hdec by lia. f_equal. lia.
Qed.

(* ===================================================================== *)
(** ** Arrays and buffers: slice, copy, layout writes                     *)
(* ===================================================================== *)

(** [arr.slice(0, e)] and [arr.slice(s)]; a negative bound counts from the
    end of the array. *)
Definition slice_to {A} (l : list A) (e : Z) : list A :=
  if e <? 0 then firstn (length l - Z.to_nat (- e)) l else firstn (Z.to_nat e) l.

Definition slice_from {A} (l : list A) (s : Z) : list A :=
  if s <? 0 then skipn (length l - Z.to_nat (- s)) l else skipn (Z.to_nat s) l.

(** [arr.shift()], which gives [undefined] on an empty array. *)
Definition shift {A} (l : list A) : option A * list A :=
  match l with
  | [] => (None, [])
  | x :: r => (Some x, r)
  end.

(** A layout write of [src] right after the [acc] bytes already written
    into a buffer of [cap] bytes: it throws when it would overrun. *)
Definition put (cap : nat) (acc src : list byte) : Result (list byte) :=
  if (cap <? length acc + length src)%nat then Err LayoutRangeError
  else Ok (acc ++ src).

(** The same for a blob field of fixed [span], whose source must have
    exactly that length. *)
Definition put_blob (cap span : nat) (acc src : list byte) : Result (list byte) :=
  if negb (length src =? span)%nat then Err LayoutTypeError
  else put cap acc src.

(** A [u8] field holds an integer from 0 to 255. *)
Definition put_u8 (cap : nat) (acc : list byte) (v : Z) : Result (list byte) :=
  if (0 <=? v) && (v <=? 255) then put cap acc [byte_of_Z v]
  else Err LayoutRangeError.

Definition PUBKEY_LENGTH : nat := 32.
Definition PACKET_DATA_SIZE : nat := 1280 - 40 - 8.
Definition SIGNATURE_LENGTH : nat := 64.

(* ===================================================================== *)
(** ** Message                                                            *)
(* ===================================================================== *)

Record MessageHeader : Type := mkHeader {
  numRequiredSignatures : Z;
  numReadonlySignedAccounts : Z;
  numReadonlyUnsignedAccounts : Z
}.

Record CompiledInstruction : Type := mkCompiledInstruction {
  programIdIndex : Z;
  accounts : list Z;
  cdata : string            (* [data], base-58 text *)
}.

Module Message.
Record t : Type := mk {
  header : MessageHeader;
  accountKeys : list PublicKey;
  recentBlockhash : string;
  instructions : list CompiledInstruction
}.

(** [new Message(args)]: every account key of [args] is passed to the
    PublicKey constructor. *)
Definition new (h : MessageHeader) (keys : list string) (blockhash : string)
    (ixs : list CompiledInstruction) : Result t :=
  let* ks := mapM PublicKey_of_string keys in
  Ok (mk h ks blockhash ixs).

Definition isAccountWritable (m : t) (index : Z) : bool :=
  let h := header m in
  (index <? numRequiredSignatures h - numReadonlySignedAccounts h)
  || ((numRequiredSignatures h <=? index)
      && (index <? Z.of_nat (length (accountKeys m)) - numReadonlyUnsignedAccounts h)).

(** The object built for one instruction in the first pass of
    [serialize]. *)
Record Prepared : Type := mkPrepared {
  p_programIdIndex : Z;
  p_keyIndicesCount : list byte;
  p_keyIndices : list byte;
  p_dataLength : list byte;
  p_data : list byte
}.

Definition prepare (ix : CompiledInstruction) : Result Prepared :=
  let* data := of_option NonBase58Character (bs58.decode (cdata ix)) in
  let* keyIndicesCount := encodeLength (Z.of_nat (length (accounts ix))) in
  let* dataCount := encodeLength (Z.of_nat (length data)) in
  Ok (mkPrepared (programIdIndex ix) keyIndicesCount
        (map byte_of_Z (accounts ix)) dataCount data).

(** [instructionLayout.encode(instruction, instructionBuffer, offset)] *)
Definition put_instruction (acc : list byte) (p : Prepared) : Result (list byte) :=
  let cap := PACKET_DATA_SIZE in
  let* acc := put_u8 cap acc (p_programIdIndex p) in
  let* acc := put cap acc (p_keyIndicesCount p) in
  let* acc := put cap acc (p_keyIndices p) in
  let* acc := put cap acc (p_dataLength p) in
  put cap acc (p_data p).

Fixpoint put_instructions (acc : list byte) (ps : list Prepared) : Result (list byte) :=
  match ps with
  | [] => Ok acc
  | p :: r => let* acc := put_instruction acc p in put_instructions acc r
  end.

Fixpoint put_keys (cap : nat) (acc : list byte) (keys : list (list byte))
    : Result (list byte) :=
  match keys with
  | [] => Ok acc
  | k :: r => let* acc := put_blob cap PUBKEY_LENGTH acc k in put_keys cap acc r
  end.

(** The two sections [serialize] lays out: the instruction buffer, cut to
    the length written, and the sign data up to the blockhash. *)
Definition sections (m : t) : Result (list byte * list byte) :=
  let numKeys := length (accountKeys m) in
  let* keyCount := encodeLength (Z.of_nat numKeys) in
  let* prepared := mapM prepare (instructions m) in
  let* instructionCount := encodeLength (Z.of_nat (length prepared)) in
  let* instructionBuffer := put_instructions instructionCount prepared in
  let keys := map PublicKey_toBytes (accountKeys m) in
  let* blockhash := of_option NonBase58Character (bs58.decode (recentBlockhash m)) in
  let h := header m in
  let cap := 2048%nat in
  let signData :=
    [byte_of_Z (numRequiredSignatures h);
     byte_of_Z (numReadonlySignedAccounts h);
     byte_of_Z (numReadonlyUnsignedAccounts h)] in
  let* signData := put cap signData keyCount in
  let* signData := put_keys cap signData keys in
  let* signData := put_blob cap PUBKEY_LENGTH signData blockhash in
  Ok (signData, instructionBuffer).

(** [serialize]: the instruction buffer is copied behind the sign data.
    [copy] writes what fits into the 2048 bytes and [slice] stops at the
    end of the buffer, so a longer message is cut there. *)
Definition serialize (m : t) : Result (list byte) :=
  let* laid := sections m in
  let '(signData, instructionBuffer) := laid in
  Ok (firstn 2048 (signData ++ instructionBuffer)).

(** The first loop of [from]: [count] keys of 32 bytes each. *)
Fixpoint read_keys (count : nat) (byteArray : list byte) : list string * list byte :=
  match count with
  | O => ([], byteArray)
  | S c =>
      let account := slice_to byteArray (Z.of_nat PUBKEY_LENGTH) in
      let byteArray := slice_from byteArray (Z.of_nat PUBKEY_LENGTH) in
      let '(keys, rest) := read_keys c byteArray in
      (bs58.encode account :: keys, rest)
  end.

(** The second loop of [from]. *)
Fixpoint read_instructions (count : nat) (byteArray : list byte)
    : Result (list CompiledInstruction) :=
  match count with
  | O => Ok []
  | S c =>
      let '(programIdIndex, byteArray) := shift byteArray in
      let* programIdIndex := of_option UndefinedField programIdIndex in
      let '(accountCount, byteArray) := decodeLength byteArray in
      let accounts := slice_to byteArray accountCount in
      let byteArray := slice_from byteArray accountCount in
      let '(dataLength, byteArray) := decodeLength byteArray in
      let dataSlice := slice_to byteArray dataLength in
      let data := bs58.encode dataSlice in
      let byteArray := slice_from byteArray dataLength in
      let* rest := read_instructions c byteArray in
      Ok (mkCompiledInstruction (byte_to_Z programIdIndex) (map byte_to_Z accounts) data
          :: rest)
  end.

(** [Message.from(buffer)].  Where the source would store [undefined] in
    the object it builds (a header count or a program index read past the
    end of the bytes), the model answers [Err UndefinedField]. *)
Definition from (buffer : list byte) : Result t :=
  let byteArray := buffer in
  let '(numRequiredSignatures, byteArray) := shift byteArray in
  let '(numReadonlySignedAccounts, byteArray) := shift byteArray in
  let '(numReadonlyUnsignedAccounts, byteArray) := shift byteArray in
  let '(accountCount, byteArray) := decodeLength byteArray in
  let '(accountKeys, byteArray) := read_keys (Z.to_nat accountCount) byteArray in
  let recentBlockhash := slice_to byteArray (Z.of_nat PUBKEY_LENGTH) in
  let byteArray := slice_from byteArray (Z.of_nat PUBKEY_LENGTH) in
  let '(instructionCount, byteArray) := decodeLength byteArray in
  let* instructions := read_instructions (Z.to_nat instructionCount) byteArray in
  let* n1 := of_option UndefinedField numRequiredSignatures in
  let* n2 := of_option UndefinedField numReadonlySignedAccounts in
  let* n3 := of_option UndefinedField numReadonlyUnsignedAccounts in
  new (mkHeader (byte_to_Z n1) (byte_to_Z n2) (byte_to_Z n3))
      accountKeys (bs58.encode recentBlockhash) instructions.
End Message.

(* ===================================================================== *)
(** ** Array helpers used by the compiler                                 *)
(* ===================================================================== *)

Fixpoint find_index {A} (p : A -> bool) (l : list A) : option nat :=
  match l with
  | [] => None
  | x :: r => if p x then Some O else option_map S (find_index p r)
  end.

(** [arr.findIndex(p)], -1 when nothing matches. *)
Definition findIndex {A} (p : A -> bool) (l : list A) : Z :=
  match find_index p l with
  | Some i => Z.of_nat i
  | None => -1
  end.

(** [arr.indexOf(s)] on strings. *)
Definition indexOf (l : list string) (s : string) : Z :=
  findIndex (fun x => String.eqb x s) l.

(** [arr.includes(s)] on strings. *)
Definition includes (l : list string) (s : string) : bool :=
  existsb (fun x => String.eqb x s) l.

(** [arr[i] = f(arr[i])] for an index inside the array. *)
Fixpoint modify {A} (f : A -> A) (i : nat) (l : list A) : list A :=
  match l, i with
  | [], _ => []
  | x :: r, O => f x :: r
  | x :: r, S j => x :: modify f j r
  end.

(** [arr.splice(i, 1)]: the array without its element [i]. *)
Fixpoint remove_at {A} (i : nat) (l : list A) : list A :=
  match l, i with
  | [], _ => []
  | _ :: r, O => r
  | x :: r, S j => x :: remove_at j r
  end.

(** [arr.sort(cmp)].  The language requires a stable sort; the model
    inserts each element in front of the first one it does not follow. *)
Fixpoint insert_sorted {A} (cmp : A -> A -> Z) (x : A) (l : list A) : list A :=
  match l with
  | [] => [x]
  | y :: r => if cmp x y <=? 0 then x :: y :: r else y :: insert_sorted cmp x r
  end.

Definition sort {A} (cmp : A -> A -> Z) (l : list A) : list A :=
  fold_right (insert_sorted cmp) [] l.

(* ===================================================================== *)
(** ** Transaction                                                        *)
(* ===================================================================== *)

Record AccountMeta : Type := mkMeta {
  pubkey : PublicKey;
  isSigner : bool;
  isWritable : bool
}.

(** [oid] stands for the identity of the object: the source compares two
    instructions with [!=], which tells objects apart, not contents. *)
Record TransactionInstruction : Type := mkInstruction {
  oid : nat;
  keys : list AccountMeta;
  programId : option PublicKey;     (* [None]: undefined *)
  data : list byte
}.

Record SignaturePubkeyPair : Type := mkPair {
  signature : option (list byte);   (* [None]: null *)
  publicKey : option PublicKey      (* [None]: undefined *)
}.

Record NonceInformation : Type := mkNonce {
  nonce : string;
  nonceInstruction : TransactionInstruction
}.

Definition set_isSigner (v : bool) (m : AccountMeta) : AccountMeta :=
  mkMeta (pubkey m) v (isWritable m).
Definition set_isWritable (v : bool) (m : AccountMeta) : AccountMeta :=
  mkMeta (pubkey m) (isSigner m) v.

Module Transaction.
Record t : Type := mk {
  signatures : list SignaturePubkeyPair;
  feePayer : option PublicKey;
  instructions : list TransactionInstruction;
  recentBlockhash : option string;
  nonceInfo : option NonceInformation
}.

(** The first statement of [compileMessage]: in durable-nonce mode the
    nonce instruction is put first, unless it is there already, and the
    nonce becomes the blockhash.  This changes the transaction. *)
Definition applyNonce (tx : t) : t :=
  match nonceInfo tx with
  | Some ni =>
      let first_is_nonce :=
        match instructions tx with
        | i0 :: _ => (oid i0 =? oid (nonceInstruction ni))%nat
        | [] => false
        end in
      if negb first_is_nonce
      then mk (signatures tx) (feePayer tx)
              (nonceInstruction ni :: instructions tx) (Some (nonce ni)) (nonceInfo tx)
      else tx
  | None => tx
  end.

(** The explicit fee payer, else the key of the first signature. *)
Definition chooseFeePayer (tx : t) : Result PublicKey :=
  match feePayer tx with
  | Some k => Ok k
  | None =>
      match signatures tx with
      | {| publicKey := Some k |} :: _ => Ok k
      | _ => Err FeePayerRequired
      end
  end.

Fixpoint checkProgramIds (i : nat) (ixs : list TransactionInstruction) : Result unit :=
  match ixs with
  | [] => Ok tt
  | ix :: r =>
      match programId ix with
      | None => Err (UndefinedProgramId i)
      | Some _ => checkProgramIds (S i) r
      end
  end.

(** The walk over the instructions: copies of their account metas in
    order, and the text of each program id the first time it is seen. *)
Fixpoint collect (ixs : list TransactionInstruction)
    (programIds : list string) (accountMetas : list AccountMeta)
    : Result (list string * list AccountMeta) :=
  match ixs with
  | [] => Ok (programIds, accountMetas)
  | ix :: r =>
      let accountMetas := accountMetas ++ keys ix in
      let* pid := of_option UndefinedRead (programId ix) in
      let programId := PublicKey_toString pid in
      let programIds :=
        if negb (includes programIds programId) then programIds ++ [programId]
        else programIds in
      collect r programIds accountMetas
  end.

(** One meta per program id, appended after the collected ones. *)
Definition programMetas (programIds : list string) : Result (list AccountMeta) :=
  mapM (fun programId =>
          let* k := PublicKey_of_string programId in
          Ok (mkMeta k false false)) programIds.

Definition collectMetas (ixs : list TransactionInstruction) : Result (list AccountMeta) :=
  let* collected := collect ixs [] [] in
  let '(programIds, accountMetas) := collected in
  let* pms := programMetas programIds in
  Ok (accountMetas ++ pms).

(** The comparison passed to [sort]: signers first, then writable. *)
Definition compareMetas (x y : AccountMeta) : Z :=
  let checkSigner :=
    if Bool.eqb (isSigner x) (isSigner y) then 0 else if isSigner x then -1 else 1 in
  let checkWritable :=
    if Bool.eqb (isWritable x) (isWritable y) then 0 else if isWritable x then -1 else 1 in
  if checkSigner =? 0 then checkWritable else checkSigner.

Definition sortMetas (accountMetas : list AccountMeta) : list AccountMeta :=
  sort compareMetas accountMetas.

Definition same_address (pubkeyString : string) (x : AccountMeta) : bool :=
  String.eqb (PublicKey_toString (pubkey x)) pubkeyString.

(** One round of the loop that culls duplicates. *)
Definition cullStep (uniqueMetas : list AccountMeta) (accountMeta : AccountMeta)
    : list AccountMeta :=
  let pubkeyString := PublicKey_toString (pubkey accountMeta) in
  match find_index (same_address pubkeyString) uniqueMetas with
  | Some uniqueIndex =>
      modify (fun u => set_isWritable (isWritable u || isWritable accountMeta) u)
             uniqueIndex uniqueMetas
  | None => uniqueMetas ++ [accountMeta]
  end.

Definition cullDuplicates (accountMetas : list AccountMeta) : list AccountMeta :=
  fold_left cullStep accountMetas [].

(** The fee payer goes to the front as a writable signer. *)
Definition moveFeePayer (feePayer : PublicKey) (uniqueMetas : list AccountMeta)
    : list AccountMeta :=
  match find_index (fun x => PublicKey_equals (pubkey x) feePayer) uniqueMetas with
  | Some feePayerIndex =>
      match nth_error uniqueMetas feePayerIndex with
      | Some payerMeta =>
          set_isWritable true (set_isSigner true payerMeta)
          :: remove_at feePayerIndex uniqueMetas
      | None => uniqueMetas
      end
  | None => mkMeta feePayer true true :: uniqueMetas
  end.

(** Every key of the signature list must be in the table; one found
    there as a non-signer is promoted (the source warns). *)
Fixpoint checkSigners (sigs : list SignaturePubkeyPair) (uniqueMetas : list AccountMeta)
    : Result (list AccountMeta) :=
  match sigs with
  | [] => Ok uniqueMetas
  | sg :: r =>
      match publicKey sg with
      | None => Err UndefinedRead
      | Some k =>
          match find_index (fun x => PublicKey_equals (pubkey x) k) uniqueMetas with
          | Some uniqueIndex =>
              checkSigners r (modify (set_isSigner true) uniqueIndex uniqueMetas)
          | None => Err (UnknownSigner (PublicKey_toString k))
          end
      end
  end.

Definition signedKeys (uniqueMetas : list AccountMeta) : list string :=
  map (fun m => PublicKey_toString (pubkey m)) (List.filter isSigner uniqueMetas).

Definition unsignedKeys (uniqueMetas : list AccountMeta) : list string :=
  map (fun m => PublicKey_toString (pubkey m))
      (List.filter (fun m => negb (isSigner m)) uniqueMetas).

Definition count {A} (p : A -> bool) (l : list A) : Z :=
  Z.of_nat (length (List.filter p l)).

Definition headerOf (uniqueMetas : list AccountMeta) : MessageHeader :=
  mkHeader
    (count isSigner uniqueMetas)
    (count (fun m => isSigner m && negb (isWritable m)) uniqueMetas)
    (count (fun m => negb (isSigner m) && negb (isWritable m)) uniqueMetas).

Definition compileInstruction (accountKeys : list string) (ix : TransactionInstruction)
    : Result CompiledInstruction :=
  let* pid := of_option UndefinedRead (programId ix) in
  Ok (mkCompiledInstruction
        (indexOf accountKeys (PublicKey_toString pid))
        (map (fun meta => indexOf accountKeys (PublicKey_toString (pubkey meta))) (keys ix))
        (bs58.encode (data ix))).

Definition assertIndices (ix : CompiledInstruction) : Result unit :=
  if (0 <=? programIdIndex ix) && forallb (fun keyIndex => 0 <=? keyIndex) (accounts ix)
  then Ok tt else Err AssertionFailed.

(** The account table [compileMessage] arrives at: collected, sorted,
    culled, the fee payer in front, the signature keys checked. *)
Definition uniqueMetasOf (tx : t) (feePayer : PublicKey) : Result (list AccountMeta) :=
  let* accountMetas := collectMetas (instructions tx) in
  let accountMetas := sortMetas accountMetas in
  let uniqueMetas := cullDuplicates accountMetas in
  let uniqueMetas := moveFeePayer feePayer uniqueMetas in
  checkSigners (signatures tx) uniqueMetas.

(** [compileMessage] after the nonce step, on the transaction as that
    step left it. *)
Definition compileBody (tx : t) : Result Message.t :=
  let* recentBlockhash :=
    match recentBlockhash tx with
    | Some s => if String.eqb s "" then Err RecentBlockhashRequired else Ok s
    | None => Err RecentBlockhashRequired
    end in
  let* feePayer := chooseFeePayer tx in
  let* _ := checkProgramIds 0 (instructions tx) in
  let* uniqueMetas := uniqueMetasOf tx feePayer in
  let accountKeys := signedKeys uniqueMetas ++ unsignedKeys uniqueMetas in
  let* instructions := mapM (compileInstruction accountKeys) (instructions tx) in
  let* _ := mapM assertIndices instructions in
  Message.new (headerOf uniqueMetas) accountKeys recentBlockhash instructions.

(** [compileMessage()]: the transaction as it is left, and the message
    or the exception. *)
Definition compileMessage (tx : t) : t * Result Message.t :=
  let tx := applyNonce tx in
  (tx, compileBody tx).
End Transaction.

(* ===================================================================== *)
(** ** Properties of the array helpers                                    *)
(* ===================================================================== *)

Lemma find_index_Some {A} (p : A -> bool) l i :
  find_index p l = Some i ->
  exists x, nth_error l i = Some x /\ p x = true /\
            forall j y, (j < i)%nat -> nth_error l j = Some y -> p y = false.
Proof.
  revert i. induction l as [|a r IH]; intros i; simpl; [discriminate|].
  destruct (p a) eqn:E.
  - intros [= <-]. exists a. split; [reflexivity|]. split; [exact E|]. intros j y Hj. lia.
  - destruct (find_index p r) as [k|]; simpl; [|discriminate].
    intros [= <-]. destruct (IH k eq_refl) as (x & Hx & Hpx & Hbefore).
    exists x. split; [exact Hx|]. split; [exact Hpx|].
    intros [|j] y Hj; simpl.
    + intros [= <-]. exact E.
    + apply Hbefore. lia.
Qed.

Lemma find_index_None {A} (p : A -> bool) l :
  find_index p l = None <-> (forall x, In x l -> p x = false).
Proof.
  induction l as [|a r IH]; simpl.
  - split; [intros _ x [] | reflexivity].
  - destruct (p a) eqn:E.
    + split; [discriminate|]. intros H. rewrite (H a) in E by (left; reflexivity).
      discriminate.
    + destruct (find_index p r) as [k|]; simpl.
      * split; [discriminate|]. intros H.
        assert (Some k = None) as Hk by (apply IH; intros x Hx; apply H; right; exact Hx).
        discriminate.
      * split; [|reflexivity]. intros _ x [<-|Hx]; [exact E|].
        apply (proj1 IH eq_refl). exact Hx.
Qed.

Lemma find_index_lt {A} (p : A -> bool) l i :
  find_index p l = Some i -> (i < length l)%nat.
Proof.
  intros H. apply find_index_Some in H as (x & Hx & _).
  apply nth_error_Some. congruence.
Qed.

Lemma findIndex_range {A} (p : A -> bool) l :
  -1 <= findIndex p l < Z.of_nat (length l).
Proof.
  unfold findIndex. destruct (find_index p l) as [i|] eqn:E; [|lia].
  apply find_index_lt in E. lia.
Qed.

Lemma length_modify {A} (f : A -> A) i l : length (modify f i l) = length l.
Proof.
  revert i. induction l as [|x r IH]; intros [|i]; simpl; try reflexivity.
  rewrite IH. reflexivity.
Qed.

Lemma map_modify {A C} (g : A -> C) (f : A -> A) i l :
  (forall x, g (f x) = g x) -> map g (modify f i l) = map g l.
Proof.
  intros Hg. revert i. induction l as [|x r IH]; intros [|i]; simpl; try reflexivity.
  - rewrite Hg. reflexivity.
  - rewrite IH. reflexivity.
Qed.

Lemma In_modify {A} (f : A -> A) i l y :
  In y (modify f i l) -> exists x, In x l /\ (y = x \/ (y = f x /\ nth_error l i = Some x)).
Proof.
  revert i. induction l as [|a r IH]; intros [|i]; simpl; try tauto.
  - intros [<-|Hy]; [exists a | exists y]; eauto.
  - intros [<-|Hy]; [exists a; eauto|].
    destruct (IH i Hy) as (x & Hx & Hc). exists x. split; [right; exact Hx | exact Hc].
Qed.

Lemma In_modify_at {A} (f : A -> A) i l x :
  nth_error l i = Some x -> In (f x) (modify f i l).
Proof.
  revert i. induction l as [|a r IH]; intros [|i]; simpl; try discriminate.
  - intros [= ->]. left. reflexivity.
  - intros H. right. apply IH. exact H.
Qed.

Lemma In_modify_other {A} (f : A -> A) i l y :
  In y l -> nth_error l i <> Some y -> In y (modify f i l).
Proof.
  revert i. induction l as [|a r IH]; intros [|i]; simpl; try tauto.
  - intros [->|Hy] Hne; [congruence | right; exact Hy].
  - intros [->|Hy] Hne; [left; reflexivity | right; apply IH; assumption].
Qed.

Lemma insert_sorted_perm {A} (cmp : A -> A -> Z) x l :
  Permutation (insert_sorted cmp x l) (x :: l).
Proof.
  induction l as [|y r IH]; simpl; [reflexivity|].
  destruct (cmp x y <=? 0); [reflexivity|].
  rewrite IH. apply perm_swap.
Qed.

Lemma sort_perm {A} (cmp : A -> A -> Z) l : Permutation (sort cmp l) l.
Proof.
  induction l as [|x r IH]; simpl; [reflexivity|].
  rewrite insert_sorted_perm. apply perm_skip. exact IH.
Qed.

Lemma existsb_perm {A} (p : A -> bool) l l' :
  Permutation l l' -> existsb p l = existsb p l'.
Proof.
  induction 1 as [|x l l' _ IH|x y l|l l' l'' _ IH1 _ IH2]; simpl.
  - reflexivity.
  - rewrite IH. reflexivity.
  - destruct (p x), (p y); reflexivity.
  - congruence.
Qed.

Lemma existsb_false {A} (p : A -> bool) l :
  (forall x, In x l -> p x = false) -> existsb p l = false.
Proof.
  intros H. induction l as [|x r IH]; simpl; [reflexivity|].
  rewrite (H x) by (left; reflexivity). apply IH. intros y Hy. apply H. right. exact Hy.
Qed.

Lemma existsb_true {A} (p : A -> bool) l x :
  In x l -> p x = true -> existsb p l = true.
Proof. intros Hx Hp. apply existsb_exists. exists x. split; assumption. Qed.

Lemma NoDup_snoc {A} (l : list A) (a : A) :
  List.NoDup l -> ~ In a l -> List.NoDup (l ++ [a]).
Proof.
  intros Hl Ha. apply (Permutation_NoDup (l := a :: l)).
  - apply Permutation_cons_append.
  - constructor; assumption.
Qed.

(* ===================================================================== *)
(** ** The cull of duplicate account metas                                *)
(* ===================================================================== *)

Section Cull.
Import Transaction.

(** The text the source compares metas by. *)
Definition address (m : AccountMeta) : string := PublicKey_toString (pubkey m).

(** The OR of a flag over the metas of [l] with address [a]. *)
Definition anyFlag (flag : AccountMeta -> bool) (a : string) (l : list AccountMeta) : bool :=
  existsb (fun m => String.eqb (address m) a && flag m) l.

(** No signer stands behind a non-signer. *)
Fixpoint signersFirst (l : list AccountMeta) : Prop :=
  match l with
  | [] => True
  | x :: r => (isSigner x = false -> Forall (fun y => isSigner y = false) r)
              /\ signersFirst r
  end.

Lemma compareMetas_le_signer x y :
  compareMetas x y <= 0 -> isSigner x = false -> isSigner y = false.
Proof.
  unfold compareMetas. intros H Hx. rewrite Hx in H.
  destruct (isSigner y); [|reflexivity]. simpl in H. lia.
Qed.

Lemma compareMetas_gt_signer x y :
  0 < compareMetas x y -> isSigner y = false -> isSigner x = false.
Proof.
  unfold compareMetas. intros H Hy. rewrite Hy in H.
  destruct (isSigner x); [|reflexivity]. simpl in H. lia.
Qed.

Lemma insert_signersFirst x l :
  signersFirst l -> signersFirst (insert_sorted compareMetas x l).
Proof.
  induction l as [|y r IH]; simpl.
  - intros _. split; [intros _; constructor | exact I].
  - intros [Hy Hr]. destruct (Z.leb_spec (compareMetas x y) 0) as [Hle|Hgt].
    + split; [|split; assumption].
      intros Hx. pose proof (compareMetas_le_signer x y Hle Hx) as Hy'.
      constructor; [exact Hy' | apply Hy; exact Hy'].
    + simpl. split; [|apply IH; exact Hr].
      intros Hy'. eapply Permutation_Forall.
      * symmetry. apply insert_sorted_perm.
      * constructor; [eapply compareMetas_gt_signer; eassumption | apply Hy; exact Hy'].
Qed.

Lemma sortMetas_signersFirst l : signersFirst (sortMetas l).
Proof.
  unfold sortMetas, sort. induction l as [|x r IH]; simpl; [exact I|].
  apply insert_signersFirst. exact IH.
Qed.

Lemma signersFirst_prefix l1 l2 : signersFirst (l1 ++ l2) -> signersFirst l1.
Proof.
  induction l1 as [|x r IH]; simpl; [intros _; exact I|].
  intros [Hx Hr]. split; [|apply IH; exact Hr].
  intros Hns. specialize (Hx Hns). apply List.Forall_app in Hx. apply Hx.
Qed.

Lemma signersFirst_before_signer l x m :
  signersFirst (l ++ [x]) -> isSigner x = true -> In m l -> isSigner m = true.
Proof.
  induction l as [|y r IH]; simpl; [tauto|].
  intros [Hy Hr] Hx [->|Hm]; [|apply IH; assumption].
  destruct (isSigner m) eqn:E; [reflexivity|].
  specialize (Hy eq_refl). apply List.Forall_app in Hy as [_ Hy].
  inversion Hy; subst. congruence.
Qed.

Lemma anyFlag_snoc flag a l x :
  anyFlag flag a (l ++ [x]) = anyFlag flag a l || (String.eqb (address x) a && flag x).
Proof. unfold anyFlag. rewrite existsb_app. simpl. rewrite orb_false_r. reflexivity. Qed.

(** What holds of the unique metas once the metas [seen] went through
    the loop. *)
Definition cull_inv (seen uniqueMetas : list AccountMeta) : Prop :=
  List.NoDup (map address uniqueMetas) /\
  (forall u, In u uniqueMetas ->
     isSigner u = anyFlag isSigner (address u) seen /\
     isWritable u = anyFlag isWritable (address u) seen /\
     exists m, In m seen /\ address m = address u) /\
  (forall m, In m seen -> exists u, In u uniqueMetas /\ address u = address m).

Lemma modify_as_map (f : AccountMeta -> AccountMeta) a l i :
  List.NoDup (map address l) ->
  find_index (same_address a) l = Some i ->
  modify f i l = map (fun u => if same_address a u then f u else u) l.
Proof.
  revert i. induction l as [|u r IH]; intros i Hnd; simpl; [discriminate|].
  inversion Hnd as [|? ? Hnotin Hnd']; subst.
  destruct (same_address a u) eqn:E.
  - intros [= <-]. simpl. f_equal.
    rewrite <- (map_id r) at 1. apply map_ext_in. intros v Hv.
    destruct (same_address a v) eqn:Ev; [|reflexivity].
    exfalso. apply Hnotin. unfold same_address in E, Ev.
    apply String.eqb_eq in E, Ev. fold (address u) in E. fold (address v) in Ev.
    rewrite E, <- Ev. apply in_map. exact Hv.
  - destruct (find_index (same_address a) r) as [j|]; simpl; [|discriminate].
    intros [= <-]. simpl. f_equal. apply IH; [exact Hnd' | reflexivity].
Qed.

Lemma cull_step seen uniqueMetas x :
  signersFirst (seen ++ [x]) ->
  cull_inv seen uniqueMetas ->
  cull_inv (seen ++ [x]) (cullStep uniqueMetas x).
Proof.
  intros Hsf (Hnd & Hflags & Hcover). unfold cullStep.
  fold (address x).
  destruct (find_index (same_address (address x)) uniqueMetas) as [i|] eqn:E.
  - rewrite (modify_as_map _ _ _ _ Hnd E).
    apply find_index_Some in E as (ui & Hnth & Hui & _).
    set (f := fun u => set_isWritable (isWritable u || isWritable x) u).
    set (g := fun u => if same_address (address x) u then f u else u).
    assert (Hg : forall u, address (g u) = address u).
    { intros u. unfold g. destruct (same_address (address x) u); reflexivity. }
    split; [|split].
    + rewrite map_map. rewrite (map_ext _ address) by exact Hg. exact Hnd.
    + intros u' Hu'. apply in_map_iff in Hu' as (u & <- & Hu).
      destruct (Hflags u Hu) as (HS & HW & m & Hm & Hma).
      assert (Hin : In m (seen ++ [x])) by (apply in_or_app; left; exact Hm).
      destruct (same_address (address x) u) eqn:Eu;
        unfold same_address in Eu; fold (address u) in Eu.
      * apply String.eqb_eq in Eu.
        change (address (set_isWritable (isWritable u || isWritable x) u))
          with (address u).
        rewrite !anyFlag_snoc, Eu, String.eqb_refl. simpl.
        split; [|split; [rewrite HW, Eu; reflexivity | exists m; rewrite <- Eu; auto]].
        rewrite HS, Eu.
        destruct (isSigner x) eqn:Ex; [|rewrite orb_false_r; reflexivity].
        rewrite orb_true_r. unfold anyFlag. apply existsb_true with m; [exact Hm|].
        rewrite Hma, Eu, String.eqb_refl. simpl.
        eapply signersFirst_before_signer; eassumption.
      * rewrite String.eqb_sym in Eu. rewrite !anyFlag_snoc, Eu. simpl.
        rewrite !orb_false_r. eauto.
    + intros m Hm. apply in_app_or in Hm as [Hm|[<-|[]]].
      * destruct (Hcover m Hm) as (u & Hu & Hua). exists (g u).
        split; [apply in_map; exact Hu | rewrite Hg; exact Hua].
      * apply nth_error_In in Hnth. exists (g ui).
        split; [apply in_map; exact Hnth|]. rewrite Hg.
        unfold same_address in Hui. apply String.eqb_eq in Hui. exact Hui.
  - pose proof (proj1 (find_index_None _ _) E) as Hnone.
    assert (Hfresh : forall m, In m seen -> String.eqb (address m) (address x) = false).
    { intros m Hm. destruct (Hcover m Hm) as (u & Hu & Hua).
      rewrite <- Hua. apply (Hnone u Hu). }
    split; [|split].
    + rewrite map_app. simpl. apply NoDup_snoc; [exact Hnd|].
      intros Hin. apply in_map_iff in Hin as (u & Hua & Hu).
      specialize (Hnone u Hu). unfold same_address in Hnone.
      fold (address u) in Hnone. rewrite Hua, String.eqb_refl in Hnone. discriminate.
    + intros u Hu. rewrite !anyFlag_snoc. apply in_app_or in Hu as [Hu|[<-|[]]].
      * destruct (Hflags u Hu) as (HS & HW & m & Hm & Hma).
        specialize (Hnone u Hu). unfold same_address in Hnone. fold (address u) in Hnone.
        rewrite String.eqb_sym in Hnone. rewrite Hnone. simpl. rewrite !orb_false_r.
        split; [exact HS|]. split; [exact HW|].
        exists m. split; [apply in_or_app; left; exact Hm | exact Hma].
      * rewrite String.eqb_refl. simpl. unfold anyFlag.
        rewrite !existsb_false.
        -- split; [reflexivity|]. split; [reflexivity|].
           exists x. split; [apply in_or_app; right; left; reflexivity | reflexivity].
        -- intros m Hm. rewrite (Hfresh m Hm). reflexivity.
        -- intros m Hm. rewrite (Hfresh m Hm). reflexivity.
    + intros m Hm. apply in_app_or in Hm as [Hm|[<-|[]]].
      * destruct (Hcover m Hm) as (u & Hu & Hua). exists u.
        split; [apply in_or_app; left; exact Hu | exact Hua].
      * exists x. split; [apply in_or_app; right; left; reflexivity | reflexivity].
Qed.

Lemma cull_fold rest : forall seen uniqueMetas,
  signersFirst (seen ++ rest) ->
  cull_inv seen uniqueMetas ->
  cull_inv (seen ++ rest) (fold_left cullStep rest uniqueMetas).
Proof.
  induction rest as [|x r IH]; intros seen um Hsf Hinv; simpl.
  - rewrite app_nil_r. exact Hinv.
  - replace (seen ++ x :: r) with ((seen ++ [x]) ++ r) in * by (rewrite <- app_assoc; reflexivity).
    apply IH; [exact Hsf|]. apply cull_step; [|exact Hinv].
    eapply signersFirst_prefix. exact Hsf.
Qed.

Lemma cull_inv_sorted l : signersFirst l -> cull_inv l (cullDuplicates l).
Proof.
  intros Hsf. apply (cull_fold l [] []); [exact Hsf|].
  split; [constructor|]. split; intros ? [].
Qed.
End Cull.

(* ===================================================================== *)
(** ** The wire form of a message read back                               *)
(* ===================================================================== *)

Ltac inv_bind H :=
  let a := fresh "v" in
  let E := fresh "E" in
  apply bind_Ok in H as (a & E & H).

Ltac inv_bind_as H a E := apply bind_Ok in H as (a & E & H).

Lemma of_option_Ok {A} e (o : option A) a : of_option e o = Ok a -> o = Some a.
Proof. destruct o; simpl; congruence. Qed.

Lemma byte_to_Z_of_Z z : 0 <= z <= 255 -> byte_to_Z (byte_of_Z z) = z.
Proof.
  intros Hz. unfold byte_to_Z, byte_of_Z. rewrite Z.mod_small by lia.
  rewrite to_N_byte_of_N by lia. lia.
Qed.

Lemma map_byte_to_Z_of_Z l :
  Forall (fun z => 0 <= z <= 255) l -> map byte_to_Z (map byte_of_Z l) = l.
Proof.
  induction 1 as [|z r Hz _ IH]; simpl; [reflexivity|].
  rewrite byte_to_Z_of_Z, IH by assumption. reflexivity.
Qed.

Lemma slice_to_app {A} (a b : list A) : slice_to (a ++ b) (Z.of_nat (length a)) = a.
Proof.
  unfold slice_to. destruct (Z.ltb_spec (Z.of_nat (length a)) 0); [lia|].
  rewrite Nat2Z.id, firstn_app, Nat.sub_diag, firstn_all. simpl. apply app_nil_r.
Qed.

Lemma slice_from_app {A} (a b : list A) : slice_from (a ++ b) (Z.of_nat (length a)) = b.
Proof.
  unfold slice_from. destruct (Z.ltb_spec (Z.of_nat (length a)) 0); [lia|].
  rewrite Nat2Z.id, skipn_app, Nat.sub_diag, skipn_all. reflexivity.
Qed.

Lemma put_Ok cap acc src out :
  put cap acc src = Ok out -> out = acc ++ src /\ (length out <= cap)%nat.
Proof.
  unfold put. destruct (Nat.ltb_spec cap (length acc + length src)); [discriminate|].
  intros [= <-]. rewrite length_app. split; [reflexivity | lia].
Qed.

Lemma put_blob_Ok cap span acc src out :
  put_blob cap span acc src = Ok out ->
  out = acc ++ src /\ length src = span /\ (length out <= cap)%nat.
Proof.
  unfold put_blob. destruct (Nat.eqb_spec (length src) span); simpl; [|discriminate].
  intros H. apply put_Ok in H as [-> Hl]. auto.
Qed.

Lemma put_u8_Ok cap acc v out :
  put_u8 cap acc v = Ok out ->
  out = acc ++ [byte_of_Z v] /\ 0 <= v <= 255 /\ (length out <= cap)%nat.
Proof.
  unfold put_u8.
  destruct (Z.leb_spec 0 v) as [H0|H0]; simpl; [|discriminate].
  destruct (Z.leb_spec v 255) as [H1|H1]; simpl; [|discriminate].
  intros H. apply put_Ok in H as [-> Hl]. split; [reflexivity|]. split; [lia | exact Hl].
Qed.

Module MessageFacts.
Import Message.

(** The bytes one instruction takes in the instruction buffer. *)
Definition ibytes (p : Prepared) : list byte :=
  [byte_of_Z (p_programIdIndex p)] ++ p_keyIndicesCount p ++ p_keyIndices p
  ++ p_dataLength p ++ p_data p.

Lemma put_instruction_Ok acc p out :
  put_instruction acc p = Ok out ->
  out = acc ++ ibytes p /\ 0 <= p_programIdIndex p <= 255
  /\ (length out <= PACKET_DATA_SIZE)%nat.
Proof.
  unfold put_instruction. intros H.
  inv_bind H. apply put_u8_Ok in E as (-> & Hv & _).
  inv_bind H. apply put_Ok in E as (-> & _).
  inv_bind H. apply put_Ok in E as (-> & _).
  inv_bind H. apply put_Ok in E as (-> & _).
  apply put_Ok in H as (-> & Hl).
  split; [|split; assumption].
  unfold ibytes. rewrite <- !app_assoc. reflexivity.
Qed.

Lemma put_instructions_Ok ps : forall acc out,
  put_instructions acc ps = Ok out ->
  out = acc ++ concat (map ibytes ps)
  /\ Forall (fun p => 0 <= p_programIdIndex p <= 255) ps
  /\ ((length acc <= PACKET_DATA_SIZE)%nat -> (length out <= PACKET_DATA_SIZE)%nat)
  /\ (length acc + length ps <= length out)%nat.
Proof.
  induction ps as [|p r IH]; intros acc out; simpl.
  - intros [= <-]. rewrite app_nil_r. repeat split; auto; lia.
  - intros H. inv_bind H. apply put_instruction_Ok in E as (-> & Hv & Hl).
    apply IH in H as (-> & Hr & Hcap & Hlen).
    rewrite <- app_assoc in *. split; [reflexivity|]. split; [constructor; assumption|].
    split; [intros _; apply Hcap; exact Hl|].
    assert (1 <= length (ibytes p))%nat
      by (unfold ibytes; rewrite length_app; simpl; lia).
    rewrite !length_app in *. lia.
Qed.

Lemma put_keys_Ok cap keys : forall acc out,
  put_keys cap acc keys = Ok out ->
  out = acc ++ concat keys
  /\ Forall (fun k => length k = PUBKEY_LENGTH) keys
  /\ ((length acc <= cap)%nat -> (length out <= cap)%nat).
Proof.
  induction keys as [|k r IH]; intros acc out; simpl.
  - intros [= <-]. rewrite app_nil_r. auto.
  - intros H. inv_bind H. apply put_blob_Ok in E as (-> & Hk & Hl).
    apply IH in H as (-> & Hr & Hcap).
    rewrite <- app_assoc in *. split; [reflexivity|]. split; [constructor; assumption|].
    intros _. apply Hcap. exact Hl.
Qed.

Lemma read_keys_concat keys : forall rest,
  Forall (fun k => length k = PUBKEY_LENGTH) keys ->
  read_keys (length keys) (concat keys ++ rest) = (map bs58.encode keys, rest).
Proof.
  induction keys as [|k r IH]; intros rest Hk; [reflexivity|].
  inversion Hk as [|? ? Hk1 Hk2]; subst.
  cbn [length read_keys concat map]. rewrite <- app_assoc, <- Hk1.
  rewrite slice_to_app, slice_from_app, IH by exact Hk2. reflexivity.
Qed.

(** What [serialize] needs of an instruction to write it without loss. *)
Definition instruction_fits (ix : CompiledInstruction) : Prop :=
  Forall (fun a => 0 <= a <= 255) (accounts ix)
  /\ Z.of_nat (length (accounts ix)) < 2 ^ 31.

Lemma prepare_Ok ix p :
  prepare ix = Ok p ->
  exists data,
    bs58.decode (cdata ix) = Some data /\
    encodeLength (Z.of_nat (length (accounts ix))) = Ok (p_keyIndicesCount p) /\
    encodeLength (Z.of_nat (length data)) = Ok (p_dataLength p) /\
    p_programIdIndex p = programIdIndex ix /\
    p_keyIndices p = map byte_of_Z (accounts ix) /\
    p_data p = data.
Proof.
  unfold prepare. intros H.
  inv_bind H. apply of_option_Ok in E.
  inv_bind H. inv_bind H. injection H as <-. simpl. eauto 10.
Qed.

Lemma decode_after_encode n bs rest :
  0 <= n < 2 ^ 31 -> encodeLength n = Ok bs -> decodeLength (bs ++ rest) = (n, rest).
Proof.
  intros Hn Hbs. destruct (decodeLength_encodeLength n Hn) as (bs' & Hbs' & _ & Hd).
  rewrite Hbs in Hbs'. injection Hbs' as <-. apply Hd.
Qed.

Lemma read_instructions_concat ixs : forall ps rest,
  mapM prepare ixs = Ok ps ->
  Forall instruction_fits ixs ->
  Forall (fun p => 0 <= p_programIdIndex p <= 255
                   /\ Z.of_nat (length (p_data p)) < 2 ^ 31) ps ->
  read_instructions (length ixs) (concat (map ibytes ps) ++ rest) = Ok ixs.
Proof.
  induction ixs as [|ix r IH]; intros ps rest Hps Hfit Hpid.
  - reflexivity.
  - simpl in Hps. inv_bind Hps. inv_bind Hps. injection Hps as <-.
    inversion Hfit as [|? ? [Hacc Hlen] Hfit']; subst.
    inversion Hpid as [|? ? [Hp Hdl] Hpid']; subst.
    apply prepare_Ok in E as (data & Hdata & Hkc & Hdc & Hpi & Hki & Hpd).
    pose proof (fun rest => decode_after_encode _ _ rest
                  (conj (Nat2Z.is_nonneg _) Hlen) Hkc) as Dk.
    rewrite <- Hpd in Hdc.
    pose proof (fun rest => decode_after_encode _ _ rest
                  (conj (Nat2Z.is_nonneg _) Hdl) Hdc) as Dd.
    cbn [length read_instructions map concat].
    unfold ibytes at 1. rewrite <- !app_assoc. cbn [app shift of_option bind].
    rewrite Dk, Hki.
    replace (Z.of_nat (length (accounts ix)))
      with (Z.of_nat (length (map byte_of_Z (accounts ix))))
      by (rewrite length_map; reflexivity).
    rewrite slice_to_app, slice_from_app, Dd.
    rewrite slice_to_app, slice_from_app.
    rewrite (IH _ _ E0 Hfit' Hpid'). cbn [bind].
    rewrite byte_to_Z_of_Z by lia. rewrite map_byte_to_Z_of_Z by exact Hacc.
    rewrite Hpd, (bs58.encode_decode _ _ Hdata), Hpi.
    destruct ix; reflexivity.
Qed.
End MessageFacts.

(** A message whose counts and indices refer to its own key table. *)
Definition Message_wf (m : Message.t) : Prop :=
  let n := Z.of_nat (length (Message.accountKeys m)) in
  let h := Message.header m in
  Forall PublicKey_wf (Message.accountKeys m)
  /\ 0 <= numRequiredSignatures h <= n
  /\ 0 <= numReadonlySignedAccounts h <= n
  /\ 0 <= numReadonlyUnsignedAccounts h <= n
  /\ Forall (fun ix => 0 <= programIdIndex ix < n
                       /\ Forall (fun a => 0 <= a < n) (accounts ix))
            (Message.instructions m).

Lemma length_concat_fixed {A} (ls : list (list A)) (k : nat) :
  Forall (fun l => length l = k) ls -> length (concat ls) = (k * length ls)%nat.
Proof.
  induction 1 as [|l r Hl _ IH]; simpl; [lia|].
  rewrite length_app, IH, Hl. lia.
Qed.

Lemma length_concat_In {A} (ls : list (list A)) l :
  In l ls -> (length l <= length (concat ls))%nat.
Proof.
  induction ls as [|a r IH]; simpl; [tauto|].
  rewrite length_app. intros [->|H]; [lia|]. specialize (IH H). lia.
Qed.

Lemma mapM_map_id {A C} (f : C -> Result A) (g : A -> C) l :
  Forall (fun x => f (g x) = Ok x) l -> mapM f (map g l) = Ok l.
Proof.
  induction 1 as [|x r Hx _ IH]; simpl; [reflexivity|].
  rewrite Hx, IH. reflexivity.
Qed.

Lemma mapM_Forall2 {A C} (f : A -> Result C) l : forall ys,
  mapM f l = Ok ys -> Forall2 (fun x y => f x = Ok y) l ys.
Proof.
  induction l as [|x r IH]; simpl; intros ys.
  - intros [= <-]. constructor.
  - intros H. inv_bind H. inv_bind H. injection H as <-.
    constructor; [exact E | apply IH; exact E0].
Qed.

(** A well-formed message whose two sections fit the 2048 bytes of the
    sign-data buffer is serialized in full and read back unchanged. *)
Lemma Message_roundtrip_wf m signData instructionBuffer :
  Message_wf m ->
  Message.sections m = Ok (signData, instructionBuffer) ->
  (length (signData ++ instructionBuffer) <= 2048)%nat ->
  Message.serialize m = Ok (signData ++ instructionBuffer)
  /\ Message.from (signData ++ instructionBuffer) = Ok m.
Proof.
  intros (Hkeys & Hn1 & Hn2 & Hn3 & Hixs) Hsec Hfit.
  assert (Hib2048 : (length instructionBuffer <= 2048)%nat)
    by (rewrite length_app in Hfit; lia).
  split.
  { unfold Message.serialize. rewrite Hsec. simpl. rewrite firstn_all2 by exact Hfit.
    reflexivity. }
  unfold Message.sections in Hsec.
  inv_bind Hsec. rename v into keyCount, E into EkeyCount.
  inv_bind Hsec. rename v into prepared, E into Eprep.
  inv_bind Hsec. rename v into instructionCount, E into Ecount.
  inv_bind Hsec. rename v into ib, E into Eib.
  inv_bind Hsec. rename v into blockhash, E into Ebh. apply of_option_Ok in Ebh.
  inv_bind Hsec. apply put_Ok in E as [-> _].
  inv_bind Hsec. apply MessageFacts.put_keys_Ok in E as (-> & Hk32 & _).
  inv_bind Hsec. apply put_blob_Ok in E as (-> & Hbh32 & Hsd).
  injection Hsec as <- <-.
  set (keys := Message.accountKeys m) in *.
  (* sizes *)
  assert (HnumKeys : (length keys <= 64)%nat).
  { rewrite !length_app, (length_concat_fixed _ _ Hk32), length_map in Hsd.
    unfold PUBKEY_LENGTH in Hsd. lia. }
  apply MessageFacts.put_instructions_Ok in Eib as (-> & Hpid & Hcap & Hcount).
  destruct (decodeLength_encodeLength (Z.of_nat (length prepared))) as (ic & Hic & Hiclen & _).
  { split; [lia|]. change (2 ^ 31) with 2147483648. lia. }
  rewrite Ecount in Hic. injection Hic as <-.
  assert (Hib : (length (instructionCount ++ concat (map MessageFacts.ibytes prepared))
                 <= PACKET_DATA_SIZE)%nat)
    by (apply Hcap; unfold PACKET_DATA_SIZE; simpl; lia).
  assert (Hpsize : forall p, In p prepared ->
            (length (MessageFacts.ibytes p) <= 1232)%nat).
  { intros p Hp. rewrite length_app in Hib.
    pose proof (length_concat_In (map MessageFacts.ibytes prepared) _
                  (in_map MessageFacts.ibytes _ _ Hp)) as Hle.
    change PACKET_DATA_SIZE with 1232%nat in Hib. lia. }
  pose proof (mapM_Forall2 _ _ _ Eprep) as Hprep2.
  pose proof (mapM_Ok_length _ _ _ Eprep) as Hpreplen.
  (* reading *)
  assert (Bk : 0 <= Z.of_nat (length keys) < 2 ^ 31)
    by (change (2 ^ 31) with 2147483648; lia).
  assert (Bp : 0 <= Z.of_nat (length prepared) < 2 ^ 31)
    by (change (2 ^ 31) with 2147483648; lia).
  unfold Message.from. rewrite <- !app_assoc. cbn [app shift]. rewrite <- !app_assoc.
  rewrite (MessageFacts.decode_after_encode _ _ _ Bk EkeyCount).
  rewrite Nat2Z.id.
  replace (length keys) with (length (map PublicKey_toBytes keys))
    by apply length_map.
  rewrite (MessageFacts.read_keys_concat _ _ Hk32).
  rewrite <- Hbh32.
  rewrite slice_to_app, slice_from_app.
  rewrite (MessageFacts.decode_after_encode _ _ _ Bp Ecount).
  rewrite Nat2Z.id, Hpreplen.
  rewrite <- (app_nil_r (concat _)).
  rewrite (MessageFacts.read_instructions_concat _ _ _ Eprep).
  - cbn [bind of_option].
    rewrite !byte_to_Z_of_Z by lia.
    unfold Message.new. rewrite map_map.
    rewrite mapM_map_id.
    + cbn [bind]. rewrite (bs58.encode_decode _ _ Ebh).
      destruct m as [[? ? ?] ? ? ?]; reflexivity.
    + apply List.Forall_forall. intros k Hk. rewrite List.Forall_forall in Hkeys.
      apply PublicKey_of_string_toString. apply Hkeys. exact Hk.
  - (* every instruction can be written without loss *)
    clear - Hixs Hprep2 Hpsize HnumKeys.
    induction Hprep2 as [|ix p ixs ps Hp _ IH]; [constructor|].
    inversion Hixs as [|? ? [_ Hacc] Hixs']; subst.
    constructor; [|apply IH; [exact Hixs' | intros q Hq; apply Hpsize; right; exact Hq]].
    apply MessageFacts.prepare_Ok in Hp as (data & _ & _ & _ & _ & Hki & _).
    specialize (Hpsize p (or_introl eq_refl)).
    unfold MessageFacts.ibytes in Hpsize. rewrite !length_app, Hki, length_map in Hpsize.
    split.
    + eapply List.Forall_impl; [|exact Hacc]. simpl. intros a Ha. lia.
    + change (2 ^ 31) with 2147483648. lia.
  - clear - Hpid Hpsize.
    apply List.Forall_forall. intros p Hp. rewrite List.Forall_forall in Hpid.
    split; [apply Hpid; exact Hp|].
    specialize (Hpsize p Hp).
    unfold MessageFacts.ibytes in Hpsize. rewrite !length_app in Hpsize.
    change (2 ^ 31) with 2147483648. lia.
Qed.

(* ===================================================================== *)
(** ** Every compiled message is well formed                              *)
(* ===================================================================== *)

Lemma length_filter_le {A} (p : A -> bool) l : (length (List.filter p l) <= length l)%nat.
Proof. induction l as [|x r IH]; simpl; [lia|]. destruct (p x); simpl; lia. Qed.

Lemma length_filter_partition {A} (p : A -> bool) l :
  (length (List.filter p l) + length (List.filter (fun x => negb (p x)) l) = length l)%nat.
Proof. induction l as [|x r IH]; simpl; [lia|]. destruct (p x); simpl; lia. Qed.

Lemma mapM_Ok_each {A C} (f : A -> Result C) l ys :
  mapM f l = Ok ys -> Forall (fun x => exists y, f x = Ok y) l.
Proof.
  intros H. apply mapM_Forall2 in H.
  induction H as [|x y l' ys' Hxy _ IH]; constructor; eauto.
Qed.

Module TransactionFacts.
Import Transaction.

Lemma length_accountKeys uniqueMetas :
  length (signedKeys uniqueMetas ++ unsignedKeys uniqueMetas) = length uniqueMetas.
Proof.
  unfold signedKeys, unsignedKeys. rewrite length_app, !length_map.
  apply length_filter_partition.
Qed.

Lemma count_range {A} (p : A -> bool) l : 0 <= count p l <= Z.of_nat (length l).
Proof. unfold count. pose proof (length_filter_le p l). lia. Qed.

Lemma compileInstruction_assert accountKeys ix c :
  compileInstruction accountKeys ix = Ok c ->
  assertIndices c = Ok tt ->
  let n := Z.of_nat (length accountKeys) in
  0 <= programIdIndex c < n /\ Forall (fun a => 0 <= a < n) (accounts c).
Proof.
  unfold compileInstruction, assertIndices. intros H Ha.
  inv_bind H. injection H as <-. simpl in *.
  destruct (Z.leb_spec 0 (indexOf accountKeys (PublicKey_toString v))) as [H0|H0];
    simpl in Ha; [|discriminate].
  destruct (forallb _ _) eqn:Hall in Ha; [|discriminate].
  split.
  - pose proof (findIndex_range (fun x => String.eqb x (PublicKey_toString v)) accountKeys).
    unfold indexOf in *. lia.
  - rewrite forallb_forall in Hall. apply List.Forall_forall. intros a Hin.
    specialize (Hall a Hin). apply Z.leb_le in Hall.
    apply in_map_iff in Hin as (meta & <- & _).
    pose proof (findIndex_range
                  (fun x => String.eqb x (PublicKey_toString (pubkey meta))) accountKeys).
    unfold indexOf in *. lia.
Qed.

(** What [compileMessage] returns is well formed. *)
Lemma compileBody_wf tx m : compileBody tx = Ok m -> Message_wf m.
Proof.
  unfold compileBody. intros H.
  inv_bind H. rename v into blockhash. clear E.
  inv_bind H. rename v into payer. clear E.
  inv_bind H. clear E v.
  inv_bind H. rename v into um. clear E.
  inv_bind H. rename v into ixs, E into Eixs.
  inv_bind H. rename E into Eassert, v into asserted.
  unfold Message.new in H. inv_bind H. rename v into ks, E into Eks.
  injection H as <-.
  pose proof (mapM_Ok_length _ _ _ Eks) as Hlen.
  rewrite length_accountKeys in Hlen.
  unfold Message_wf. cbn [Message.accountKeys Message.header Message.instructions headerOf
    numRequiredSignatures numReadonlySignedAccounts numReadonlyUnsignedAccounts].
  rewrite Hlen.
  split; [|split; [apply count_range|split; [apply count_range|split; [apply count_range|]]]].
  - apply mapM_Forall2 in Eks. clear - Eks.
    induction Eks as [|s k ss ks' Hk _ IH]; constructor; [|exact IH].
    eapply PublicKey_of_string_wf. exact Hk.
  - rewrite <- (length_accountKeys um).
    apply mapM_Forall2 in Eixs. apply mapM_Ok_each in Eassert.
    clear - Eixs Eassert.
    induction Eixs as [|ix c l cs Hc _ IH]; [constructor|].
    inversion Eassert as [|? ? [[] Ha] Hrest]; subst.
    constructor; [|apply IH; exact Hrest].
    eapply compileInstruction_assert; eassumption.
Qed.
End TransactionFacts.

(* ===================================================================== *)
(** ** Sample transactions                                                *)
(* ===================================================================== *)

Definition key (n : N) : PublicKey := mkPublicKey n.

Definition sample_blockhash : string := bs58.encode (repeat x07 32).

(** The fee payer 1 calls program 100 with the signer 2 and the account 3,
    which is passed twice: read-only as a signer, writable as a plain
    account. *)
Definition sample_instruction : TransactionInstruction :=
  mkInstruction 0
    [mkMeta (key 2) true false; mkMeta (key 3) true false; mkMeta (key 3) false true]
    (Some (key 100)) [x01; x02; x03].

Definition sample_tx : Transaction.t :=
  Transaction.mk [] (Some (key 1)) [sample_instruction] (Some sample_blockhash) None.

Definition sample_metas : list AccountMeta :=
  [mkMeta (key 2) true false; mkMeta (key 3) true false; mkMeta (key 3) false true;
   mkMeta (key 100) false false].

Definition sample_message : Message.t :=
  Message.mk (mkHeader 3 1 1) [key 1; key 2; key 3; key 100] sample_blockhash
    [mkCompiledInstruction 3 [1; 2; 2] "Ldp"].

Definition sample_sections : list byte * list byte :=
  Eval vm_compute in
    match Message.sections sample_message with
    | Ok s => s
    | Err _ => ([], [])
    end.

Example sample_collect : Transaction.collectMetas [sample_instruction] = Ok sample_metas.
Proof. vm_compute. reflexivity. Qed.

Example sample_compile : snd (Transaction.compileMessage sample_tx) = Ok sample_message.
Proof. vm_compute. reflexivity. Qed.

Example sample_laid_out : Message.sections sample_message = Ok sample_sections.
Proof. vm_compute. reflexivity. Qed.

Example sample_lengths :
  (length (fst sample_sections) = 164 /\ length (snd sample_sections) = 10)%nat.
Proof. vm_compute. split; reflexivity. Qed.

Example encodeLength_300 : encodeLength 300 = Ok [xac; x02].
Proof. vm_compute. reflexivity. Qed.

Example decodeLength_300 : decodeLength [xac; x02; xff] = (300, [xff]).
Proof. vm_compute. reflexivity. Qed.

(** A message of 60 account keys whose only instruction carries 100 bytes:
    1956 bytes of sign data and 162 bytes of instructions. *)
Definition oversized_tx : Transaction.t :=
  Transaction.mk [] (Some (key 1))
    [mkInstruction 0
       (map (fun i => mkMeta (key (N.of_nat i)) false false) (seq 3 58))
       (Some (key 2)) (repeat x01 100)]
    (Some sample_blockhash) None.

Definition first_data_length (r : Result Message.t) : nat :=
  match r with
  | Ok m =>
      match Message.instructions m with
      | ix :: _ => String.length (cdata ix)
      | [] => O
      end
  | Err _ => O
  end.

(* ===================================================================== *)
(** ** C1: the wire form read back                                        *)
(* ===================================================================== *)

(** C1, as stated, fails: the message compiled from [oversized_tx] takes
    2118 bytes, [serialize] returns the first 2048 of them, and [from] on
    those bytes does not give the message back. *)
Lemma oversized_message_not_read_back :
  exists m bytes,
    snd (Transaction.compileMessage oversized_tx) = Ok m
    /\ Message.serialize m = Ok bytes
    /\ length bytes = 2048%nat
    /\ Message.from bytes <> Ok m.
Proof.
  remember (snd (Transaction.compileMessage oversized_tx)) as r eqn:Hr.
  vm_compute in Hr.
  match type of Hr with _ = Ok ?m => exists m end.
  remember (Message.serialize _) as s eqn:Hs in |- *.
  vm_compute in Hs.
  match type of Hs with _ = Ok ?b => exists b end.
  subst. split; [reflexivity|]. split; [reflexivity|]. split; [vm_compute; reflexivity|].
  intros H. apply (f_equal first_data_length) in H. vm_compute in H. discriminate H.
Qed.

(** [serialize] does not return for every compiled message: the layout
    writes throw when the instructions overrun the 1232 bytes of the
    instruction buffer, and when the recent blockhash is not the base-58
    text of 32 bytes. *)
Definition long_data_tx : Transaction.t :=
  Transaction.mk [] (Some (key 1))
    (map (fun i => mkInstruction i [mkMeta (key 2) false true] (Some (key 100))
                     (repeat x01 100))
         (seq 0 13))
    (Some sample_blockhash) None.

Definition short_blockhash_tx : Transaction.t :=
  Transaction.mk [] (Some (key 1))
    [mkInstruction 0 [mkMeta (key 2) false true] (Some (key 100)) [x01]]
    (Some "abc"%string) None.

Definition serialized (tx : Transaction.t) : Result (list byte) :=
  let* m := snd (Transaction.compileMessage tx) in Message.serialize m.

Definition compiles (tx : Transaction.t) : bool :=
  match snd (Transaction.compileMessage tx) with
  | Ok _ => true
  | Err _ => false
  end.

Example serialize_throws :
  compiles long_data_tx = true /\ serialized long_data_tx = Err LayoutRangeError
  /\ compiles short_blockhash_tx = true
  /\ serialized short_blockhash_tx = Err LayoutTypeError.
Proof. vm_compute. repeat split; reflexivity. Qed.

(** A cut does not always show: the message compiled from [trailing_tx]
    takes 2049 bytes and ends with the length byte of an empty payload;
    [from] reads the missing byte as 0 and gives the message back. *)
Definition trailing_tx : Transaction.t :=
  Transaction.mk [] (Some (key 1))
    [mkInstruction 0
       (map (fun i => mkMeta (key (N.of_nat i)) false false) (seq 3 58)
        ++ repeat (mkMeta (key 3) false false) 31)
       (Some (key 2)) []]
    (Some sample_blockhash) None.

Definition read_back (tx : Transaction.t) : option (nat * bool) :=
  match snd (Transaction.compileMessage tx) with
  | Ok m =>
      match Message.sections m, Message.serialize m with
      | Ok (signData, instructionBuffer), Ok bytes =>
          match Message.from bytes with
          | Ok m' =>
              Some ((length signData + length instructionBuffer)%nat,
                    (length bytes =? 2048)%nat
                    && (length (Message.accountKeys m') =? length (Message.accountKeys m))%nat
                    && forallb (fun p => PublicKey_equals (fst p) (snd p))
                         (combine (Message.accountKeys m') (Message.accountKeys m))
                    && String.eqb (Message.recentBlockhash m') (Message.recentBlockhash m)
                    && (length (Message.instructions m') =? length (Message.instructions m))%nat
                    && forallb (fun p =>
                                  (programIdIndex (fst p) =? programIdIndex (snd p))
                                  && (length (accounts (fst p)) =? length (accounts (snd p)))%nat
                                  && forallb (fun q => fst q =? snd q)
                                       (combine (accounts (fst p)) (accounts (snd p)))
                                  && String.eqb (cdata (fst p)) (cdata (snd p)))
                         (combine (Message.instructions m') (Message.instructions m)))
          | Err _ => None
          end
      | _, _ => None
      end
  | Err _ => None
  end.

Example trailing_byte_cut_and_read_back : read_back trailing_tx = Some (2049%nat, true).
Proof. vm_compute. reflexivity. Qed.

(** C1 (amended): for every compiled Message on which [serialize] returns,
    the bytes returned are the sign data followed by the instruction
    bytes, cut at the 2048 bytes of the buffer that [serialize] fills.
    When the two sections together take at most 2048 bytes -- as they do
    whenever fewer than 2048 bytes are returned -- nothing is cut, and
    [Message.from] on the bytes returned yields a Message equal to the
    compiled one: same header counts, same account keys, same recent
    blockhash, same instructions. *)
Theorem Message_from_serialize_compiled
    (tx : Transaction.t) (m : Message.t) (bytes : list byte) :
  snd (Transaction.compileMessage tx) = Ok m ->
  Message.serialize m = Ok bytes ->
  exists signData instructionBuffer,
    Message.sections m = Ok (signData, instructionBuffer)
    /\ bytes = firstn 2048 (signData ++ instructionBuffer)
    /\ ((length signData + length instructionBuffer <= 2048)%nat ->
        bytes = signData ++ instructionBuffer /\ Message.from bytes = Ok m)
    /\ ((length bytes < 2048)%nat ->
        bytes = signData ++ instructionBuffer /\ Message.from bytes = Ok m).
Proof.
  intros Hc Hs. unfold Message.serialize in Hs.
  destruct (Message.sections m) as [[signData instructionBuffer]|e] eqn:Hsec;
    [|discriminate].
  cbn [bind] in Hs. injection Hs as <-.
  exists signData, instructionBuffer. split; [reflexivity|]. split; [reflexivity|].
  assert (Hround : (length signData + length instructionBuffer <= 2048)%nat ->
            firstn 2048 (signData ++ instructionBuffer) = signData ++ instructionBuffer
            /\ Message.from (firstn 2048 (signData ++ instructionBuffer)) = Ok m).
  { intros Hfit.
    assert (Hlen : (length (signData ++ instructionBuffer) <= 2048)%nat)
      by (rewrite length_app; exact Hfit).
    destruct (Message_roundtrip_wf m signData instructionBuffer) as [_ Hfrom];
      [eapply TransactionFacts.compileBody_wf; exact Hc | exact Hsec | exact Hlen |].
    rewrite firstn_all2 by exact Hlen. split; [reflexivity | exact Hfrom]. }
  split; [exact Hround|].
  intros Hshort. apply Hround. rewrite length_firstn, length_app in Hshort. lia.
Qed.

Definition sample_bytes : list byte :=
  Eval vm_compute in
    match Message.serialize sample_message with
    | Ok bytes => bytes
    | Err _ => []
    end.

Lemma Message_from_serialize_compiled_witness :
  snd (Transaction.compileMessage sample_tx) = Ok sample_message
  /\ Message.serialize sample_message = Ok sample_bytes
  /\ length sample_bytes = 174%nat
  /\ Message.from sample_bytes = Ok sample_message.
Proof.
  assert (H1 : snd (Transaction.compileMessage sample_tx) = Ok sample_message)
    by (vm_compute; reflexivity).
  assert (H2 : Message.serialize sample_message = Ok sample_bytes)
    by (vm_compute; reflexivity).
  assert (H3 : length sample_bytes = 174%nat) by (vm_compute; reflexivity).
  split; [exact H1|]. split; [exact H2|]. split; [exact H3|].
  destruct (Message_from_serialize_compiled sample_tx sample_message sample_bytes H1 H2)
    as (signData & instructionBuffer & _ & _ & _ & Hshort).
  apply Hshort. rewrite H3. lia.
Defined.

(* ===================================================================== *)
(** ** C3: the table after the cull                                       *)
(* ===================================================================== *)

(** The OR of a flag over the collected metas that carry the key [k]. *)
Definition anyMeta (flag : AccountMeta -> bool) (k : PublicKey) (l : list AccountMeta) : bool :=
  existsb (fun m => PublicKey_equals (pubkey m) k && flag m) l.

Lemma address_eqb_equals (m : AccountMeta) (k : PublicKey) :
  String.eqb (address m) (PublicKey_toString k) = PublicKey_equals (pubkey m) k.
Proof.
  unfold address. destruct (PublicKey_equals (pubkey m) k) eqn:E.
  - apply PublicKey_equals_eq in E. rewrite E. apply String.eqb_refl.
  - apply String.eqb_neq. intros H. apply PublicKey_toString_inj in H.
    apply PublicKey_equals_eq in H. congruence.
Qed.

Lemma anyFlag_anyMeta flag (u : AccountMeta) l :
  anyFlag flag (address u) l = anyMeta flag (pubkey u) l.
Proof.
  unfold anyFlag, anyMeta. induction l as [|m r IH]; simpl; [reflexivity|].
  rewrite IH. unfold address at 2. rewrite address_eqb_equals. reflexivity.
Qed.

(** C3: after [compileMessage] has culled the duplicates of the collected
    account metas (those of the instructions, then one per program id),
    the table holds at most one entry per address, every collected address
    has its entry, and the entry's isSigner and isWritable flags are the
    OR of those flags over all the collected metas of that address. *)
Theorem cullDuplicates_one_entry_per_address
    (tx : Transaction.t) (accountMetas : list AccountMeta) :
  Transaction.collectMetas (Transaction.instructions tx) = Ok accountMetas ->
  let uniqueMetas := Transaction.cullDuplicates (Transaction.sortMetas accountMetas) in
  List.NoDup (map pubkey uniqueMetas)
  /\ (forall m, In m accountMetas -> exists u, In u uniqueMetas /\ pubkey u = pubkey m)
  /\ (forall u, In u uniqueMetas ->
        isSigner u = anyMeta isSigner (pubkey u) accountMetas
        /\ isWritable u = anyMeta isWritable (pubkey u) accountMetas).
Proof.
  intros _ uniqueMetas.
  pose proof (sort_perm Transaction.compareMetas accountMetas) as Hperm.
  destruct (cull_inv_sorted _ (sortMetas_signersFirst accountMetas))
    as (Hnd & Hflags & Hcover).
  fold uniqueMetas in Hnd, Hflags, Hcover.
  split; [|split].
  - clear - Hnd. induction uniqueMetas as [|u r IH]; [constructor|].
    simpl in Hnd. inversion Hnd as [|? ? Hnotin Hnd']; subst.
    constructor; [|apply IH; exact Hnd'].
    intros Hin. apply Hnotin. apply in_map_iff in Hin as (v & Hv & Hin).
    apply in_map_iff. exists v. split; [|exact Hin]. unfold address. rewrite Hv. reflexivity.
  - intros m Hm.
    destruct (Hcover m) as (u & Hu & Hua).
    { eapply Permutation_in; [symmetry; exact Hperm | exact Hm]. }
    exists u. split; [exact Hu|]. apply PublicKey_toString_inj. exact Hua.
  - intros u Hu. destruct (Hflags u Hu) as (HS & HW & _).
    rewrite HS, HW, !anyFlag_anyMeta. unfold anyMeta.
    split; apply existsb_perm; exact Hperm.
Qed.

Lemma cullDuplicates_one_entry_per_address_witness :
  Transaction.collectMetas (Transaction.instructions sample_tx) = Ok sample_metas
  /\ let uniqueMetas := Transaction.cullDuplicates (Transaction.sortMetas sample_metas) in
     List.NoDup (map pubkey uniqueMetas)
     /\ (forall m, In m sample_metas -> exists u, In u uniqueMetas /\ pubkey u = pubkey m)
     /\ (forall u, In u uniqueMetas ->
           isSigner u = anyMeta isSigner (pubkey u) sample_metas
           /\ isWritable u = anyMeta isWritable (pubkey u) sample_metas).
Proof.
  assert (H : Transaction.collectMetas (Transaction.instructions sample_tx) = Ok sample_metas)
    by (vm_compute; reflexivity).
  split; [exact H|].
  exact (cullDuplicates_one_entry_per_address sample_tx sample_metas H).
Defined.

Example sample_cull :
  Transaction.cullDuplicates (Transaction.sortMetas sample_metas)
  = [mkMeta (key 2) true false; mkMeta (key 3) true true; mkMeta (key 100) false false].
Proof. vm_compute. reflexivity. Qed.

(* ===================================================================== *)
(** ** The fee payer leads the table                                      *)
(* ===================================================================== *)

Lemma PublicKey_of_string_toString_inv k k' :
  PublicKey_of_string (PublicKey_toString k) = Ok k' -> k' = k.
Proof.
  unfold PublicKey_of_string, PublicKey_toString, PublicKey_toBase58, PublicKey_toBytes.
  rewrite bs58.decode_encode. cbn [of_option bind].
  destruct (negb _); [discriminate|].
  unfold PublicKey_of_bytes. rewrite PublicKey_toBuffer_value.
  destruct (32 <? byteLength (bn k))%nat; [discriminate|].
  intros [= <-]. destruct k; reflexivity.
Qed.

Lemma moveFeePayer_head k uniqueMetas :
  exists x rest, Transaction.moveFeePayer k uniqueMetas = x :: rest
                 /\ pubkey x = k /\ isSigner x = true /\ isWritable x = true.
Proof.
  unfold Transaction.moveFeePayer.
  destruct (find_index _ uniqueMetas) as [i|] eqn:E.
  - apply find_index_Some in E as (x & Hx & Heq & _). rewrite Hx.
    apply PublicKey_equals_eq in Heq. eexists _, _. split; [reflexivity|]. auto.
  - eexists _, _. split; [reflexivity|]. auto.
Qed.

Lemma checkSigners_head sigs : forall x rest uniqueMetas,
  Transaction.checkSigners sigs (x :: rest) = Ok uniqueMetas ->
  isSigner x = true ->
  exists x' rest', uniqueMetas = x' :: rest'
                   /\ pubkey x' = pubkey x /\ isSigner x' = true
                   /\ isWritable x' = isWritable x.
Proof.
  induction sigs as [|sg r IH]; intros x rest um; cbn [Transaction.checkSigners].
  - intros [= <-] Hs. eexists _, _. split; [reflexivity|]. auto.
  - destruct (publicKey sg) as [k|]; [|discriminate].
    destruct (find_index _ (x :: rest)) as [i|]; [|discriminate].
    intros H Hs. destruct i as [|i]; cbn [modify] in H.
    + apply IH in H; [|reflexivity]. exact H.
    + apply IH in H; [|exact Hs]. exact H.
Qed.

Lemma count_readonly_le l :
  Transaction.count (fun m => isSigner m && negb (isWritable m)) l
  <= Transaction.count isSigner l.
Proof.
  unfold Transaction.count. induction l as [|x r IH]; simpl; [lia|].
  destruct (isSigner x), (isWritable x); simpl; lia.
Qed.

(** In a compiled message the chosen fee payer is the key at index 0,
    counts among the required signatures, and is writable. *)
Lemma compileBody_feePayer_first tx m k :
  Transaction.compileBody tx = Ok m ->
  Transaction.chooseFeePayer tx = Ok k ->
  hd_error (Message.accountKeys m) = Some k
  /\ 1 <= numRequiredSignatures (Message.header m)
  /\ Message.isAccountWritable m 0 = true.
Proof.
  unfold Transaction.compileBody. intros H Hk.
  inv_bind_as H blockhash Ebh.
  inv_bind_as H payer Epayer. rewrite Hk in Epayer. injection Epayer as <-.
  inv_bind_as H u Echeck.
  inv_bind_as H um Eum.
  inv_bind_as H ixs Eixs.
  inv_bind_as H asserted Eassert.
  unfold Message.new in H. inv_bind_as H ks Eks.
  injection H as <-.
  unfold Transaction.uniqueMetasOf in Eum. inv_bind_as Eum metas Emetas.
  destruct (moveFeePayer_head k (Transaction.cullDuplicates (Transaction.sortMetas metas)))
    as (x & rest & Hmove & Hxk & Hxs & Hxw).
  rewrite Hmove in Eum.
  apply checkSigners_head in Eum as (x' & rest' & -> & Hk' & Hs' & Hw'); [|exact Hxs].
  unfold Transaction.signedKeys in Eks. simpl in Eks. rewrite Hs' in Eks. simpl in Eks.
  inv_bind_as Eks k0 Ek0. inv_bind_as Eks ks' Eks'. injection Eks as <-.
  rewrite Hk', Hxk in Ek0. apply PublicKey_of_string_toString_inv in Ek0. subst.
  unfold Message.isAccountWritable.
  cbn [Message.accountKeys Message.header Transaction.headerOf hd_error
       numRequiredSignatures numReadonlySignedAccounts].
  pose proof (count_readonly_le rest') as Hle.
  unfold Transaction.count in *. simpl. rewrite Hs', Hw', Hxw. simpl.
  split; [reflexivity|]. split; [lia|].
  apply orb_true_iff. left. apply Z.ltb_lt. lia.
Qed.

Lemma mapM_of_string_toString keys : forall ks,
  mapM PublicKey_of_string (map PublicKey_toString keys) = Ok ks -> ks = keys.
Proof.
  induction keys as [|k r IH]; simpl; intros ks.
  - intros [= <-]. reflexivity.
  - intros H. inv_bind_as H k' Ek. inv_bind_as H ks' Eks. injection H as <-.
    apply PublicKey_of_string_toString_inv in Ek. apply IH in Eks. congruence.
Qed.

(** The key table of a compiled message is the final account table, its
    signers first, and the header counts that table. *)
Lemma compileBody_table tx m :
  Transaction.compileBody tx = Ok m ->
  exists k uniqueMetas,
    Transaction.chooseFeePayer tx = Ok k
    /\ Transaction.uniqueMetasOf tx k = Ok uniqueMetas
    /\ Message.accountKeys m
       = map pubkey (List.filter isSigner uniqueMetas)
         ++ map pubkey (List.filter (fun u => negb (isSigner u)) uniqueMetas)
    /\ Message.header m = Transaction.headerOf uniqueMetas.
Proof.
  unfold Transaction.compileBody. intros H.
  inv_bind_as H blockhash Ebh.
  inv_bind_as H payer Epayer.
  inv_bind_as H u Echeck.
  inv_bind_as H um Eum.
  inv_bind_as H ixs Eixs.
  inv_bind_as H asserted Eassert.
  unfold Message.new in H. inv_bind_as H ks Eks. injection H as <-.
  exists payer, um. split; [exact Epayer|]. split; [exact Eum|]. split; [|reflexivity].
  unfold Transaction.signedKeys, Transaction.unsignedKeys in Eks.
  rewrite <- map_app, <- (map_map pubkey PublicKey_toString) in Eks.
  apply mapM_of_string_toString in Eks. rewrite Eks, map_app. reflexivity.
Qed.

(* ===================================================================== *)
(** ** C2: the order of the key table                                     *)
(* ===================================================================== *)

(** C2 (the code departs from it): [sample_tx] names key 3 twice, as a
    read-only signer and as a writable plain account, and key 2 as a
    read-only signer only.  The table is sorted before the duplicates are
    merged, so the merged key 3, now a writable signer, stays behind the
    read-only signer 2.  The header counts one read-only signer, and by the
    header key 2 is the writable one and key 3 the read-only one. *)
Theorem compileMessage_readonly_signer_before_writable :
  Transaction.uniqueMetasOf sample_tx (key 1)
    = Ok [mkMeta (key 1) true true; mkMeta (key 2) true false;
          mkMeta (key 3) true true; mkMeta (key 100) false false]
  /\ snd (Transaction.compileMessage sample_tx) = Ok sample_message
  /\ Message.accountKeys sample_message = [key 1; key 2; key 3; key 100]
  /\ Message.header sample_message = mkHeader 3 1 1
  /\ Message.isAccountWritable sample_message 1 = true
  /\ Message.isAccountWritable sample_message 2 = false.
Proof. vm_compute. repeat split; reflexivity. Qed.

(* ===================================================================== *)
(** ** C10: the implicit fee payer                                        *)
(* ===================================================================== *)




Lemma applyNonce_signatures tx :
  Transaction.signatures (Transaction.applyNonce tx) = Transaction.signatures tx.
Proof.
  unfold Transaction.applyNonce. destruct (Transaction.nonceInfo tx); [|reflexivity].
  destruct (negb _); reflexivity.
Qed.

Lemma applyNonce_feePayer tx :
  Transaction.feePayer (Transaction.applyNonce tx) = Transaction.feePayer tx.
Proof.
  unfold Transaction.applyNonce. destruct (Transaction.nonceInfo tx); [|reflexivity].
  destruct (negb _); reflexivity.
Qed.




(** The signer 5 stands first in the signature list of a transaction
    without fee payer. *)
Definition implicit_payer_tx : Transaction.t :=
  Transaction.mk [mkPair None (Some (key 5))] None [sample_instruction]
    (Some sample_blockhash) None.


Example implicit_payer_compiles :
  exists m, snd (Transaction.compileMessage implicit_payer_tx) = Ok m
            /\ Message.accountKeys m = [key 5; key 2; key 3; key 100].
Proof. eexists. split; vm_compute; reflexivity. Qed.

Example no_signature_no_payer :
  snd (Transaction.compileMessage
         (Transaction.mk [] None [sample_instruction] (Some sample_blockhash) None))
  = Err FeePayerRequired.
Proof. vm_compute. reflexivity. Qed.

(* ===================================================================== *)
(** ** Methods that change the transaction                                *)
(* ===================================================================== *)

(** A method of [Transaction]: from the object before the call to the
    object after it, with the value returned or the exception thrown. *)
Definition Method (A : Type) : Type := Transaction.t -> Transaction.t * Result A.

Definition ret {A} (a : A) : Method A := fun tx => (tx, Ok a).
Definition throw {A} (e : Error) : Method A := fun tx => (tx, Err e).
Definition lift {A} (r : Result A) : Method A := fun tx => (tx, r).
Definition this : Method Transaction.t := fun tx => (tx, Ok tx).
Definition set_signatures (sigs : list SignaturePubkeyPair) : Method unit :=
  fun tx => (Transaction.mk sigs (Transaction.feePayer tx) (Transaction.instructions tx)
               (Transaction.recentBlockhash tx) (Transaction.nonceInfo tx), Ok tt).

Definition bindM {A C} (m : Method A) (k : A -> Method C) : Method C :=
  fun tx =>
    match m tx with
    | (tx', Ok a) => k a tx'
    | (tx', Err e) => (tx', Err e)
    end.

Notation "'let!' x ':=' e 'in' k" := (bindM e (fun x => k))
  (at level 10, x name, e at level 100, k at level 200).

Fixpoint forEachM {A} (f : A -> Method unit) (l : list A) : Method unit :=
  match l with
  | [] => ret tt
  | x :: r => let! _ := f x in forEachM f r
  end.

Record Signer : Type := mkSigner {
  signer_publicKey : PublicKey;
  secretKey : list byte
}.

(** The loop that drops the signers whose key was seen before. *)
Fixpoint dedupeSigners (seen : list string) (signers : list Signer) : list Signer :=
  match signers with
  | [] => []
  | signer :: r =>
      let key := PublicKey_toString (signer_publicKey signer) in
      if includes seen key then dedupeSigners seen r
      else signer :: dedupeSigners (seen ++ [key]) r
  end.

Definition set_signature (sig : option (list byte)) (p : SignaturePubkeyPair)
    : SignaturePubkeyPair :=
  mkPair sig (publicKey p).

Fixpoint every2 {A C} (p : A -> C -> bool) (l : list A) (l' : list C) : bool :=
  match l, l' with
  | [], _ => true
  | x :: r, y :: r' => p x y && every2 p r r'
  | _ :: _, [] => false
  end.

Section Signing.
(** The two functions of the tweetnacl package the library calls:
    [nacl.sign.detached(message, secretKey)] and
    [nacl.sign.detached.verify(message, signature, publicKey)]. *)
Variable nacl_sign : list byte -> list byte -> list byte.
Variable nacl_verify : list byte -> list byte -> list byte -> bool.

(** [_compile()] *)
Definition _compile : Method Message.t :=
  let! message := Transaction.compileMessage in
  let! tx := this in
  let signedKeys :=
    slice_to (Message.accountKeys message)
             (numRequiredSignatures (Message.header message)) in
  let valid :=
    (length (Transaction.signatures tx) =? length signedKeys)%nat
    && every2 (fun pair key =>
                 match publicKey pair with
                 | Some k => PublicKey_equals key k
                 | None => false
                 end) (Transaction.signatures tx) signedKeys in
  if valid then ret message
  else
    let! _ := set_signatures (map (fun k => mkPair None (Some k)) signedKeys) in
    ret message.

(** [serializeMessage()] *)
Definition serializeMessage : Method (list byte) :=
  let! message := _compile in
  lift (Message.serialize message).

(** [_addSignature(pubkey, signature)] *)
Definition _addSignature (pubkey : PublicKey) (sig : list byte) : Method unit :=
  if negb (length sig =? 64)%nat then throw AssertionFailed
  else
    let! tx := this in
    match find_index (fun sigpair =>
                        match publicKey sigpair with
                        | Some k => PublicKey_equals pubkey k
                        | None => false
                        end) (Transaction.signatures tx) with
    | None => throw (UnknownSigner (PublicKey_toString pubkey))
    | Some index =>
        set_signatures (modify (set_signature (Some sig)) index (Transaction.signatures tx))
    end.

(** [_partialSign(message, ...signers)] *)
Definition _partialSign (message : Message.t) (signers : list Signer) : Method unit :=
  let! signData := lift (Message.serialize message) in
  forEachM (fun signer =>
              let sig := nacl_sign signData (secretKey signer) in
              _addSignature (signer_publicKey signer) sig) signers.

(** [_verifySignatures(signData, requireAllSignatures)] *)
Fixpoint verifyPairs (sigs : list SignaturePubkeyPair) (signData : list byte)
    (requireAllSignatures : bool) : bool :=
  match sigs with
  | [] => true
  | {| signature := None |} :: r =>
      if requireAllSignatures then false
      else verifyPairs r signData requireAllSignatures
  | {| signature := Some sig; publicKey := k |} :: r =>
      let key := match k with Some k => PublicKey_toBuffer k | None => [] end in
      if negb (nacl_verify signData sig key) then false
      else verifyPairs r signData requireAllSignatures
  end.

Definition _verifySignatures (tx : Transaction.t) (signData : list byte)
    (requireAllSignatures : bool) : bool :=
  verifyPairs (Transaction.signatures tx) signData requireAllSignatures.

(** [sign(...signers)].  The last statement calls [_verifySignatures] and
    does nothing with what it returns. *)
Definition sign (signers : list Signer) : Method unit :=
  match signers with
  | [] => throw NoSigners
  | _ =>
      let uniqueSigners := dedupeSigners [] signers in
      let! _ := set_signatures
                  (map (fun signer => mkPair None (Some (signer_publicKey signer)))
                       uniqueSigners) in
      let! message := _compile in
      let! _ := _partialSign message uniqueSigners in
      let! signData := lift (Message.serialize message) in
      let! tx := this in
      let _ := _verifySignatures tx signData true in
      ret tt
  end.

(** [partialSign(...signers)] *)
Definition partialSign (signers : list Signer) : Method unit :=
  match signers with
  | [] => throw NoSigners
  | _ =>
      let uniqueSigners := dedupeSigners [] signers in
      let! message := _compile in
      _partialSign message uniqueSigners
  end.

(** [verifySignatures()] *)
Definition verifySignatures : Method bool :=
  let! signData := serializeMessage in
  let! tx := this in
  ret (_verifySignatures tx signData true).

(** [_serialize(signData)] *)
Definition _serialize (signData : list byte) : Method (list byte) :=
  let! tx := this in
  let signatures := Transaction.signatures tx in
  let! signatureCount := lift (encodeLength (Z.of_nat (length signatures))) in
  if negb (length signatures <? 256)%nat then throw AssertionFailed
  else if negb (forallb (fun p => match signature p with
                                  | Some sig => (length sig =? 64)%nat
                                  | None => true
                                  end) signatures)
  then throw AssertionFailed
  else
    let wireTransaction :=
      signatureCount
      ++ concat (map (fun p => match signature p with
                               | Some sig => sig
                               | None => repeat x00 64
                               end) signatures)
      ++ signData in
    if negb (length wireTransaction <=? PACKET_DATA_SIZE)%nat then throw AssertionFailed
    else ret wireTransaction.

(** [serialize()] with the default configuration: all signatures are
    required and verified. *)
Definition serialize : Method (list byte) :=
  let! signData := serializeMessage in
  let! tx := this in
  if negb (_verifySignatures tx signData true) then throw SignatureVerificationFailed
  else _serialize signData.

(** The first (payer) signature: the [signature] getter. *)
Definition primarySignature (tx : Transaction.t) : option (list byte) :=
  match Transaction.signatures tx with
  | p :: _ => signature p
  | [] => None
  end.
End Signing.

(* ===================================================================== *)
(** ** C4: what [sign] does after signing                                 *)
(* ===================================================================== *)

(** The fee payer 1 signs alone a transaction whose instruction also
    requires the signature of key 2. *)
Definition payer_signer : Signer := mkSigner (key 1) (repeat x09 64).

Definition two_signer_tx : Transaction.t :=
  Transaction.mk [] (Some (key 1))
    [mkInstruction 0 [mkMeta (key 2) true true] (Some (key 100)) [x01]]
    (Some sample_blockhash) None.

(** C4 (the code departs from it): [sign] calls [_verifySignatures] last and
    drops the answer.  Signing [two_signer_tx] with the fee payer alone
    returns normally although the slot of key 2 is still empty, so that
    [_verifySignatures], asked for all signatures, answers false; only
    [serialize] then throws the verification error.  This holds whatever
    the signing and verifying functions are, as long as signatures have 64
    bytes. *)
Theorem sign_returns_with_missing_signature
    (nacl_sign : list byte -> list byte -> list byte)
    (nacl_verify : list byte -> list byte -> list byte -> bool) :
  (forall message sk, length (nacl_sign message sk) = 64%nat) ->
  exists tx signData,
    sign nacl_sign nacl_verify [payer_signer] two_signer_tx = (tx, Ok tt)
    /\ snd (serializeMessage tx) = Ok signData
    /\ map publicKey (Transaction.signatures tx) = [Some (key 1); Some (key 2)]
    /\ map signature (Transaction.signatures tx)
       = [Some (nacl_sign signData (secretKey payer_signer)); None]
    /\ _verifySignatures nacl_verify tx signData true = false
    /\ (nacl_verify signData (nacl_sign signData (secretKey payer_signer))
          (PublicKey_toBuffer (key 1)) = true ->
        snd (serialize nacl_verify tx) = Err SignatureVerificationFailed).
Proof.
  intros Hlen.
  set (signData := match snd (serializeMessage two_signer_tx) with
                   | Ok b => b | Err _ => [] end).
  set (sig := nacl_sign signData (secretKey payer_signer)).
  exists (Transaction.mk [mkPair (Some sig) (Some (key 1)); mkPair None (Some (key 2))]
            (Some (key 1)) (Transaction.instructions two_signer_tx)
            (Some sample_blockhash) None), signData.
  assert (Hser : snd (serializeMessage two_signer_tx) = Ok signData)
    by (vm_compute; reflexivity).
  split; [|split; [|split; [|split; [|split]]]].
  - unfold sign, bindM. cbn [dedupeSigners includes existsb payer_signer signer_publicKey map
                             set_signatures two_signer_tx Transaction.feePayer
                             Transaction.instructions Transaction.recentBlockhash
                             Transaction.nonceInfo].
    replace (_compile _) with
      (Transaction.mk [mkPair None (Some (key 1)); mkPair None (Some (key 2))]
         (Some (key 1)) (Transaction.instructions two_signer_tx)
         (Some sample_blockhash) None,
       Ok (Message.mk (mkHeader 2 0 1) [key 1; key 2; key 100] sample_blockhash
             [mkCompiledInstruction 2 [1] (bs58.encode [x01])]))
      by (vm_compute; reflexivity).
    unfold _partialSign, bindM, lift.
    replace (Message.serialize _) with (Ok (A := list byte) signData)
      by (vm_compute; reflexivity).
    cbn [forEachM bindM secretKey signer_publicKey]. fold sig.
    assert (Hsig : length sig = 64%nat) by apply Hlen.
    unfold bindM, _addSignature. rewrite Hsig. reflexivity.
  - vm_compute. reflexivity.
  - reflexivity.
  - reflexivity.
  - unfold _verifySignatures. cbn [Transaction.signatures verifyPairs].
    destruct (negb _); reflexivity.
  - intros Hv. unfold serialize, bindM.
    replace (serializeMessage _) with
      (Transaction.mk [mkPair (Some sig) (Some (key 1)); mkPair None (Some (key 2))]
         (Some (key 1)) (Transaction.instructions two_signer_tx)
         (Some sample_blockhash) None, Ok (A := list byte) signData).
    + cbn [this _verifySignatures Transaction.signatures verifyPairs].
      fold sig in Hv. rewrite Hv. reflexivity.
    + unfold serializeMessage, bindM, _compile, bindM.
      cbn [Transaction.compileMessage].
      vm_compute. reflexivity.
Qed.

(* ===================================================================== *)
(** ** SHA-256 (the crypto-hash package)                                  *)
(* ===================================================================== *)

(** Modelled from the standard the package implements (FIPS 180-4): the
    package is a dependency of the library and not part of its sources.
    Words are integers below 2^32. *)
Module sha256.
Definition mask32 : Z := 0xffffffff.
Definition add32 (a b : Z) : Z := Z.land (a + b) mask32.
Definition rotr (n x : Z) : Z :=
  Z.land (Z.lor (Z.shiftr x n) (Z.shiftl x (32 - n))) mask32.
Definition shr (n x : Z) : Z := Z.shiftr x n.
Definition xor3 (a b c : Z) : Z := Z.lxor (Z.lxor a b) c.
Definition Ch (x y z : Z) : Z := Z.lxor (Z.land x y) (Z.land (Z.lxor x mask32) z).
Definition Maj (x y z : Z) : Z := xor3 (Z.land x y) (Z.land x z) (Z.land y z).
Definition bsig0 (x : Z) : Z := xor3 (rotr 2 x) (rotr 13 x) (rotr 22 x).
Definition bsig1 (x : Z) : Z := xor3 (rotr 6 x) (rotr 11 x) (rotr 25 x).
Definition ssig0 (x : Z) : Z := xor3 (rotr 7 x) (rotr 18 x) (shr 3 x).
Definition ssig1 (x : Z) : Z := xor3 (rotr 17 x) (rotr 19 x) (shr 10 x).

(** The constants of FIPS 180-4 are given by their definition: the first
    32 bits of the fractional parts of the cube roots (for [K]) and of the
    square roots (for the initial hash value) of the first primes. *)
Definition is_prime (n : Z) : bool :=
  forallb (fun d => negb (n mod d =? 0)) (map Z.of_nat (seq 2 (Z.to_nat n - 2))).

Definition primes : list Z :=
  Eval vm_compute in List.filter is_prime (map Z.of_nat (seq 2 310)).

(** The integer cube root of [n], found bit by bit below [2 ^ bits]. *)
Fixpoint cube_root (bits : nat) (r n : Z) : Z :=
  match bits with
  | O => r
  | S b =>
      let r' := r + 2 ^ Z.of_nat b in
      cube_root b (if r' * r' * r' <=? n then r' else r) n
  end.

Definition K : list Z :=
  Eval vm_compute in map (fun p => cube_root 40 0 (p * 2 ^ 96) mod 2 ^ 32) primes.

Record state : Type := mkState {
  ha : Z; hb : Z; hc : Z; hd : Z; he : Z; hf : Z; hg : Z; hh : Z
}.

Definition fractional_sqrt (i : nat) : Z :=
  Z.sqrt (nth i primes 0 * 2 ^ 64) mod 2 ^ 32.

Definition H0 : state :=
  Eval vm_compute in
    mkState (fractional_sqrt 0) (fractional_sqrt 1) (fractional_sqrt 2) (fractional_sqrt 3)
            (fractional_sqrt 4) (fractional_sqrt 5) (fractional_sqrt 6) (fractional_sqrt 7).

Example constants_first_last :
  (length K, nth 0 K 0, nth 63 K 0, ha H0, hh H0)
  = (64%nat, 0x428a2f98, 0xc67178f2, 0x6a09e667, 0x5be0cd19).
Proof. reflexivity. Qed.

(** [k] bytes holding [n], most significant first. *)
Fixpoint be_bytes (k : nat) (n : Z) : list byte :=
  match k with
  | O => []
  | S k' => be_bytes k' (n / 256) ++ [byte_of_Z n]
  end.

(** The message, a one bit, zeros up to 56 modulo 64 bytes, and the length
    in bits on eight bytes. *)
Definition pad (msg : list byte) : list byte :=
  let len := length msg in
  let zeros := ((119 - len mod 64) mod 64)%nat in
  msg ++ [x80] ++ repeat x00 zeros ++ be_bytes 8 (8 * Z.of_nat len).

Fixpoint words (bs : list byte) : list Z :=
  match bs with
  | a :: b :: c :: d :: r =>
      (byte_to_Z a * 16777216 + byte_to_Z b * 65536 + byte_to_Z c * 256 + byte_to_Z d)
      :: words r
  | _ => []
  end.

Fixpoint blocks (n : nat) (ws : list Z) : list (list Z) :=
  match n with
  | O => []
  | S n' => firstn 16 ws :: blocks n' (skipn 16 ws)
  end.

(** The message schedule, newest word first. *)
Fixpoint extend (n : nat) (ws : list Z) : list Z :=
  match n with
  | O => ws
  | S n' =>
      let w := add32 (add32 (ssig1 (nth 1 ws 0)) (nth 6 ws 0))
                     (add32 (ssig0 (nth 14 ws 0)) (nth 15 ws 0)) in
      extend n' (w :: ws)
  end.

Definition schedule (block : list Z) : list Z := rev (extend 48 (rev block)).

Definition round (s : state) (kw : Z * Z) : state :=
  let '(k, w) := kw in
  let t1 := add32 (add32 (add32 (hh s) (bsig1 (he s))) (add32 (Ch (he s) (hf s) (hg s)) k)) w in
  let t2 := add32 (bsig0 (ha s)) (Maj (ha s) (hb s) (hc s)) in
  mkState (add32 t1 t2) (ha s) (hb s) (hc s) (add32 (hd s) t1) (he s) (hf s) (hg s).

Definition compress (s : state) (block : list Z) : state :=
  let r := fold_left round (combine K (schedule block)) s in
  mkState (add32 (ha s) (ha r)) (add32 (hb s) (hb r)) (add32 (hc s) (hc r))
          (add32 (hd s) (hd r)) (add32 (he s) (he r)) (add32 (hf s) (hf r))
          (add32 (hg s) (hg r)) (add32 (hh s) (hh r)).

Definition word_bytes (w : Z) : list byte :=
  [byte_of_Z (Z.shiftr w 24); byte_of_Z (Z.shiftr w 16); byte_of_Z (Z.shiftr w 8);
   byte_of_Z w].

Definition state_bytes (s : state) : list byte :=
  word_bytes (ha s) ++ word_bytes (hb s) ++ word_bytes (hc s) ++ word_bytes (hd s)
  ++ word_bytes (he s) ++ word_bytes (hf s) ++ word_bytes (hg s) ++ word_bytes (hh s).

Definition digest (msg : list byte) : list byte :=
  let ws := words (pad msg) in
  state_bytes (fold_left compress (blocks (length ws / 16) ws) H0).

Lemma digest_length msg : length (digest msg) = 32%nat.
Proof. reflexivity. Qed.
End sha256.

Definition bytes_of_string (s : string) : list byte :=
  map byte_of_ascii (list_ascii_of_string s).

Example sha256_abc :
  sha256.digest (bytes_of_string "abc")
  = [xba; x78; x16; xbf; x8f; x01; xcf; xea; x41; x41; x40; xde; x5d; xae; x22; x23;
     xb0; x03; x61; xa3; x96; x17; x7a; x9c; xb4; x10; xff; x61; xf2; x00; x15; xad].
Proof. vm_compute. reflexivity. Qed.

Example sha256_empty :
  sha256.digest []
  = [xe3; xb0; xc4; x42; x98; xfc; x1c; x14; x9a; xfb; xf4; xc8; x99; x6f; xb9; x24;
     x27; xae; x41; xe4; x64; x9b; x93; x4c; xa4; x95; x99; x1b; x78; x52; xb8; x55].
Proof. vm_compute. reflexivity. Qed.

Example sha256_two_blocks :
  sha256.digest (repeat x61 100)
  = [x28; x16; x59; x78; x88; xe4; xa0; xd3; xa3; x6b; x82; xb8; x33; x16; xab; x32;
     x68; x0e; xb8; xf0; x0f; x8c; xd3; xb9; x04; xd6; x81; x24; x6d; x28; x5a; x0e].
Proof. vm_compute. reflexivity. Qed.

(* ===================================================================== *)
(** ** Field arithmetic of the curve (tweetnacl's lowlevel)               *)
(* ===================================================================== *)

(** Modelled from the package: [naclLowLevel] is tweetnacl's, a dependency
    of the library.  The package keeps a field element in 16 limbs of 16
    bits and reduces it when it packs it; here an element is the integer
    the limbs stand for, multiplication reduces modulo 2^255 - 19, and
    packing gives the canonical residue. *)
Module naclLowLevel.
Definition P : Z := Eval vm_compute in 2 ^ 255 - 19.

(** [gf(init)]: the element with the given limbs, least significant
    first. *)
Definition gf (limbs : list Z) : Z :=
  fold_right (fun limb acc => limb + 65536 * acc) 0 limbs.

Definition D : Z :=
  gf [0x78a3; 0x1359; 0x4dca; 0x75eb; 0xd8ab; 0x4141; 0x0a4d; 0x0070;
      0xe898; 0x7779; 0x4079; 0x8cc7; 0xfe73; 0x2b6f; 0x6cee; 0x5203].

Definition A (a b : Z) : Z := a + b.
Definition Zsub (a b : Z) : Z := a - b.          (* [Z(o, a, b)] *)
Definition M (a b : Z) : Z := (a * b) mod P.
Definition S (a : Z) : Z := M a a.

(** [pow2523]: 251 rounds of squaring, each but the one for [a = 1]
    followed by a multiplication. *)
Fixpoint pow2523_loop (n : nat) (c i : Z) : Z :=
  match n with
  | O => c
  | Datatypes.S n' =>
      let a := Z.of_nat n' in
      let c := S c in
      let c := if a =? 1 then c else M c i in
      pow2523_loop n' c i
  end.

Definition pow2523 (i : Z) : Z := pow2523_loop 251 i i.

(** [unpack25519]: limb [i] is [n[2*i] + (n[2*i+1] << 8)], and the top
    bit of the last limb is cleared.  On an array shorter than 32 bytes a
    missing high byte reads as 0, a limb whose low byte is missing is NaN,
    and the mask of the last limb turns a NaN there into 0: the limbs are
    all numbers exactly when the array has at least 29 bytes.  [None]
    stands for an element with NaN limbs. *)
Definition unpack25519 (n : list byte) : option Z :=
  if (length n <? 29)%nat then None
  else Some (Z.land (fold_right (fun b acc => byte_to_Z b + 256 * acc) 0 (firstn 32 n))
                    (Z.ones 255)).

Definition pack25519 (a : Z) : Z := a mod P.

(** [crypto_verify_32] on two packed elements: 0 when equal, else -1. *)
Definition crypto_verify_32 (c d : Z) : Z := if c =? d then 0 else -1.
End naclLowLevel.

(* ===================================================================== *)
(** ** Program addresses                                                  *)
(* ===================================================================== *)

Definition MAX_SEED_LENGTH : nat := 32.

Definition gf1 : Z := naclLowLevel.gf [1].

Definition I : Z :=
  naclLowLevel.gf
    [0xa0b0; 0x4a0e; 0x1b27; 0xc4ee; 0xe478; 0xad2f; 0x1806; 0x2f43;
     0xd7a7; 0x3dfb; 0x0099; 0x2b4d; 0xdf0b; 0x4fc1; 0x2480; 0x2b83].

Definition neq25519 (a b : Z) : Z :=
  let c := naclLowLevel.pack25519 a in
  let d := naclLowLevel.pack25519 b in
  naclLowLevel.crypto_verify_32 c d.

(** [is_on_curve(p)], statement by statement; a number other than 0 is
    true in a condition.  When [p] is too short for its limbs to be
    numbers, the first squaring spreads the NaN to every limb and every
    element computed after it is NaN in every limb; [pack25519] writes
    zero bytes for such an element, so neither comparison finds a
    difference and the answer is 1. *)
Definition is_on_curve (p : list byte) : Z :=
  let r2 := gf1 in
  match naclLowLevel.unpack25519 p with
  | None => 1
  | Some r1 =>
      let num := naclLowLevel.S r1 in
      let den := naclLowLevel.M num naclLowLevel.D in
      let num := naclLowLevel.Zsub num r2 in
      let den := naclLowLevel.A r2 den in
      let den2 := naclLowLevel.S den in
      let den4 := naclLowLevel.S den2 in
      let den6 := naclLowLevel.M den4 den2 in
      let t := naclLowLevel.M den6 num in
      let t := naclLowLevel.M t den in
      let t := naclLowLevel.pow2523 t in
      let t := naclLowLevel.M t num in
      let t := naclLowLevel.M t den in
      let t := naclLowLevel.M t den in
      let r0 := naclLowLevel.M t den in
      let chk := naclLowLevel.S r0 in
      let chk := naclLowLevel.M chk den in
      let r0 := if negb (neq25519 chk num =? 0) then naclLowLevel.M r0 I else r0 in
      let chk := naclLowLevel.S r0 in
      let chk := naclLowLevel.M chk den in
      if negb (neq25519 chk num =? 0) then 0 else 1
  end.

(** [PublicKey.isOnCurve(pubkey)] *)
Definition PublicKey_isOnCurve (pubkey : list byte) : bool := is_on_curve pubkey =? 1.

(** [new BN(hash, 16).toArray(undefined, 32)]: the number of the digest on
    32 bytes. *)
Definition toArray32 (n : N) : list byte :=
  let b := N_to_bytes n in
  repeat x00 (32 - length b) ++ b.

(** The first seed longer than [MAX_SEED_LENGTH] stops the loop over the
    seeds with a TypeError; else the seeds are concatenated. *)
Fixpoint concatSeeds (buffer : list byte) (seeds : list (list byte)) : Result (list byte) :=
  match seeds with
  | [] => Ok buffer
  | seed :: r =>
      if (MAX_SEED_LENGTH <? length seed)%nat then Err MaxSeedLengthExceeded
      else concatSeeds (buffer ++ seed) r
  end.

(** The bytes [createProgramAddress] tests against the curve. *)
Definition programAddressBytes (seeds : list (list byte)) (programId : PublicKey)
    : list byte :=
  let buffer :=
    concat seeds ++ PublicKey_toBuffer programId
    ++ bytes_of_string "ProgramDerivedAddress" in
  toArray32 (bytes_to_N (sha256.digest buffer)).

(** [PublicKey.createProgramAddress(seeds, programId)] *)
Definition createProgramAddress (seeds : list (list byte)) (programId : PublicKey)
    : Result PublicKey :=
  let* buffer := concatSeeds [] seeds in
  let buffer :=
    buffer ++ PublicKey_toBuffer programId ++ bytes_of_string "ProgramDerivedAddress" in
  let hash := sha256.digest buffer in
  let publicKeyBytes := toArray32 (bytes_to_N hash) in
  if negb (is_on_curve publicKeyBytes =? 0) then Err InvalidSeeds
  else PublicKey_of_bytes publicKeyBytes.

(** [err instanceof TypeError] *)
Definition isTypeError (e : Error) : bool :=
  match e with
  | MaxSeedLengthExceeded | UndefinedRead | LayoutTypeError => true
  | _ => false
  end.

(** The loop of [findProgramAddress], [nonce] counting down to 1. *)
Fixpoint findProgramAddress_loop (nonce : nat) (seeds : list (list byte))
    (programId : PublicKey) : Result (PublicKey * Z) :=
  match nonce with
  | O => Err NoViableNonce
  | Datatypes.S n =>
      let seedsWithNonce := seeds ++ [[byte_of_Z (Z.of_nat nonce)]] in
      match createProgramAddress seedsWithNonce programId with
      | Ok address => Ok (address, Z.of_nat nonce)
      | Err err =>
          if isTypeError err then Err err
          else findProgramAddress_loop n seeds programId
      end
  end.

(** [PublicKey.findProgramAddress(seeds, programId)] *)
Definition findProgramAddress (seeds : list (list byte)) (programId : PublicKey)
    : Result (PublicKey * Z) :=
  findProgramAddress_loop 255 seeds programId.

Definition BPF_LOADER_DEPRECATED_PROGRAM_ID : PublicKey :=
  Eval vm_compute in
    match PublicKey_of_string "BPFLoader1111111111111111111111111111111111" with
    | Ok k => k
    | Err _ => mkPublicKey 0
    end.

Definition address_text (r : Result PublicKey) : option string :=
  match r with
  | Ok k => Some (PublicKey_toBase58 k)
  | Err _ => None
  end.

Definition found_text (r : Result (PublicKey * Z)) : option (string * Z) :=
  match r with
  | Ok (k, nonce) => Some (PublicKey_toBase58 k, nonce)
  | Err _ => None
  end.

(** Values the tests of the library expect. *)
Example createProgramAddress_empty_one :
  address_text (createProgramAddress [[]; [x01]] BPF_LOADER_DEPRECATED_PROGRAM_ID)
  = Some "3gF2KMe9KiC6FNVBmfg9i267aMPvK37FewCip4eGBFcT"%string.
Proof. vm_compute. reflexivity. Qed.

Example createProgramAddress_talking_squirrels :
  address_text
    (createProgramAddress [bytes_of_string "Talking"; bytes_of_string "Squirrels"]
       BPF_LOADER_DEPRECATED_PROGRAM_ID)
  = Some "HwRVBufQ4haG5XSgpspwKtNd3PC9GM9m1196uJW36vds"%string.
Proof. vm_compute. reflexivity. Qed.

Example findProgramAddress_skips_255 :
  found_text
    (findProgramAddress [bytes_of_string "Lil'"; bytes_of_string "Bits"]
       BPF_LOADER_DEPRECATED_PROGRAM_ID)
  = Some ("4aTjbsz52PNDhsj7mvsKmSKJebAtt5nNxyiNZTkfJZgh"%string, 254).
Proof. vm_compute. reflexivity. Qed.

Example zero_key_on_curve : is_on_curve (repeat x00 32) = 1.
Proof. vm_compute. reflexivity. Qed.

Example base_point_on_curve : PublicKey_isOnCurve (x58 :: repeat x66 31) = true.
Proof. vm_compute. reflexivity. Qed.

Example two_off_curve : PublicKey_isOnCurve (x02 :: repeat x00 31) = false.
Proof. vm_compute. reflexivity. Qed.

(** An array too short for its limbs: the answer is 1.  From 29 bytes on
    the bytes that are missing read as zeros. *)
Example short_array_on_curve :
  PublicKey_isOnCurve [x02] = true
  /\ PublicKey_isOnCurve (x02 :: repeat x00 27) = true
  /\ PublicKey_isOnCurve (x02 :: repeat x00 28) = false.
Proof. vm_compute. repeat split; reflexivity. Qed.

(* ===================================================================== *)
(** ** C6 and C5: deriving and finding program addresses                  *)
(* ===================================================================== *)

Opaque sha256.digest is_on_curve.

Definition too_long (seed : list byte) : bool := (MAX_SEED_LENGTH <? length seed)%nat.

Lemma concatSeeds_short seeds : forall buffer,
  existsb too_long seeds = false ->
  concatSeeds buffer seeds = Ok (buffer ++ concat seeds).
Proof.
  induction seeds as [|seed r IH]; intros buffer; simpl.
  - intros _. rewrite app_nil_r. reflexivity.
  - unfold too_long at 1. destruct (MAX_SEED_LENGTH <? length seed)%nat; simpl; [discriminate|].
    intros H. rewrite IH by exact H. rewrite <- app_assoc. reflexivity.
Qed.

Lemma concatSeeds_long seeds : forall buffer,
  existsb too_long seeds = true ->
  concatSeeds buffer seeds = Err MaxSeedLengthExceeded.
Proof.
  induction seeds as [|seed r IH]; intros buffer; simpl; [discriminate|].
  unfold too_long at 1. destruct (MAX_SEED_LENGTH <? length seed)%nat; simpl; [reflexivity|].
  apply IH.
Qed.

Lemma length_strip_le {A} (p : A -> bool) l : (length (strip p l) <= length l)%nat.
Proof. induction l as [|x r IH]; simpl; [lia|]. destruct (p x); simpl; lia. Qed.

Lemma toArray32_value n : bytes_to_N (toArray32 n) = n.
Proof. unfold toArray32. rewrite bytes_to_N_zeros. apply bytes_to_N_to_bytes. Qed.

Lemma PublicKey_of_array32 (h : list byte) :
  length h = 32%nat ->
  exists k, PublicKey_of_bytes (toArray32 (bytes_to_N h)) = Ok k
            /\ PublicKey_toBytes k = toArray32 (bytes_to_N h).
Proof.
  intros Hh. unfold PublicKey_of_bytes. rewrite toArray32_value.
  assert (Hlen : (byteLength (bytes_to_N h) <= 32)%nat).
  { unfold byteLength. rewrite N_to_bytes_to_N.
    pose proof (length_strip_le is_x00 h) as Hle. lia. }
  destruct (Nat.ltb_spec 32 (byteLength (bytes_to_N h))); [lia|].
  exists (mkPublicKey (bytes_to_N h)). split; reflexivity.
Qed.

(** The three outcomes of [createProgramAddress]. *)
Lemma createProgramAddress_cases seeds programId :
  (existsb too_long seeds = true
   /\ createProgramAddress seeds programId = Err MaxSeedLengthExceeded)
  \/ (existsb too_long seeds = false
      /\ is_on_curve (programAddressBytes seeds programId) <> 0
      /\ createProgramAddress seeds programId = Err InvalidSeeds)
  \/ (existsb too_long seeds = false
      /\ is_on_curve (programAddressBytes seeds programId) = 0
      /\ exists address,
           createProgramAddress seeds programId = Ok address
           /\ PublicKey_toBytes address = programAddressBytes seeds programId).
Proof.
  unfold createProgramAddress, programAddressBytes.
  destruct (existsb too_long seeds) eqn:El.
  - left. rewrite concatSeeds_long by exact El. split; reflexivity.
  - right. rewrite concatSeeds_short by exact El. cbn [bind app].
    pose proof (sha256.digest_length
                  (concat seeds ++ PublicKey_toBuffer programId
                   ++ bytes_of_string "ProgramDerivedAddress")) as Hh.
    generalize dependent (sha256.digest
                  (concat seeds ++ PublicKey_toBuffer programId
                   ++ bytes_of_string "ProgramDerivedAddress")).
    intros h Hh.
    destruct (Z.eqb_spec (is_on_curve (toArray32 (bytes_to_N h))) 0) as [Hc|Hc].
    + right. split; [reflexivity|]. split; [exact Hc|]. cbn [negb].
      apply PublicKey_of_array32. exact Hh.
    + left. split; [reflexivity|]. split; [exact Hc|]. reflexivity.
Qed.

(** C6: [createProgramAddress] fails with the seed-too-long error when a
    seed exceeds 32 bytes; it fails with the invalid-seeds error exactly
    when no seed is too long and the hash of the seeds, the program id and
    "ProgramDerivedAddress" is on the curve; and the bytes of every address
    it returns are that hash and are not on the curve. *)
Theorem createProgramAddress_off_curve
    (seeds : list (list byte)) (programId : PublicKey) :
  ((exists seed, In seed seeds /\ (32 < length seed)%nat) ->
     createProgramAddress seeds programId = Err MaxSeedLengthExceeded)
  /\ (createProgramAddress seeds programId = Err InvalidSeeds <->
        Forall (fun seed => (length seed <= 32)%nat) seeds
        /\ is_on_curve (programAddressBytes seeds programId) <> 0)
  /\ (forall address,
        createProgramAddress seeds programId = Ok address ->
        PublicKey_toBytes address = programAddressBytes seeds programId
        /\ PublicKey_isOnCurve (PublicKey_toBytes address) = false).
Proof.
  assert (Hlong : existsb too_long seeds = true <->
                  exists seed, In seed seeds /\ (32 < length seed)%nat).
  { rewrite existsb_exists. unfold too_long, MAX_SEED_LENGTH.
    split; intros (seed & Hin & Hs); exists seed; split; try exact Hin.
    - apply Nat.ltb_lt. exact Hs.
    - apply Nat.ltb_lt. exact Hs. }
  assert (Hshort : existsb too_long seeds = false <->
                   Forall (fun seed => (length seed <= 32)%nat) seeds).
  { rewrite List.Forall_forall. split.
    - intros H seed Hin. destruct (Nat.le_gt_cases (length seed) 32) as [|Hgt]; [assumption|].
      assert (existsb too_long seeds = true) by (apply Hlong; eauto). congruence.
    - intros H. apply existsb_false. intros seed Hin. specialize (H seed Hin).
      unfold too_long, MAX_SEED_LENGTH. apply Nat.ltb_ge. exact H. }
  destruct (createProgramAddress_cases seeds programId)
    as [[El Hr]|[(El & Hc & Hr)|(El & Hc & address & Hr & Hb)]]; rewrite Hr.
  - split; [reflexivity|]. split; [|discriminate].
    split; [discriminate|]. intros [Hs _]. apply Hshort in Hs. congruence.
  - split; [intros Hex; apply Hlong in Hex; congruence|]. split; [|discriminate].
    split; [intros _|reflexivity]. split; [apply Hshort; exact El | exact Hc].
  - split; [intros Hex; apply Hlong in Hex; congruence|]. split.
    + split; [discriminate|]. intros [_ Hne]. contradiction.
    + intros a [= <-]. split; [exact Hb|].
      unfold PublicKey_isOnCurve. rewrite Hb, Hc. reflexivity.
Qed.

Lemma too_long_with_nonce seeds (b : byte) :
  existsb too_long (seeds ++ [[b]]) = existsb too_long seeds.
Proof. rewrite existsb_app. simpl. apply orb_false_r. Qed.

(** With no seed too long, every attempt of the loop either succeeds or
    fails with the invalid-seeds error, and the loop stops at the first
    success. *)
Lemma findProgramAddress_loop_short seeds programId :
  existsb too_long seeds = false ->
  forall k,
    match findProgramAddress_loop k seeds programId with
    | Ok (address, nonce) =>
        1 <= nonce <= Z.of_nat k
        /\ createProgramAddress (seeds ++ [[byte_of_Z nonce]]) programId = Ok address
        /\ forall n, nonce < n <= Z.of_nat k ->
             createProgramAddress (seeds ++ [[byte_of_Z n]]) programId = Err InvalidSeeds
    | Err e =>
        e = NoViableNonce
        /\ forall n, 1 <= n <= Z.of_nat k ->
             createProgramAddress (seeds ++ [[byte_of_Z n]]) programId = Err InvalidSeeds
    end.
Proof.
  intros Hshort. induction k as [|k IH].
  - simpl. split; [reflexivity|]. intros n Hn. lia.
  - cbn [findProgramAddress_loop].
    destruct (createProgramAddress_cases (seeds ++ [[byte_of_Z (Z.of_nat (S k))]]) programId)
      as [[El _]|[(_ & _ & Hr)|(_ & _ & address & Hr & _)]].
    + rewrite too_long_with_nonce in El. congruence.
    + rewrite Hr. cbn [isTypeError].
      destruct (findProgramAddress_loop k seeds programId) as [[address nonce]|e].
      * destruct IH as (Hn & Hc & Hfail). split; [lia|]. split; [exact Hc|].
        intros n Hn'. destruct (Z.eq_dec n (Z.of_nat (S k))) as [->|Hne]; [exact Hr|].
        apply Hfail. lia.
      * destruct IH as (He & Hfail). split; [exact He|].
        intros n Hn'. destruct (Z.eq_dec n (Z.of_nat (S k))) as [->|Hne]; [exact Hr|].
        apply Hfail. lia.
    + rewrite Hr. split; [lia|]. split; [exact Hr|]. intros n Hn. lia.
Qed.

Definition long_seed : list byte := repeat x00 33.

(** C5, as stated, fails: with a seed of 33 bytes no nonce from 255 down to
    1 gives an address, yet the error is the seed-too-long TypeError of
    [createProgramAddress], rethrown at the first attempt, and not the
    exhausted-nonce error. *)
Lemma findProgramAddress_long_seed_not_exhausted :
  (forall n, 1 <= n <= 255 ->
     exists e, createProgramAddress ([long_seed] ++ [[byte_of_Z n]]) (key 0) = Err e)
  /\ findProgramAddress [long_seed] (key 0) = Err MaxSeedLengthExceeded
  /\ findProgramAddress [long_seed] (key 0) <> Err NoViableNonce.
Proof.
  split; [|split].
  - intros n _. exists MaxSeedLengthExceeded. reflexivity.
  - reflexivity.
  - discriminate.
Qed.

(** C5 (amended): [findProgramAddress] tries the nonces from 255 down, one
    at a time, and returns the first pair (address, nonce) for which
    [createProgramAddress] on the seeds and the one-byte nonce succeeds:
    every nonce above the one returned fails with the invalid-seeds error.
    It tries every nonce down to and including 1, and when no seed exceeds
    32 bytes and no nonce of 1..255 succeeds it fails with the
    exhausted-nonce error.  When a seed exceeds 32 bytes, the seed-too-long
    error of the first attempt is rethrown and no further nonce is tried. *)
Theorem findProgramAddress_first_nonce
    (seeds : list (list byte)) (programId : PublicKey) :
  match findProgramAddress seeds programId with
  | Ok (address, nonce) =>
      1 <= nonce <= 255
      /\ createProgramAddress (seeds ++ [[byte_of_Z nonce]]) programId = Ok address
      /\ forall n, nonce < n <= 255 ->
           createProgramAddress (seeds ++ [[byte_of_Z n]]) programId = Err InvalidSeeds
  | Err e =>
      (e = NoViableNonce
       /\ Forall (fun seed => (length seed <= 32)%nat) seeds
       /\ forall n, 1 <= n <= 255 ->
            createProgramAddress (seeds ++ [[byte_of_Z n]]) programId = Err InvalidSeeds)
      \/ (e = MaxSeedLengthExceeded
          /\ exists seed, In seed seeds /\ (32 < length seed)%nat)
  end.
Proof.
  unfold findProgramAddress. destruct (existsb too_long seeds) eqn:El.
  - cbn [findProgramAddress_loop].
    destruct (createProgramAddress_cases (seeds ++ [[byte_of_Z (Z.of_nat 255)]]) programId)
      as [[_ Hr]|[(El' & _)|(El' & _)]];
      try (rewrite too_long_with_nonce in El'; congruence).
    rewrite Hr. cbn [isTypeError]. right. split; [reflexivity|].
    apply existsb_exists in El as (seed & Hin & Hs). exists seed. split; [exact Hin|].
    unfold too_long, MAX_SEED_LENGTH in Hs. apply Nat.ltb_lt. exact Hs.
  - pose proof (findProgramAddress_loop_short seeds programId El 255) as H.
    destruct (findProgramAddress_loop 255 seeds programId) as [[address nonce]|e].
    + exact H.
    + destruct H as (He & Hfail). left. split; [exact He|]. split; [|exact Hfail].
      apply List.Forall_forall. intros seed Hin.
      destruct (Nat.le_gt_cases (length seed) 32) as [|Hgt]; [assumption|].
      assert (existsb too_long seeds = true).
      { apply existsb_exists. exists seed. split; [exact Hin|].
        unfold too_long, MAX_SEED_LENGTH. apply Nat.ltb_lt. exact Hgt. }
      congruence.
Qed.

Example findProgramAddress_empty_seed :
  found_text (findProgramAddress [[]] BPF_LOADER_DEPRECATED_PROGRAM_ID)
  = Some ("EXWkUCz3YJU9TDVk39ogA4TwoVsUi75ZDhH6yT7acPgQ"%string, 255).
Proof. vm_compute. reflexivity. Qed.

(* ===================================================================== *)
(** ** The request channel: retry on a rate-limit response                *)
(* ===================================================================== *)

Record Response : Type := mkResponse {
  status : Z;
  ok : bool;
  text : string
}.

(** What the callback of the client is called with: [callback(null, text)]
    is [Ok text], [callback(err)] is [Err err]. *)
Definition Callback : Type := Result string.

(** What a request did: the callback value, the requests sent, and the
    delays slept, in order. *)
Record RequestTrace : Type := mkTrace {
  answer : Callback;
  requests : nat;
  sleeps : list Z
}.

Section RpcClient.
(** The network: the outcome of the [n]-th [fetch] of this request, an
    exception or a response. *)
Variable fetch : nat -> Result Response.
Variable disableRetryOnRateLimit : bool.

(** After the loop: [res.text()], then the callback by [res.ok]. *)
Definition deliver (res : Response) : Callback :=
  if ok res then Ok (text res) else Err (HttpError (status res) (text res)).

(** The [for (;;)] loop of the request function.  [sent] counts the
    requests already made.  The counter [too_many_requests_retries] is
    decremented before it is compared with zero, so from zero the loop
    would never stop; the client starts it at 5. *)
Fixpoint requestLoop (too_many_requests_retries : nat) (waitTime : Z) (sent : nat)
    (slept : list Z) : RequestTrace :=
  match fetch sent with
  | Err err => mkTrace (Err err) (S sent) slept
  | Ok res =>
      if negb (status res =? 429) then mkTrace (deliver res) (S sent) slept
      else if disableRetryOnRateLimit then mkTrace (deliver res) (S sent) slept
      else
        match too_many_requests_retries with
        | O => mkTrace (Err DoesNotReturn) (S sent) slept
        | S retries =>
            match retries with
            | O => mkTrace (deliver res) (S sent) slept
            | S _ => requestLoop retries (waitTime * 2) (S sent) (slept ++ [waitTime])
            end
        end
  end.

Definition request : RequestTrace := requestLoop 5 500 O [].

(** The [n]-th response is a rate-limit response. *)
Definition rateLimited (n : nat) : Prop :=
  exists res, fetch n = Ok res /\ status res = 429.

(** What the callback gets for the outcome of a [fetch]. *)
Definition surfaced (r : Result Response) : Callback :=
  match r with
  | Ok res => deliver res
  | Err err => Err err
  end.

Definition backoff (n : nat) : list Z :=
  map (fun j => 500 * 2 ^ Z.of_nat j) (seq 0 n).

Lemma requestLoop_trace retries : forall waitTime sent slept,
  (0 < retries)%nat ->
  exists last,
    (sent <= last < sent + retries)%nat
    /\ requests (requestLoop retries waitTime sent slept) = S last
    /\ sleeps (requestLoop retries waitTime sent slept)
       = slept ++ map (fun j => waitTime * 2 ^ Z.of_nat j) (seq 0 (last - sent))
    /\ answer (requestLoop retries waitTime sent slept) = surfaced (fetch last)
    /\ (forall j, (sent <= j < last)%nat -> rateLimited j)
    /\ (disableRetryOnRateLimit = true -> last = sent)
    /\ ((last < sent + retries - 1)%nat ->
        disableRetryOnRateLimit = true \/ ~ rateLimited last).
Proof.
  induction retries as [|retries IH]; intros waitTime sent slept Hpos; [lia|].
  cbn [requestLoop].
  assert (Hstop_here : forall t : RequestTrace,
            requests t = S sent -> sleeps t = slept -> answer t = surfaced (fetch sent) ->
            (disableRetryOnRateLimit = true \/ ~ rateLimited sent \/ retries = O) ->
            exists last,
              (sent <= last < sent + S retries)%nat
              /\ requests t = S last
              /\ sleeps t
                 = slept ++ map (fun j => waitTime * 2 ^ Z.of_nat j) (seq 0 (last - sent))
              /\ answer t = surfaced (fetch last)
              /\ (forall j, (sent <= j < last)%nat -> rateLimited j)
              /\ (disableRetryOnRateLimit = true -> last = sent)
              /\ ((last < sent + S retries - 1)%nat ->
                  disableRetryOnRateLimit = true \/ ~ rateLimited last)).
  { intros t Hr Hs Ha Hwhy. exists sent. rewrite Nat.sub_diag. cbn [seq map].
    rewrite app_nil_r.
    split; [lia|]. split; [exact Hr|]. split; [exact Hs|]. split; [exact Ha|].
    split; [intros j Hj; lia|]. split; [reflexivity|].
    intros Hlt. destruct Hwhy as [Hd|[Hn|H0]]; [left; exact Hd | right; exact Hn | lia]. }
  destruct (fetch sent) as [res|err] eqn:Hf.
  2:{ apply Hstop_here; try reflexivity.
      right. left. intros (res & Hres & _). congruence. }
  destruct (Z.eqb_spec (status res) 429) as [H429|H429]; cbn [negb].
  2:{ apply Hstop_here; try reflexivity.
      right. left. intros (res' & Hres & Hs). congruence. }
  destruct disableRetryOnRateLimit eqn:Hd.
  { apply Hstop_here; try reflexivity. left. reflexivity. }
  destruct retries as [|retries'].
  { apply Hstop_here; try reflexivity. right. right. reflexivity. }
  clear Hstop_here.
  destruct (IH (waitTime * 2) (S sent) (slept ++ [waitTime]) ltac:(lia))
    as (last & Hrange & Hreq & Hsl & Hans & Hlim & Hdis & Hstop).
  exists last. split; [lia|]. split; [exact Hreq|]. split; [|split; [exact Hans|split; [|split]]].
  - rewrite Hsl, <- app_assoc. f_equal.
    replace (last - sent)%nat with (S (last - S sent)) by lia.
    cbn [seq map app]. f_equal; [cbn; lia|].
    rewrite <- seq_shift, map_map. apply map_ext. intros j.
    rewrite Nat2Z.inj_succ, Z.pow_succ_r by lia. lia.
  - intros j Hj. destruct (Nat.eq_dec j sent) as [->|Hne].
    + exists res. split; assumption.
    + apply Hlim. lia.
  - discriminate.
  - intros Hlt. apply Hstop. lia.
Qed.
End RpcClient.

(* ===================================================================== *)
(** ** C9: retry with backoff                                             *)
(* ===================================================================== *)

(** A node that answers every request with 429. *)
Definition always_rate_limited (n : nat) : Result Response :=
  Ok (mkResponse 429 false "Too Many Requests").

(** C9, as stated, fails: against a node that always answers 429 the
    client sends 5 requests in all, so it retries 4 times, not 5, and
    sleeps 4 times; the fifth rate-limited response goes to the callback. *)
Lemma rate_limited_node_four_retries :
  requests (request always_rate_limited false) = 5%nat
  /\ sleeps (request always_rate_limited false) = [500; 1000; 2000; 4000]
  /\ answer (request always_rate_limited false)
     = Err (HttpError 429 "Too Many Requests")
  /\ (requests (request always_rate_limited false) - 1 <> 5)%nat.
Proof. vm_compute. repeat split; try reflexivity. discriminate. Qed.

(** C9 (amended): a request is sent at most 5 times, the first attempt and
    up to 4 retries.  Every attempt before the last one got a rate-limit
    (429) response, and the client slept before each retry, 500 ms at
    first and twice the previous delay after that.  The outcome of the last
    attempt goes to the callback.  The last attempt is the first one whose
    outcome is not a rate-limit response (another response, successful or
    not, or a failed fetch), or the fifth attempt; when retry on rate limit
    is disabled it is the first attempt. *)
Theorem request_retries_rate_limited
    (fetch : nat -> Result Response) (disableRetryOnRateLimit : bool) :
  let t := request fetch disableRetryOnRateLimit in
  exists last,
    (last < 5)%nat
    /\ requests t = S last
    /\ sleeps t = backoff last
    /\ answer t = surfaced (fetch last)
    /\ (forall j, (j < last)%nat -> rateLimited fetch j)
    /\ (disableRetryOnRateLimit = true -> last = O)
    /\ ((last < 4)%nat ->
        disableRetryOnRateLimit = true \/ ~ rateLimited fetch last).
Proof.
  intros t. subst t. unfold request.
  destruct (requestLoop_trace fetch disableRetryOnRateLimit 5 500 O [] ltac:(lia))
    as (last & Hrange & Hreq & Hsl & Hans & Hlim & Hdis & Hstop).
  exists last. split; [lia|]. split; [exact Hreq|]. split; [|split; [exact Hans|split; [|split]]].
  - rewrite Hsl, Nat.sub_0_r. reflexivity.
  - intros j Hj. apply Hlim. lia.
  - exact Hdis.
  - intros Hlt. apply Hstop. lia.
Qed.

(** A response other than 429 to the first attempt is surfaced at once. *)
Lemma request_other_response_not_retried
    (fetch : nat -> Result Response) (disableRetryOnRateLimit : bool) (res : Response) :
  fetch O = Ok res -> status res <> 429 ->
  request fetch disableRetryOnRateLimit = mkTrace (deliver res) 1 [].
Proof.
  intros Hf Hs. unfold request. cbn [requestLoop]. rewrite Hf.
  destruct (Z.eqb_spec (status res) 429); [contradiction|]. reflexivity.
Qed.

(** With retry disabled a rate-limited response is surfaced at once. *)
Lemma request_retry_disabled (fetch : nat -> Result Response) :
  requests (request fetch true) = 1%nat /\ sleeps (request fetch true) = []
  /\ answer (request fetch true) = surfaced (fetch O).
Proof.
  unfold request. cbn [requestLoop]. destruct (fetch O) as [res|err].
  - destruct (negb (status res =? 429)); repeat split.
  - repeat split.
Qed.

Example request_recovers_after_two :
  request (fun n => if (n <? 2)%nat then Ok (mkResponse 429 false "slow down")
                    else Ok (mkResponse 200 true "{}")) false
  = mkTrace (Ok "{}"%string) 3 [500; 1000].
Proof. vm_compute. reflexivity. Qed.

(* ===================================================================== *)
(** ** The stream channel: subscriptions                                  *)
(* ===================================================================== *)

(** A subscription id that is not [null]: the mark set while the subscribe
    call is on its way, or the number the node gave. *)
Inductive SubscriptionId : Type :=
| Subscribing
| Subscribed (id : Z).

(** A subscription record: its remote id and what was registered with it
    (the callback and the arguments, which nothing here looks into). *)
Record Subscription : Type := mkSubscription {
  subscriptionId : option SubscriptionId;     (* [None]: null *)
  registered : string
}.

Definition set_subscriptionId (v : option SubscriptionId) (s : Subscription) : Subscription :=
  mkSubscription v (registered s).

(** What the client asked of the socket. *)
Inductive SocketCall : Type :=
| Connect
| CloseAfter (ms : Z)                   (* the idle timer that closes the socket *)
| Call (method : string) (id : nat).    (* a subscribe call for the local id *)

Record Connection : Type := mkConnection {
  _rpcWebSocketConnected : bool;
  _rpcWebSocketHeartbeat : bool;          (* the ping timer is set *)
  _rpcWebSocketIdleTimeout : bool;        (* the idle timer is set *)
  _accountChangeSubscriptions : gmap nat Subscription;
  _programAccountChangeSubscriptions : gmap nat Subscription;
  _rootSubscriptions : gmap nat Subscription;
  _signatureSubscriptions : gmap nat Subscription;
  _slotSubscriptions : gmap nat Subscription;
  _logsSubscriptions : gmap nat Subscription;
  _slotUpdateSubscriptions : gmap nat Subscription
}.

(** [Object.keys(map).map(Number)]: the local ids, in increasing order. *)
Definition keysOf (m : gmap nat Subscription) : list nat :=
  merge_sort Nat.le (map fst (map_to_list m)).

Definition resetFamily (m : gmap nat Subscription) : gmap nat Subscription :=
  set_subscriptionId None <$> m.

(** [_resetSubscriptions()] *)
Definition _resetSubscriptions (c : Connection) : Connection :=
  mkConnection
    (_rpcWebSocketConnected c) (_rpcWebSocketHeartbeat c) (_rpcWebSocketIdleTimeout c)
    (resetFamily (_accountChangeSubscriptions c))
    (resetFamily (_programAccountChangeSubscriptions c))
    (resetFamily (_rootSubscriptions c))
    (resetFamily (_signatureSubscriptions c))
    (resetFamily (_slotSubscriptions c))
    (_logsSubscriptions c)
    (resetFamily (_slotUpdateSubscriptions c)).

(** [_subscribe(sub, rpcMethod, rpcArgs)] up to its first [await]: a
    subscription whose id is null is marked and its call goes out. *)
Definition markSubscribing (s : Subscription) : Subscription :=
  match subscriptionId s with
  | None => set_subscriptionId (Some Subscribing) s
  | Some _ => s
  end.

Definition needsCall (m : gmap nat Subscription) (id : nat) : bool :=
  match m !! id with
  | Some {| subscriptionId := None |} => true
  | _ => false
  end.

(** One [for (let id of keys)] loop of [_updateSubscriptions]. *)
Definition subscribeFamily (method : string) (m : gmap nat Subscription)
    : gmap nat Subscription * list SocketCall :=
  (markSubscribing <$> m,
   map (Call method) (List.filter (needsCall m) (keysOf m))).

(** [_updateSubscriptions()]: the connection after it and the calls made
    on the socket. *)
Definition _updateSubscriptions (c : Connection) : Connection * list SocketCall :=
  let accounts := _accountChangeSubscriptions c in
  let programs := _programAccountChangeSubscriptions c in
  let slots := _slotSubscriptions c in
  let slotUpdates := _slotUpdateSubscriptions c in
  let signatures := _signatureSubscriptions c in
  let roots := _rootSubscriptions c in
  let logs := _logsSubscriptions c in
  let none (m : gmap nat Subscription) := (length (keysOf m) =? 0)%nat in
  if none accounts && none programs && none slots && none slotUpdates
     && none signatures && none roots && none logs
  then
    if _rpcWebSocketConnected c
    then (mkConnection false (_rpcWebSocketHeartbeat c) true
            accounts programs roots signatures slots logs slotUpdates,
          [CloseAfter 500])
    else (c, [])
  else
    let connected := _rpcWebSocketConnected c || _rpcWebSocketIdleTimeout c in
    if negb connected
    then (mkConnection false (_rpcWebSocketHeartbeat c) false
            accounts programs roots signatures slots logs slotUpdates,
          [Connect])
    else
      let '(accounts', c1) := subscribeFamily "accountSubscribe" accounts in
      let '(programs', c2) := subscribeFamily "programSubscribe" programs in
      let '(slots', c3) := subscribeFamily "slotSubscribe" slots in
      let '(slotUpdates', c4) := subscribeFamily "slotsUpdatesSubscribe" slotUpdates in
      let '(signatures', c5) := subscribeFamily "signatureSubscribe" signatures in
      let '(roots', c6) := subscribeFamily "rootSubscribe" roots in
      let '(logs', c7) := subscribeFamily "logsSubscribe" logs in
      (mkConnection true (_rpcWebSocketHeartbeat c) false
         accounts' programs' roots' signatures' slots' logs' slotUpdates',
       c1 ++ c2 ++ c3 ++ c4 ++ c5 ++ c6 ++ c7).

Definition set_heartbeat (v : bool) (c : Connection) : Connection :=
  mkConnection (_rpcWebSocketConnected c) v (_rpcWebSocketIdleTimeout c)
    (_accountChangeSubscriptions c) (_programAccountChangeSubscriptions c)
    (_rootSubscriptions c) (_signatureSubscriptions c) (_slotSubscriptions c)
    (_logsSubscriptions c) (_slotUpdateSubscriptions c).

Definition set_connected (v : bool) (c : Connection) : Connection :=
  mkConnection v (_rpcWebSocketHeartbeat c) (_rpcWebSocketIdleTimeout c)
    (_accountChangeSubscriptions c) (_programAccountChangeSubscriptions c)
    (_rootSubscriptions c) (_signatureSubscriptions c) (_slotSubscriptions c)
    (_logsSubscriptions c) (_slotUpdateSubscriptions c).

(** [_wsOnOpen()] *)
Definition _wsOnOpen (c : Connection) : Connection * list SocketCall :=
  _updateSubscriptions (set_heartbeat true (set_connected true c)).

(** [_wsOnClose(code)] *)
Definition _wsOnClose (code : Z) (c : Connection) : Connection * list SocketCall :=
  let c := set_heartbeat false c in
  if code =? 1000 then _updateSubscriptions c
  else (_resetSubscriptions c, []).

(** The seven families of a connection, by the name of their map. *)
Inductive Family : Type :=
| AccountChange | ProgramAccountChange | Root | Signature | Slot | Logs | SlotUpdate.

Definition familyOf (f : Family) (c : Connection) : gmap nat Subscription :=
  match f with
  | AccountChange => _accountChangeSubscriptions c
  | ProgramAccountChange => _programAccountChangeSubscriptions c
  | Root => _rootSubscriptions c
  | Signature => _signatureSubscriptions c
  | Slot => _slotSubscriptions c
  | Logs => _logsSubscriptions c
  | SlotUpdate => _slotUpdateSubscriptions c
  end.

Lemma resetFamily_lookup (m : gmap nat Subscription) (id : nat) :
  resetFamily m !! id = set_subscriptionId None <$> (m !! id).
Proof. unfold resetFamily. apply lookup_fmap. Qed.

Lemma resetFamily_dom (m : gmap nat Subscription) : dom (resetFamily m) = dom m.
Proof. unfold resetFamily. apply dom_fmap_L. Qed.

Lemma markSubscribing_dom (m : gmap nat Subscription) : dom (markSubscribing <$> m) = dom m.
Proof. apply dom_fmap_L. Qed.

(** X1: a close of the stream with a code other than 1000 sends nothing,
    clears the ping timer and leaves the two connection flags as they are.
    Every family keeps its records: no local id is added or lost, and each
    record keeps what was registered with it.  In the account-change,
    program-account-change, root, signature, slot and slot-update families
    the id of every record is null afterwards; in the logs family the id
    of every record is what it was. *)
Lemma wsOnClose_abnormal (code : Z) (c : Connection) (f : Family) (id : nat) :
  code <> 1000 ->
  snd (_wsOnClose code c) = []
  /\ _rpcWebSocketHeartbeat (fst (_wsOnClose code c)) = false
  /\ _rpcWebSocketConnected (fst (_wsOnClose code c)) = _rpcWebSocketConnected c
  /\ _rpcWebSocketIdleTimeout (fst (_wsOnClose code c)) = _rpcWebSocketIdleTimeout c
  /\ match familyOf f c !! id with
     | None => familyOf f (fst (_wsOnClose code c)) !! id = None
     | Some s =>
         familyOf f (fst (_wsOnClose code c)) !! id
         = Some (mkSubscription
                   match f with
                   | Logs => subscriptionId s
                   | _ => None
                   end
                   (registered s))
     end.
Proof.
  intros Hcode. unfold _wsOnClose. destruct (Z.eqb_spec code 1000); [contradiction|].
  cbn [fst snd]. repeat (split; [reflexivity|]).
  destruct f; cbn [familyOf _resetSubscriptions set_heartbeat
                   _accountChangeSubscriptions _programAccountChangeSubscriptions
                   _rootSubscriptions _signatureSubscriptions _slotSubscriptions
                   _logsSubscriptions _slotUpdateSubscriptions];
    rewrite ?resetFamily_lookup;
    match goal with
    | |- context [?m !! id] => destruct (m !! id) as [[sid reg]|]; reflexivity
    end.
Qed.

Lemma familyOf_update (c : Connection) (f : Family) (id : nat) :
  familyOf f (fst (_updateSubscriptions c)) !! id = familyOf f c !! id
  \/ familyOf f (fst (_updateSubscriptions c)) !! id
     = markSubscribing <$> (familyOf f c !! id).
Proof.
  unfold _updateSubscriptions.
  destruct (_ && _).
  - left. destruct (_rpcWebSocketConnected c); destruct f; reflexivity.
  - destruct (negb _).
    + left. destruct f; reflexivity.
    + right. unfold subscribeFamily. cbn [fst]. destruct f; cbn [familyOf];
        apply lookup_fmap.
Qed.

(** X2: a close with the normal-closure code resyncs and touches no id that
    the node had confirmed. *)
Lemma wsOnClose_normal_keeps_confirmed (c : Connection) (f : Family) (id : nat)
    (s : Subscription) (n : Z) :
  familyOf f c !! id = Some s ->
  subscriptionId s = Some (Subscribed n) ->
  familyOf f (fst (_wsOnClose 1000 c)) !! id = Some s.
Proof.
  intros Hs Hn. unfold _wsOnClose. cbn [Z.eqb Pos.eqb].
  assert (Hsame : familyOf f (set_heartbeat false c) = familyOf f c)
    by (destruct f; reflexivity).
  destruct (familyOf_update (set_heartbeat false c) f id) as [H|H];
    rewrite H, Hsame, Hs; [reflexivity|].
  cbn. unfold markSubscribing. rewrite Hn. reflexivity.
Qed.

(* ===================================================================== *)
(** ** C7: what a close of the stream does to the subscriptions           *)
(* ===================================================================== *)

(** A connected client with an account subscription and a logs
    subscription, both confirmed by the node. *)
Definition two_subscriptions : Connection :=
  mkConnection true true false
    {[ 0%nat := mkSubscription (Some (Subscribed 3)) "account" ]}
    ∅ ∅ ∅ ∅
    {[ 0%nat := mkSubscription (Some (Subscribed 7)) "logs" ]}
    ∅.

(** C7 (the code departs from it): [_resetSubscriptions] clears six of the
    seven families and leaves out the logs family, which
    [_updateSubscriptions] does go through.  After a close with code 1006
    the account subscription has its id back at null while the logs
    subscription keeps the id 7 the node gave on the lost stream, and when
    the stream opens again only the account subscription is subscribed
    anew. *)
Theorem wsOnClose_keeps_logs_subscription_id :
  let closed := fst (_wsOnClose 1006 two_subscriptions) in
  _accountChangeSubscriptions closed !! 0%nat = Some (mkSubscription None "account")
  /\ _logsSubscriptions closed !! 0%nat
     = Some (mkSubscription (Some (Subscribed 7)) "logs")
  /\ snd (_wsOnOpen closed) = [Call "accountSubscribe" 0].
Proof. vm_compute. repeat split; reflexivity. Qed.

Example wsOnClose_normal_example :
  _wsOnClose 1000 two_subscriptions = (set_heartbeat false two_subscriptions, []).
Proof. vm_compute. reflexivity. Qed.

(** Three subscriptions of the families that are reset are all subscribed
    again after an abnormal close, once each. *)
Example reconnect_three_subscriptions :
  let c := mkConnection true true false
             {[ 0%nat := mkSubscription (Some (Subscribed 3)) "a";
                1%nat := mkSubscription (Some (Subscribed 4)) "b" ]}
             ∅ ∅ ∅
             {[ 0%nat := mkSubscription (Some (Subscribed 5)) "slot" ]}
             ∅ ∅ in
  snd (_wsOnOpen (fst (_wsOnClose 1006 c)))
  = [Call "accountSubscribe" 0; Call "accountSubscribe" 1; Call "slotSubscribe" 0].
Proof. vm_compute. reflexivity. Qed.

(* ===================================================================== *)
(** ** The blockhash cache and [sendTransaction]                          *)
(* ===================================================================== *)

(** [buffer.toString('base64')] *)
Definition base64_alphabet : string :=
  "ABCDEFGHIJKLMNOPQRSTUVWXYZabcdefghijklmnopqrstuvwxyz0123456789+/".

Definition base64_char (n : Z) : ascii :=
  match String.get (Z.to_nat n) base64_alphabet with
  | Some c => c
  | None => "="%char
  end.

Fixpoint base64 (l : list byte) : string :=
  match l with
  | [] => ""
  | [a] =>
      let a := byte_to_Z a in
      String (base64_char (Z.shiftr a 2))
        (String (base64_char (Z.shiftl (Z.land a 3) 4)) "==")
  | [a; b] =>
      let a := byte_to_Z a in
      let b := byte_to_Z b in
      String (base64_char (Z.shiftr a 2))
        (String (base64_char (Z.lor (Z.shiftl (Z.land a 3) 4) (Z.shiftr b 4)))
           (String (base64_char (Z.shiftl (Z.land b 15) 2)) "="))
  | a :: b :: c :: r =>
      let a := byte_to_Z a in
      let b := byte_to_Z b in
      let c := byte_to_Z c in
      String (base64_char (Z.shiftr a 2))
        (String (base64_char (Z.lor (Z.shiftl (Z.land a 3) 4) (Z.shiftr b 4)))
           (String (base64_char (Z.lor (Z.shiftl (Z.land b 15) 2) (Z.shiftr c 6)))
              (String (base64_char (Z.land c 63)) (base64 r))))
  end.

Example base64_Man : map base64 [bytes_of_string "Man"; bytes_of_string "Ma";
                                 bytes_of_string "M"; bytes_of_string "light w"]
                     = ["TWFu"; "TWE="; "TQ=="; "bGlnaHQgdw=="]%string.
Proof. vm_compute. reflexivity. Qed.

(** The object kept in [_blockhashInfo]. *)
Record BlockhashInfo : Type := mkBlockhashInfo {
  bi_recentBlockhash : option string;
  lastFetch : Z;
  transactionSignatures : list string;
  simulatedSignatures : list string
}.

(** The fields of [Connection] the blockhash cache lives in. *)
Record BlockhashCache : Type := mkBlockhashCache {
  _disableBlockhashCaching : bool;
  _pollingBlockhash : bool;
  _blockhashInfo : BlockhashInfo
}.

(** The cache of a new [Connection]. *)
Definition new_cache : BlockhashCache :=
  mkBlockhashCache false false (mkBlockhashInfo None 0 [] []).

(** What a run sees of the outside: the clock, in milliseconds, and how
    many [getRecentBlockhash] requests the node has answered. *)
Record World : Type := mkWorld {
  clock : Z;
  blockhashRequests : nat
}.

Definition BLOCKHASH_CACHE_TIMEOUT_MS : Z := 30 * 1000.
Definition NUM_TICKS_PER_SECOND : Z := 160.
Definition DEFAULT_TICKS_PER_SLOT : Z := 64.
(** [MS_PER_SLOT = 1000 / (NUM_TICKS_PER_SECOND / DEFAULT_TICKS_PER_SLOT)],
    a division of floats: 1000 / 2.5 = 400. *)
Definition MS_PER_SLOT : Z := 1000 * DEFAULT_TICKS_PER_SLOT / NUM_TICKS_PER_SECOND.

Definition sleep (ms : Z) (w : World) : World := mkWorld (clock w + ms) (blockhashRequests w).

Definition set_polling (b : bool) (c : BlockhashCache) : BlockhashCache :=
  mkBlockhashCache (_disableBlockhashCaching c) b (_blockhashInfo c).

Definition set_blockhashInfo (i : BlockhashInfo) (c : BlockhashCache) : BlockhashCache :=
  mkBlockhashCache (_disableBlockhashCaching c) (_pollingBlockhash c) i.

(** [this._blockhashInfo.transactionSignatures.push(signature)] *)
Definition push_transactionSignature (s : string) (c : BlockhashCache) : BlockhashCache :=
  let i := _blockhashInfo c in
  set_blockhashInfo
    (mkBlockhashInfo (bi_recentBlockhash i) (lastFetch i)
       (transactionSignatures i ++ [s]) (simulatedSignatures i)) c.

(** [cached != blockhash], the cached value being null or a string. *)
Definition differs (cached : option string) (blockhash : string) : bool :=
  match cached with
  | Some s => negb (String.eqb s blockhash)
  | None => true
  end.

Definition set_recentBlockhash (b : string) (tx : Transaction.t) : Transaction.t :=
  Transaction.mk (Transaction.signatures tx) (Transaction.feePayer tx)
    (Transaction.instructions tx) (Some b) (Transaction.nonceInfo tx).

Section SendTransaction.
Variable nacl_sign : list byte -> list byte -> list byte.
Variable nacl_verify : list byte -> list byte -> list byte -> bool.
(** The node: the blockhash it gives to its n-th [getRecentBlockhash]
    request (or the error of that request), the time a request takes, and
    its answer to [sendRawTransaction]. *)
Variable getRecentBlockhash : nat -> Result string.
Variable latency : Z.
Variable sendRawTransaction : list byte -> Result string.

(** The loop of [_pollNewBlockhash], [tries] rounds before it gives up. *)
Fixpoint pollLoop (tries : nat) (c : BlockhashCache) (w : World)
    : BlockhashCache * World * Result string :=
  match tries with
  | O => (c, w, Err BlockhashTimeout)
  | S tries' =>
      let answer := getRecentBlockhash (blockhashRequests w) in
      let w := mkWorld (clock w + latency) (S (blockhashRequests w)) in
      match answer with
      | Err e => (c, w, Err e)
      | Ok blockhash =>
          if differs (bi_recentBlockhash (_blockhashInfo c)) blockhash then
            (set_blockhashInfo (mkBlockhashInfo (Some blockhash) (clock w) [] []) c,
             w, Ok blockhash)
          else pollLoop tries' c (sleep (MS_PER_SLOT / 2) w)
      end
  end.

(** [_pollNewBlockhash()]; the [finally] clears the flag on every way out. *)
Definition _pollNewBlockhash (c : BlockhashCache) (w : World)
    : BlockhashCache * World * Result string :=
  let c := set_polling true c in
  let '(c, w, r) := pollLoop 50 c w in
  (set_polling false c, w, r).

(** [_recentBlockhash(disableCache)].  In a run where nothing else is
    scheduled the wait for [_pollingBlockhash] ends at once or never. *)
Definition _recentBlockhash (disableCache : bool) (c : BlockhashCache) (w : World)
    : BlockhashCache * World * Result string :=
  if negb disableCache then
    if _pollingBlockhash c then (c, w, Err DoesNotReturn)
    else
      let timeSinceFetch := clock w - lastFetch (_blockhashInfo c) in
      let expired := BLOCKHASH_CACHE_TIMEOUT_MS <=? timeSinceFetch in
      match bi_recentBlockhash (_blockhashInfo c) with
      | Some cached => if negb expired then (c, w, Ok cached) else _pollNewBlockhash c w
      | None => _pollNewBlockhash c w
      end
  else _pollNewBlockhash c w.

(** The [for (;;)] loop of [sendTransaction]; [fuel] bounds its rounds. *)
Fixpoint signLoop (fuel : nat) (signers : list Signer) (disableCache : bool)
    (c : BlockhashCache) (w : World) (tx : Transaction.t)
    : BlockhashCache * World * Transaction.t * Result unit :=
  match fuel with
  | O => (c, w, tx, Err OutOfFuel)
  | S fuel' =>
      match _recentBlockhash disableCache c w with
      | (c, w, Err e) => (c, w, tx, Err e)
      | (c, w, Ok blockhash) =>
          let tx := set_recentBlockhash blockhash tx in
          match sign nacl_sign nacl_verify signers tx with
          | (tx, Err e) => (c, w, tx, Err e)
          | (tx, Ok _) =>
              match primarySignature tx with
              | None => (c, w, tx, Err NoSignature)
              | Some sig =>
                  let signature := base64 sig in
                  if negb (includes (transactionSignatures (_blockhashInfo c)) signature)
                  then (push_transactionSignature signature c, w, tx, Ok tt)
                  else signLoop fuel' signers true c w tx
              end
          end
      end
  end.

(** [sendTransaction(transaction, signers)].  Two rounds of the loop are
    always enough ([signLoop_two_rounds]). *)
Definition sendTransaction (transaction : Transaction.t) (signers : list Signer)
    (c : BlockhashCache) (w : World)
    : BlockhashCache * World * Transaction.t * Result string :=
  let '(c, w, transaction, signed) :=
    match Transaction.nonceInfo transaction with
    | Some _ =>
        let '(transaction, r) := sign nacl_sign nacl_verify signers transaction in
        (c, w, transaction, r)
    | None => signLoop 2 signers (_disableBlockhashCaching c) c w transaction
    end in
  match signed with
  | Err e => (c, w, transaction, Err e)
  | Ok _ =>
      match serialize nacl_verify transaction with
      | (transaction, Err e) => (c, w, transaction, Err e)
      | (transaction, Ok wireTransaction) =>
          (c, mkWorld (clock w + latency) (blockhashRequests w), transaction,
           sendRawTransaction wireTransaction)
      end
  end.

(** *** Properties of the blockhash cache *)

Lemma differs_true cached b : differs cached b = true -> cached <> Some b.
Proof.
  destruct cached as [s|]; simpl; [|discriminate].
  intros H [= ->]. rewrite String.eqb_refl in H. discriminate.
Qed.

(** A blockhash the poll returns is new, was asked from the node, and
    starts an empty set of signatures. *)
Lemma pollLoop_Ok tries : forall c w c' w' b,
  pollLoop tries c w = (c', w', Ok b) ->
  _blockhashInfo c' = mkBlockhashInfo (Some b) (clock w') [] []
  /\ bi_recentBlockhash (_blockhashInfo c) <> Some b
  /\ (blockhashRequests w < blockhashRequests w')%nat
  /\ _disableBlockhashCaching c' = _disableBlockhashCaching c.
Proof.
  induction tries as [|n IH]; intros c w c' w' b; simpl.
  - discriminate.
  - destruct (getRecentBlockhash (blockhashRequests w)) as [blockhash|e]; [|discriminate].
    destruct (differs _ blockhash) eqn:Ed.
    + intros [= <- <- <-]. simpl. split; [reflexivity|]. split; [|split; [lia|reflexivity]].
      apply differs_true. exact Ed.
    + intros H. apply IH in H as (Hi & Hn & Hr & Hd). simpl in Hr.
      split; [exact Hi|]. split; [exact Hn|]. split; [lia|exact Hd].
Qed.

Lemma pollNewBlockhash_Ok c w c' w' b :
  _pollNewBlockhash c w = (c', w', Ok b) ->
  _blockhashInfo c' = mkBlockhashInfo (Some b) (clock w') [] []
  /\ bi_recentBlockhash (_blockhashInfo c) <> Some b
  /\ (blockhashRequests w < blockhashRequests w')%nat
  /\ _disableBlockhashCaching c' = _disableBlockhashCaching c
  /\ _pollingBlockhash c' = false.
Proof.
  unfold _pollNewBlockhash.
  destruct (pollLoop 50 (set_polling true c) w) as [[c1 w1] r] eqn:E.
  intros [= <- <- ->]. apply pollLoop_Ok in E as (Hi & Hn & Hr & Hd).
  simpl in *. repeat split; assumption.
Qed.

(** [_recentBlockhash] answers from the cache, leaving everything as it
    is, or with a blockhash that is new. *)
Lemma recentBlockhash_Ok disableCache c w c' w' b :
  _recentBlockhash disableCache c w = (c', w', Ok b) ->
  bi_recentBlockhash (_blockhashInfo c') = Some b
  /\ _disableBlockhashCaching c' = _disableBlockhashCaching c
  /\ ((c' = c /\ w' = w /\ disableCache = false)
      \/ (transactionSignatures (_blockhashInfo c') = []
          /\ bi_recentBlockhash (_blockhashInfo c) <> Some b
          /\ (blockhashRequests w < blockhashRequests w')%nat)).
Proof.
  assert (Hpoll : _pollNewBlockhash c w = (c', w', Ok b) ->
    bi_recentBlockhash (_blockhashInfo c') = Some b
    /\ _disableBlockhashCaching c' = _disableBlockhashCaching c
    /\ ((c' = c /\ w' = w /\ disableCache = false)
        \/ (transactionSignatures (_blockhashInfo c') = []
            /\ bi_recentBlockhash (_blockhashInfo c) <> Some b
            /\ (blockhashRequests w < blockhashRequests w')%nat))).
  { intros H. apply pollNewBlockhash_Ok in H as (Hi & Hn & Hr & Hd & _).
    rewrite Hi. simpl. split; [reflexivity|]. split; [exact Hd|].
    right. split; [reflexivity|]. split; assumption. }
  unfold _recentBlockhash. destruct disableCache; simpl; [exact Hpoll|].
  destruct (_pollingBlockhash c); [discriminate|].
  destruct (bi_recentBlockhash (_blockhashInfo c)) as [cached|] eqn:Ec; [|exact Hpoll].
  destruct (BLOCKHASH_CACHE_TIMEOUT_MS <=? _); simpl; [exact Hpoll|].
  intros [= <- <- <-]. split; [exact Ec|]. split; [reflexivity|].
  left. repeat split; reflexivity.
Qed.

(** One round of the loop. *)
Definition signRound (continue : bool -> BlockhashCache -> World -> Transaction.t ->
                                 BlockhashCache * World * Transaction.t * Result unit)
    (signers : list Signer) (disableCache : bool)
    (c : BlockhashCache) (w : World) (tx : Transaction.t)
    : BlockhashCache * World * Transaction.t * Result unit :=
  match _recentBlockhash disableCache c w with
  | (c, w, Err e) => (c, w, tx, Err e)
  | (c, w, Ok blockhash) =>
      let tx := set_recentBlockhash blockhash tx in
      match sign nacl_sign nacl_verify signers tx with
      | (tx, Err e) => (c, w, tx, Err e)
      | (tx, Ok _) =>
          match primarySignature tx with
          | None => (c, w, tx, Err NoSignature)
          | Some sig =>
              let signature := base64 sig in
              if negb (includes (transactionSignatures (_blockhashInfo c)) signature)
              then (push_transactionSignature signature c, w, tx, Ok tt)
              else continue true c w tx
          end
      end
  end.

Lemma signLoop_S fuel signers disableCache c w tx :
  signLoop (S fuel) signers disableCache c w tx
  = signRound (signLoop fuel signers) signers disableCache c w tx.
Proof. reflexivity. Qed.

(** A round that was told to leave the cache aside is the last one. *)
Lemma signRound_forced k k' signers c w tx :
  signRound k signers true c w tx = signRound k' signers true c w tx.
Proof.
  unfold signRound.
  destruct (_recentBlockhash true c w) as [[c1 w1] [b|e]] eqn:E; [|reflexivity].
  apply recentBlockhash_Ok in E as (_ & _ & [(_ & _ & [=]) | (Hempty & _)]).
  rewrite Hempty. cbv zeta.
  destruct (sign nacl_sign nacl_verify signers (set_recentBlockhash b tx)) as [tx1 [u|e]];
    [|reflexivity].
  destruct (primarySignature tx1); reflexivity.
Qed.

(** X3: the loop ends within two rounds: more fuel changes nothing. *)
Lemma signLoop_two_rounds n signers disableCache c w tx :
  signLoop (S (S n)) signers disableCache c w tx = signLoop 2 signers disableCache c w tx.
Proof.
  rewrite (signLoop_S (S n)), (signLoop_S 1). unfold signRound.
  destruct (_recentBlockhash disableCache c w) as [[c1 w1] [b|e]]; [|reflexivity].
  cbv zeta.
  destruct (sign nacl_sign nacl_verify signers (set_recentBlockhash b tx)) as [tx1 [u|e]];
    [|reflexivity].
  destruct (primarySignature tx1); [|reflexivity].
  destruct (negb _); [reflexivity|].
  rewrite (signLoop_S n), (signLoop_S 0). apply signRound_forced.
Qed.

(** *** What [sign] leaves in the first signature slot *)

Lemma bindM_Ok {A C} (m : Method A) (k : A -> Method C) tx tx' c :
  bindM m k tx = (tx', Ok c) ->
  exists a tx1, m tx = (tx1, Ok a) /\ k a tx1 = (tx', Ok c).
Proof.
  unfold bindM. destruct (m tx) as [tx1 [a|e]]; [|discriminate].
  intros H. exists a, tx1. split; [reflexivity|exact H].
Qed.

(** A compiled message depends on the blockhash of the transaction only
    in its own blockhash. *)
Lemma compileBody_blockhash sigs fp ixs b ni m :
  Transaction.compileBody (Transaction.mk sigs fp ixs (Some b) ni) = Ok m ->
  b <> ""%string
  /\ Message.recentBlockhash m = b
  /\ forall b', b' <> ""%string ->
       Transaction.compileBody (Transaction.mk sigs fp ixs (Some b') ni)
       = Ok (Message.mk (Message.header m) (Message.accountKeys m) b'
               (Message.instructions m)).
Proof.
  unfold Transaction.compileBody, Transaction.chooseFeePayer, Transaction.uniqueMetasOf.
  cbn [Transaction.recentBlockhash Transaction.feePayer Transaction.instructions
       Transaction.signatures].
  intros H. destruct (String.eqb b "") eqn:Eb; [discriminate|].
  cbn [bind] in H.
  inv_bind_as H payer Epayer. inv_bind_as H u Echeck. inv_bind_as H um Eum.
  inv_bind_as H cix Eixs. inv_bind_as H asserted Eassert.
  unfold Message.new in H. inv_bind_as H ks Eks. injection H as <-.
  split; [intros ->; discriminate|]. split; [reflexivity|].
  intros b' Hb'. apply String.eqb_neq in Hb'. rewrite Hb'. cbn [bind].
  rewrite Epayer. cbn [bind]. rewrite Echeck. cbn [bind]. rewrite Eum. cbn [bind].
  rewrite Eixs. cbn [bind]. rewrite Eassert. cbn [bind].
  unfold Message.new. rewrite Eks. reflexivity.
Qed.

(** The signature list [_compile] leaves: the one it found, or null
    signatures for the keys the message requires. *)
Definition compiledSignatures (sigs : list SignaturePubkeyPair) (m : Message.t)
    : list SignaturePubkeyPair :=
  let signedKeys :=
    slice_to (Message.accountKeys m) (numRequiredSignatures (Message.header m)) in
  if (length sigs =? length signedKeys)%nat
     && every2 (fun pair key =>
                  match publicKey pair with
                  | Some k => PublicKey_equals key k
                  | None => false
                  end) sigs signedKeys
  then sigs
  else map (fun k => mkPair None (Some k)) signedKeys.

Lemma compile_eq sigs fp ixs rb :
  _compile (Transaction.mk sigs fp ixs rb None)
  = match Transaction.compileBody (Transaction.mk sigs fp ixs rb None) with
    | Ok m => (Transaction.mk (compiledSignatures sigs m) fp ixs rb None, Ok m)
    | Err e => (Transaction.mk sigs fp ixs rb None, Err e)
    end.
Proof.
  unfold _compile, bindM, Transaction.compileMessage, Transaction.applyNonce,
    compiledSignatures, this.
  cbn [Transaction.nonceInfo Transaction.signatures].
  destruct (Transaction.compileBody _) as [m|e]; [|reflexivity].
  destruct (_ && _); reflexivity.
Qed.

(** The signer [_addSignature] is called for last with a key that equals
    [k] leaves its signature in the slot of [k]. *)
Definition ownsSlot (p : SignaturePubkeyPair) (signer : Signer) : bool :=
  match publicKey p with
  | Some k => PublicKey_equals (signer_publicKey signer) k
  | None => false
  end.

Fixpoint lastSecret (signers : list Signer) (p : SignaturePubkeyPair)
    : option (list byte) :=
  match signers with
  | [] => None
  | signer :: r =>
      match lastSecret r p with
      | Some sk => Some sk
      | None => if ownsSlot p signer then Some (secretKey signer) else None
      end
  end.

Lemma lastSecret_In signers p sk :
  lastSecret signers p = Some sk -> In sk (map secretKey signers).
Proof.
  induction signers as [|s r IH]; simpl; [discriminate|].
  destruct (lastSecret r p) as [sk'|].
  - intros [= <-]. right. apply IH. reflexivity.
  - destruct (ownsSlot p s); [|discriminate]. intros [= <-]. left. reflexivity.
Qed.

Lemma dedupeSigners_In signers : forall seen s,
  In s (dedupeSigners seen signers) -> In s signers.
Proof.
  induction signers as [|x r IH]; intros seen s; simpl; [tauto|].
  destruct (includes seen _).
  - intros H. right. exact (IH _ _ H).
  - intros [<-|H]; [left; reflexivity|right; exact (IH _ _ H)].
Qed.

Definition signedSlot (signData : list byte) (signers : list Signer)
    (p : SignaturePubkeyPair) : SignaturePubkeyPair :=
  match lastSecret signers p with
  | Some sk => mkPair (Some (nacl_sign signData sk)) (publicKey p)
  | None => p
  end.

Lemma forEach_addSignature signData : forall signers sigs fp ixs rb ni tx',
  forEachM (fun signer =>
              _addSignature (signer_publicKey signer)
                (nacl_sign signData (secretKey signer))) signers
    (Transaction.mk sigs fp ixs rb ni) = (tx', Ok tt) ->
  exists sigs',
    tx' = Transaction.mk sigs' fp ixs rb ni
    /\ hd_error sigs' = option_map (signedSlot signData signers) (hd_error sigs).
Proof.
  induction signers as [|s r IH]; intros sigs fp ixs rb ni tx'.
  - cbn [forEachM]. unfold ret. intros [= <-]. exists sigs. split; [reflexivity|].
    destruct sigs as [|[sg k] R]; reflexivity.
  - cbn [forEachM]. intros H. apply bindM_Ok in H as (u & tx1 & Hadd & Hrest).
    unfold _addSignature in Hadd.
    destruct (negb _); [discriminate|].
    unfold bindM, this in Hadd. cbn [Transaction.signatures] in Hadd.
    destruct (find_index _ sigs) as [index|] eqn:Ei; [|discriminate].
    unfold set_signatures in Hadd. cbn in Hadd. injection Hadd as <-.
    apply IH in Hrest as (sigs' & -> & Hhd). exists sigs'. split; [reflexivity|].
    rewrite Hhd. destruct sigs as [|p0 R]; [discriminate|].
    cbn [find_index] in Ei. cbn [hd_error option_map].
    unfold signedSlot. cbn [lastSecret]. unfold ownsSlot.
    destruct (match publicKey p0 with
              | Some k => PublicKey_equals (signer_publicKey s) k
              | None => false
              end) eqn:Eown.
    + injection Ei as <-. cbn [modify hd_error option_map].
      unfold set_signature. cbn [publicKey].
      replace (lastSecret r (mkPair (Some (nacl_sign signData (secretKey s))) (publicKey p0)))
        with (lastSecret r p0).
      * destruct (lastSecret r p0); reflexivity.
      * clear. induction r as [|x r IH]; [reflexivity|]. cbn [lastSecret].
        rewrite IH. reflexivity.
    + destruct (find_index _ R) as [j|]; [|discriminate]. injection Ei as <-.
      cbn [modify hd_error option_map].
      destruct (lastSecret r p0); reflexivity.
Qed.

(** The signature list [sign] starts from. *)
Definition signerSlots (signers : list Signer) : list SignaturePubkeyPair :=
  map (fun signer => mkPair None (Some (signer_publicKey signer)))
      (dedupeSigners [] signers).

(** The bytes [sign] signs for a transaction once its blockhash is [b]. *)
Definition signDataUnder (signers : list Signer) (tx : Transaction.t) (b : string)
    : Result (list byte) :=
  snd (serializeMessage
         (Transaction.mk (signerSlots signers) (Transaction.feePayer tx)
            (Transaction.instructions tx) (Some b) None)).

Lemma sign_Ok signers sigs fp ixs b tx' :
  sign nacl_sign nacl_verify signers (Transaction.mk sigs fp ixs (Some b) None)
  = (tx', Ok tt) ->
  exists m d sigs',
    Transaction.compileBody (Transaction.mk (signerSlots signers) fp ixs (Some b) None)
    = Ok m
    /\ Message.serialize m = Ok d
    /\ tx' = Transaction.mk sigs' fp ixs (Some b) None
    /\ hd_error sigs'
       = option_map (signedSlot d (dedupeSigners [] signers))
           (hd_error (compiledSignatures (signerSlots signers) m)).
Proof.
  unfold sign. destruct signers as [|s0 r]; [discriminate|].
  set (signers := s0 :: r). intros H.
  apply bindM_Ok in H as (u & tx1 & Hset & H).
  unfold set_signatures in Hset.
  cbn [Transaction.feePayer Transaction.instructions Transaction.recentBlockhash
       Transaction.nonceInfo] in Hset.
  injection Hset as <- _. fold (signerSlots signers) in H.
  apply bindM_Ok in H as (m & tx2 & Hcompile & H).
  rewrite compile_eq in Hcompile.
  destruct (Transaction.compileBody _) as [m'|e] eqn:Em; [|discriminate].
  injection Hcompile as <- <-.
  apply bindM_Ok in H as (u' & tx3 & Hpartial & H).
  unfold _partialSign in Hpartial.
  apply bindM_Ok in Hpartial as (d & tx4 & Hd & Hpartial).
  unfold lift in Hd. injection Hd as <- Hd.
  destruct u'. apply forEach_addSignature in Hpartial as (sigs' & -> & Hhd).
  apply bindM_Ok in H as (d' & tx5 & Hl & H).
  unfold lift in Hl. injection Hl as <- _.
  unfold bindM, this, ret in H. injection H as <-.
  exists m', d, sigs'. repeat split; assumption.
Qed.

Lemma signDataUnder_eq signers tx b m d :
  Transaction.compileBody
    (Transaction.mk (signerSlots signers) (Transaction.feePayer tx)
       (Transaction.instructions tx) (Some b) None) = Ok m ->
  Message.serialize m = Ok d ->
  signDataUnder signers tx b = Ok d.
Proof.
  intros Hm Hd. unfold signDataUnder, serializeMessage, bindM.
  rewrite compile_eq, Hm. unfold lift. exact Hd.
Qed.

(** The slots [sign] starts from and the slots [_compile] resets to have
    no signature; which of the two [_compile] leaves does not depend on
    the blockhash. *)
Lemma compiledSignatures_hd_unsigned signers m p :
  hd_error (compiledSignatures (signerSlots signers) m) = Some p -> signature p = None.
Proof.
  unfold compiledSignatures, signerSlots.
  destruct (_ && _).
  - destruct (dedupeSigners [] signers); simpl; [discriminate|]. intros [= <-]. reflexivity.
  - destruct (slice_to _ _); simpl; [discriminate|]. intros [= <-]. reflexivity.
Qed.

Lemma signedSlot_unsigned d signers p s :
  signature p = None ->
  signature (signedSlot d signers p) = Some s ->
  exists sk, lastSecret signers p = Some sk /\ s = nacl_sign d sk.
Proof.
  unfold signedSlot. intros Hp. destruct (lastSecret signers p) as [sk|].
  - simpl. intros [= <-]. exists sk. split; reflexivity.
  - rewrite Hp. discriminate.
Qed.

(** Two messages that differ in their blockhash only serialize to
    different bytes: the 32 bytes of the blockhash lie inside the 2048. *)
Lemma serialize_blockhash_differs h ks cix b1 b2 d1 d2 :
  Message.serialize (Message.mk h ks b1 cix) = Ok d1 ->
  Message.serialize (Message.mk h ks b2 cix) = Ok d2 ->
  b1 <> b2 -> d1 <> d2.
Proof.
  unfold Message.serialize, Message.sections.
  cbn [Message.accountKeys Message.instructions Message.recentBlockhash Message.header].
  intros H1 H2 Hb Hd.
  inv_bind_as H1 laid1 E1. inv_bind_as H2 laid2 E2.
  destruct laid1 as [sd1 ib1], laid2 as [sd2 ib2].
  injection H1 as <-. injection H2 as <-.
  inv_bind_as E1 keyCount Ek. rewrite Ek in E2. cbn [bind] in E2.
  inv_bind_as E1 prepared Ep. rewrite Ep in E2. cbn [bind] in E2.
  inv_bind_as E1 instructionCount Ec. rewrite Ec in E2. cbn [bind] in E2.
  inv_bind_as E1 instructionBuffer Ei. rewrite Ei in E2. cbn [bind] in E2.
  inv_bind_as E1 blob1 Eb1. inv_bind_as E2 blob2 Eb2.
  inv_bind_as E1 sd Es. rewrite Es in E2. cbn [bind] in E2.
  inv_bind_as E1 sdk Esk. rewrite Esk in E2. cbn [bind] in E2.
  inv_bind_as E1 out1 Eo1. inv_bind_as E2 out2 Eo2.
  injection E1 as <- <-. injection E2 as <- <-.
  apply put_blob_Ok in Eo1 as (-> & Hl1 & Hc1).
  apply put_blob_Ok in Eo2 as (-> & Hl2 & Hc2).
  apply of_option_Ok in Eb1, Eb2.
  apply bs58.encode_decode in Eb1, Eb2.
  apply Hb. rewrite <- Eb1, <- Eb2. f_equal.
  rewrite length_app in Hc1, Hc2.
  apply (f_equal (firstn (length sdk + PUBKEY_LENGTH))) in Hd.
  rewrite !firstn_firstn in Hd.
  rewrite Nat.min_l in Hd by lia.
  rewrite <- !app_assoc in Hd.
  rewrite !firstn_app in Hd.
  rewrite !firstn_all2 in Hd by lia.
  replace (length sdk + PUBKEY_LENGTH - length sdk)%nat with PUBKEY_LENGTH in Hd by lia.
  apply app_inv_head in Hd.
  rewrite Hl1, Hl2, !Nat.sub_diag in Hd.
  rewrite (firstn_all2 (n := PUBKEY_LENGTH) blob2) in Hd by lia.
  cbn [firstn] in Hd. rewrite !app_nil_r in Hd. exact Hd.
Qed.

Lemma sign_reset signers sigs fp ixs rb ni :
  signers <> [] ->
  sign nacl_sign nacl_verify signers (Transaction.mk sigs fp ixs rb ni)
  = sign nacl_sign nacl_verify signers (Transaction.mk [] fp ixs rb ni).
Proof.
  destruct signers as [|s0 r]; [congruence|]. intros _.
  unfold sign, bindM at 1 3, set_signatures.
  cbn [Transaction.feePayer Transaction.instructions Transaction.recentBlockhash
       Transaction.nonceInfo].
  reflexivity.
Qed.

(** The primary signature after [sign]: the sign data of the compiled
    message, signed with the secret key of the signer that owns the first
    slot. *)
Lemma sign_primary signers sigs fp ixs b tx' s :
  sign nacl_sign nacl_verify signers (Transaction.mk sigs fp ixs (Some b) None)
  = (tx', Ok tt) ->
  primarySignature tx' = Some s ->
  exists sigs' m d p sk,
    tx' = Transaction.mk sigs' fp ixs (Some b) None
    /\ Transaction.compileBody (Transaction.mk (signerSlots signers) fp ixs (Some b) None)
       = Ok m
    /\ Message.serialize m = Ok d
    /\ hd_error (compiledSignatures (signerSlots signers) m) = Some p
    /\ lastSecret (dedupeSigners [] signers) p = Some sk
    /\ s = nacl_sign d sk.
Proof.
  intros H Hs. apply sign_Ok in H as (m & d & sigs' & Hm & Hd & -> & Hhd).
  unfold primarySignature in Hs. cbn [Transaction.signatures] in Hs.
  destruct sigs' as [|p' R]; [discriminate|]. cbn [hd_error] in Hhd.
  destruct (hd_error (compiledSignatures (signerSlots signers) m)) as [p|] eqn:Ep;
    [|discriminate].
  cbn [option_map] in Hhd. injection Hhd as ->.
  apply signedSlot_unsigned in Hs as (sk & Hsk & ->);
    [|exact (compiledSignatures_hd_unsigned _ _ _ Ep)].
  exists (signedSlot d (dedupeSigners [] signers) p :: R), m, d, p, sk.
  repeat split; assumption.
Qed.

(** [serialize] leaves a transaction it returns for as it found it. *)
Lemma serialize_keeps sigs fp ixs rb tx' wire :
  serialize nacl_verify (Transaction.mk sigs fp ixs rb None) = (tx', Ok wire) ->
  tx' = Transaction.mk sigs fp ixs rb None.
Proof.
  intros H. unfold serialize in H. apply bindM_Ok in H as (d & tx2 & Hsm & H).
  unfold serializeMessage in Hsm. apply bindM_Ok in Hsm as (m & tx3 & Hc & Hl).
  rewrite compile_eq in Hc.
  destruct (Transaction.compileBody _) as [m'|e] eqn:Em; [|discriminate].
  injection Hc as <- <-. unfold lift in Hl. injection Hl as <- Hd.
  apply bindM_Ok in H as (tx4 & tx5 & Hthis & H).
  unfold this in Hthis. injection Hthis as <- <-.
  destruct (_verifySignatures nacl_verify _ d true) eqn:Ev; cbn [negb] in H;
    [|discriminate].
  assert (Hsame : tx' = Transaction.mk (compiledSignatures sigs m') fp ixs rb None).
  { unfold _serialize, bindM, this, lift in H.
    destruct (encodeLength _); [|discriminate].
    destruct (negb _); [discriminate|].
    destruct (negb _); [discriminate|].
    destruct (negb _); [discriminate|].
    unfold ret in H. congruence. }
  rewrite Hsame. f_equal.
  unfold compiledSignatures in *. destruct (_ && _); [reflexivity|]. exfalso.
  destruct (compileBody_table _ _ Em) as (k & um & Hk & _).
  destruct (compileBody_feePayer_first _ _ _ Em Hk) as (Hhd & Hn & _).
  unfold _verifySignatures in Ev. cbn [Transaction.signatures] in Ev.
  unfold slice_to in Ev.
  destruct (Z.ltb_spec (numRequiredSignatures (Message.header m')) 0); [lia|].
  destruct (Message.accountKeys m') as [|k0 ks]; [discriminate|].
  destruct (Z.to_nat (numRequiredSignatures (Message.header m'))) eqn:En; [lia|].
  cbn in Ev. discriminate.
Qed.

Lemma includes_snoc l s : includes (l ++ [s]) s = true.
Proof.
  unfold includes. rewrite existsb_app. simpl. rewrite String.eqb_refl.
  rewrite orb_true_r. reflexivity.
Qed.

(** What a run of the loop that ends well has done: the transaction is
    signed under the blockhash now in the cache, its primary signature is
    recorded there, and either the blockhash is the one that was cached and
    the signature was not yet recorded, or the blockhash is new and was
    asked from the node. *)
Lemma signLoop_Ok signers disableCache c w sigs fp ixs rb c' w' tx' :
  signLoop 2 signers disableCache c w (Transaction.mk sigs fp ixs rb None)
  = (c', w', tx', Ok tt) ->
  exists b s sigs0,
    sign nacl_sign nacl_verify signers (Transaction.mk sigs0 fp ixs (Some b) None)
    = (tx', Ok tt)
    /\ primarySignature tx' = Some s
    /\ bi_recentBlockhash (_blockhashInfo c') = Some b
    /\ includes (transactionSignatures (_blockhashInfo c')) (base64 s) = true
    /\ ((bi_recentBlockhash (_blockhashInfo c) = Some b
         /\ includes (transactionSignatures (_blockhashInfo c)) (base64 s) = false)
        \/ (bi_recentBlockhash (_blockhashInfo c) <> Some b
            /\ (blockhashRequests w < blockhashRequests w')%nat)).
Proof.
  rewrite (signLoop_S 1). unfold signRound at 1.
  destruct (_recentBlockhash disableCache c w) as [[c1 w1] [b|e]] eqn:Er; [|discriminate].
  cbv zeta. unfold set_recentBlockhash at 1.
  cbn [Transaction.signatures Transaction.feePayer Transaction.instructions
       Transaction.nonceInfo].
  destruct (sign nacl_sign nacl_verify signers _) as [tx1 [u|e]] eqn:Es; [|discriminate].
  destruct u.
  destruct (primarySignature tx1) as [s|] eqn:Ep; [|discriminate].
  apply recentBlockhash_Ok in Er as (Hb & _ & Hcase).
  destruct (includes (transactionSignatures (_blockhashInfo c1)) (base64 s)) eqn:Ei;
    cbn [negb].
  - (* the signature was sent before under this blockhash: a second round *)
    destruct Hcase as [(-> & -> & _) | (Hempty & _)];
      [|rewrite Hempty in Ei; discriminate].
    destruct (sign_primary _ _ _ _ _ _ _ Es Ep) as (sigs1 & _ & _ & _ & _ & -> & _).
    rewrite (signLoop_S 0). unfold signRound.
    destruct (_recentBlockhash true c w) as [[c2 w2] [b2|e]] eqn:Er2; [|discriminate].
    cbv zeta. unfold set_recentBlockhash.
    cbn [Transaction.signatures Transaction.feePayer Transaction.instructions
         Transaction.nonceInfo].
    destruct (sign nacl_sign nacl_verify signers
                (Transaction.mk sigs1 fp ixs (Some b2) None)) as [tx2 [u|e]] eqn:Es2;
      [|discriminate].
    destruct u.
    destruct (primarySignature tx2) as [s2|] eqn:Ep2; [|discriminate].
    apply recentBlockhash_Ok in Er2 as (Hb2 & _ & [(_ & _ & [=]) | (Hempty & Hnew & Hreq)]).
    rewrite Hempty. cbn [includes existsb negb].
    intros [= <- <- <-]. exists b2, s2, sigs1.
    split; [exact Es2|]. split; [exact Ep2|].
    unfold push_transactionSignature, set_blockhashInfo. cbn.
    split; [exact Hb2|]. split; [rewrite Hempty; apply includes_snoc|].
    right. split; assumption.
  - intros [= <- <- <-]. exists b, s, sigs.
    split; [exact Es|]. split; [exact Ep|].
    unfold push_transactionSignature, set_blockhashInfo. cbn.
    split; [exact Hb|]. split; [apply includes_snoc|].
    destruct Hcase as [(-> & -> & _) | (_ & Hnew & Hreq)].
    + left. split; assumption.
    + right. split; assumption.
Qed.

(** The same for [sendTransaction] as a whole. *)
Lemma sendTransaction_Ok signers c w sigs fp ixs rb c' w' tx' r :
  sendTransaction (Transaction.mk sigs fp ixs rb None) signers c w = (c', w', tx', Ok r) ->
  exists b s sigs0,
    sign nacl_sign nacl_verify signers (Transaction.mk sigs0 fp ixs (Some b) None)
    = (tx', Ok tt)
    /\ primarySignature tx' = Some s
    /\ bi_recentBlockhash (_blockhashInfo c') = Some b
    /\ includes (transactionSignatures (_blockhashInfo c')) (base64 s) = true
    /\ ((bi_recentBlockhash (_blockhashInfo c) = Some b
         /\ includes (transactionSignatures (_blockhashInfo c)) (base64 s) = false)
        \/ (bi_recentBlockhash (_blockhashInfo c) <> Some b
            /\ (blockhashRequests w < blockhashRequests w')%nat)).
Proof.
  unfold sendTransaction. cbn [Transaction.nonceInfo].
  destruct (signLoop 2 signers _ c w _) as [[[c1 w1] tx1] [u|e]] eqn:El; [|discriminate].
  destruct u. apply signLoop_Ok in El as (b & s & sigs0 & Hsign & Hs & Hb & Hin & Hcase).
  destruct (sign_primary _ _ _ _ _ _ _ Hsign Hs) as (sigs1 & _ & _ & _ & _ & Htx1 & _).
  destruct (serialize nacl_verify tx1) as [tx2 [wire|e]] eqn:Ew; [|discriminate].
  rewrite Htx1 in Ew. apply serialize_keeps in Ew. rewrite <- Htx1 in Ew. subst tx2.
  intros [= <- <- <- _]. exists b, s, sigs0. cbn [blockhashRequests].
  repeat split; assumption.
Qed.

End SendTransaction.

(* ===================================================================== *)
(** ** A stand-in for the signing functions, and runs with it             *)
(* ===================================================================== *)

(** Two digests stand for the 64 bytes of a signature: one taken over the
    secret key and the message, one over the message. *)
Definition digest_sign (message secret : list byte) : list byte :=
  sha256.digest (secret ++ message) ++ sha256.digest message.

Definition digest_verify (message sig key : list byte) : bool := true.

Lemma digest_sign_length message secret : length (digest_sign message secret) = 64%nat.
Proof. unfold digest_sign. rewrite length_app, !sha256.digest_length. reflexivity. Qed.

Lemma sign_returns_with_missing_signature_witness :
  exists tx signData,
    sign digest_sign digest_verify [payer_signer] two_signer_tx = (tx, Ok tt)
    /\ _verifySignatures digest_verify tx signData true = false.
Proof.
  destruct (sign_returns_with_missing_signature digest_sign digest_verify
              digest_sign_length) as (tx & signData & H1 & _ & _ & _ & H5 & _).
  exists tx, signData. split; [exact H1 | exact H5].
Defined.

(** A node that gives a new blockhash to every request and answers a
    submission with the base-58 text of its first signature. *)
Definition counting_node (n : nat) : Result string :=
  Ok (bs58.encode (repeat (byte_of_N (N.of_nat (S n))) 32)).

Definition echo_signature (wire : list byte) : Result string :=
  Ok (bs58.encode (firstn 64 (skipn 1 wire))).

Definition transfer_tx : Transaction.t :=
  Transaction.mk [] (Some (key 1))
    [mkInstruction 0 [mkMeta (key 2) false true] (Some (key 100)) [x01]]
    None None.

Definition send (tx : Transaction.t) (c : BlockhashCache) (w : World)
    : BlockhashCache * World * Transaction.t * Result string :=
  sendTransaction digest_sign digest_verify counting_node 10 echo_signature
    tx [payer_signer] c w.

Definition first_send : BlockhashCache * World * Transaction.t * Result string :=
  Eval vm_compute in send transfer_tx new_cache (mkWorld 0 0).

Definition second_send : BlockhashCache * World * Transaction.t * Result string :=
  Eval vm_compute in
    send transfer_tx (fst (fst (fst first_send)))
      (mkWorld 25 (blockhashRequests (snd (fst (fst first_send))))).

Definition returned (r : BlockhashCache * World * Transaction.t * Result string) : string :=
  match snd r with
  | Ok s => s
  | Err _ => ""
  end.


(* ===================================================================== *)
(** ** Further properties: lengths, keys, addresses                       *)
(* ===================================================================== *)

Lemma length_leading_strip {A} (p : A -> bool) (l : list A) :
  length l = (leading p l + length (strip p l))%nat.
Proof.
  induction l as [|x r IH]; simpl; [reflexivity|].
  destruct (p x); simpl; lia.
Qed.

(** X4: a length from 0 below 2^31 is encoded on one to five bytes, on one
    byte when it is below 128, and [decodeLength] reads it back from the
    front of any array, leaving what follows. *)
Theorem encodeLength_decodeLength (n : Z) (rest : list byte) :
  0 <= n < 2 ^ 31 ->
  exists bs,
    encodeLength n = Ok bs
    /\ (1 <= length bs <= 5)%nat
    /\ (n < 128 -> bs = [byte_of_Z n])
    /\ decodeLength (bs ++ rest) = (n, rest).
Proof.
  intros Hn. destruct (decodeLength_encodeLength n Hn) as (bs & Hbs & Hlen & Hdec).
  exists bs. split; [exact Hbs|]. split; [lia|]. split; [|apply Hdec].
  intros Hsmall. unfold encodeLength in Hbs. cbn [encodeLength_loop] in Hbs.
  rewrite js_sar_7, js_and_127 in Hbs by exact Hn.
  rewrite Z.div_small, Z.mod_small in Hbs by lia.
  cbn in Hbs. congruence.
Qed.

Lemma encodeLength_decodeLength_witness :
  exists bs,
    encodeLength 300 = Ok bs
    /\ (1 <= length bs <= 5)%nat
    /\ (300 < 128 -> bs = [byte_of_Z 300])
    /\ decodeLength (bs ++ [xff]) = (300, [xff]).
Proof. apply (encodeLength_decodeLength 300 [xff]). lia. Defined.

(** X5: a key made from a string gives that string back, and its bytes
    are the 32 bytes the string decodes to. *)
Theorem PublicKey_of_string_roundtrip (s : string) (k : PublicKey) :
  PublicKey_of_string s = Ok k ->
  PublicKey_toString k = s
  /\ bs58.decode s = Some (PublicKey_toBytes k)
  /\ length (PublicKey_toBytes k) = 32%nat.
Proof.
  unfold PublicKey_of_string. intros H. inv_bind_as H decoded Ed.
  apply of_option_Ok in Ed.
  destruct (Nat.eqb_spec (length decoded) 32) as [Hl|]; [|discriminate].
  cbn [negb] in H. unfold PublicKey_of_bytes in H.
  destruct (32 <? _)%nat; [discriminate|]. injection H as <-.
  assert (Hb : PublicKey_toBytes (mkPublicKey (bytes_to_N decoded)) = decoded).
  { unfold PublicKey_toBytes, PublicKey_toBuffer. cbn [bn].
    rewrite N_to_bytes_to_N.
    pose proof (length_leading_strip is_x00 decoded) as Hlen.
    replace (32 - length (strip is_x00 decoded))%nat with (leading is_x00 decoded) by lia.
    apply repeat_leading_strip. exact is_x00_eq. }
  unfold PublicKey_toString, PublicKey_toBase58. rewrite Hb.
  split; [exact (bs58.encode_decode _ _ Ed)|]. split; [exact Ed | exact Hl].
Qed.

Lemma PublicKey_of_string_roundtrip_witness :
  PublicKey_toString BPF_LOADER_DEPRECATED_PROGRAM_ID
  = "BPFLoader1111111111111111111111111111111111"%string
  /\ bs58.decode "BPFLoader1111111111111111111111111111111111"
     = Some (PublicKey_toBytes BPF_LOADER_DEPRECATED_PROGRAM_ID)
  /\ length (PublicKey_toBytes BPF_LOADER_DEPRECATED_PROGRAM_ID) = 32%nat.
Proof.
  apply (PublicKey_of_string_roundtrip "BPFLoader1111111111111111111111111111111111").
  vm_compute. reflexivity.
Defined.

(** X6: a key made from a buffer.  The constructor looks at the number the
    buffer holds, not at its length: it accepts the buffer exactly when,
    its leading zero bytes left out, at most 32 bytes remain, and the bytes
    of the key are those, padded with zeros at the front to 32. *)
Theorem PublicKey_of_bytes_padded (value : list byte) :
  let significant := strip is_x00 value in
  if (length significant <=? 32)%nat
  then exists k,
         PublicKey_of_bytes value = Ok k
         /\ PublicKey_toBytes k = repeat x00 (32 - length significant) ++ significant
         /\ length (PublicKey_toBytes k) = 32%nat
  else PublicKey_of_bytes value = Err InvalidPublicKeyInput.
Proof.
  intros significant. unfold PublicKey_of_bytes, byteLength.
  rewrite N_to_bytes_to_N. fold significant.
  destruct (Nat.leb_spec (length significant) 32) as [Hle|Hgt].
  - destruct (Nat.ltb_spec 32 (length significant)); [lia|].
    exists (mkPublicKey (bytes_to_N value)). split; [reflexivity|].
    unfold PublicKey_toBytes, PublicKey_toBuffer. cbn [bn].
    rewrite N_to_bytes_to_N. fold significant. split; [reflexivity|].
    rewrite length_app, repeat_length. lia.
  - destruct (Nat.ltb_spec 32 (length significant)); [reflexivity|lia].
Qed.

(** X7: the address [findProgramAddress] returns is the one
    [createProgramAddress] gives for the seeds and the nonce returned, its
    bytes are the digest of seeds, nonce, program id and
    "ProgramDerivedAddress", and they are not on the curve. *)
Theorem findProgramAddress_off_curve
    (seeds : list (list byte)) (programId : PublicKey) (address : PublicKey) (nonce : Z) :
  findProgramAddress seeds programId = Ok (address, nonce) ->
  1 <= nonce <= 255
  /\ createProgramAddress (seeds ++ [[byte_of_Z nonce]]) programId = Ok address
  /\ PublicKey_toBytes address
     = programAddressBytes (seeds ++ [[byte_of_Z nonce]]) programId
  /\ PublicKey_isOnCurve (PublicKey_toBytes address) = false.
Proof.
  intros H.
  assert (Hshort : existsb too_long seeds = false).
  { destruct (existsb too_long seeds) eqn:El; [|reflexivity].
    unfold findProgramAddress in H. cbn [findProgramAddress_loop] in H.
    destruct (createProgramAddress_cases (seeds ++ [[byte_of_Z (Z.of_nat 255)]]) programId)
      as [[_ Hr]|[(El' & _)|(El' & _)]];
      try (rewrite too_long_with_nonce in El'; congruence).
    rewrite Hr in H. cbn in H. discriminate. }
  pose proof (findProgramAddress_loop_short seeds programId Hshort 255%nat) as Hloop.
  unfold findProgramAddress in H. rewrite H in Hloop.
  destruct Hloop as (Hrange & Hcreate & _).
  split; [lia|]. split; [exact Hcreate|].
  destruct (createProgramAddress_cases (seeds ++ [[byte_of_Z nonce]]) programId)
    as [[_ Hr]|[(_ & _ & Hr)|(_ & Hcurve & a & Hr & Hbytes)]]; try congruence.
  rewrite Hcreate in Hr. injection Hr as <-. split; [exact Hbytes|].
  unfold PublicKey_isOnCurve. rewrite Hbytes, Hcurve. reflexivity.
Qed.

(** The address found for one empty seed and the deprecated loader. *)
Definition empty_seed_address : Result (PublicKey * Z) :=
  Eval vm_compute in findProgramAddress [[]] BPF_LOADER_DEPRECATED_PROGRAM_ID.

Lemma findProgramAddress_off_curve_witness :
  match empty_seed_address with
  | Ok (address, nonce) =>
      1 <= nonce <= 255
      /\ createProgramAddress ([[]] ++ [[byte_of_Z nonce]]) BPF_LOADER_DEPRECATED_PROGRAM_ID
         = Ok address
      /\ PublicKey_toBytes address
         = programAddressBytes ([[]] ++ [[byte_of_Z nonce]]) BPF_LOADER_DEPRECATED_PROGRAM_ID
      /\ PublicKey_isOnCurve (PublicKey_toBytes address) = false
  | Err _ => False
  end.
Proof.
  unfold empty_seed_address.
  apply (findProgramAddress_off_curve [[]] BPF_LOADER_DEPRECATED_PROGRAM_ID).
  vm_compute. reflexivity.
Defined.

(* ===================================================================== *)
(** ** Further properties: the account table of a compiled message        *)
(* ===================================================================== *)

Lemma remove_at_perm {A} (l : list A) : forall i x,
  nth_error l i = Some x -> Permutation l (x :: remove_at i l).
Proof.
  induction l as [|a r IH]; intros [|i] x; simpl; try discriminate.
  - intros [= ->]. reflexivity.
  - intros H. rewrite (IH i x H) at 1. apply perm_swap.
Qed.

Lemma In_modify_or {A} (f : A -> A) (l : list A) : forall i y,
  In y l -> In y (modify f i l) \/ nth_error l i = Some y.
Proof.
  induction l as [|a r IH]; intros [|i] y; simpl; try tauto.
  - intros [->|H]; [right; reflexivity | left; right; exact H].
  - intros [->|H]; [left; left; reflexivity|].
    destruct (IH i y H) as [H'|H']; [left; right; exact H' | right; exact H'].
Qed.

Lemma moveFeePayer_NoDup (k : PublicKey) (uniqueMetas : list AccountMeta) :
  List.NoDup (map address uniqueMetas) ->
  List.NoDup (map address (Transaction.moveFeePayer k uniqueMetas)).
Proof.
  intros Hnd. unfold Transaction.moveFeePayer.
  destruct (find_index _ uniqueMetas) as [i|] eqn:E.
  - apply find_index_Some in E as (x & Hx & _). rewrite Hx.
    apply (Permutation_NoDup (l := map address uniqueMetas)); [|exact Hnd].
    rewrite (remove_at_perm uniqueMetas i x Hx) at 1. reflexivity.
  - cbn [map]. constructor; [|exact Hnd].
    intros Hin. apply in_map_iff in Hin as (x & Hxa & Hx).
    apply PublicKey_toString_inj in Hxa. cbn in Hxa.
    rewrite find_index_None in E. specialize (E x Hx).
    assert (PublicKey_equals (pubkey x) k = true) by (apply PublicKey_equals_eq; exact Hxa).
    congruence.
Qed.

Lemma checkSigners_pubkeys sigs : forall uniqueMetas checked,
  Transaction.checkSigners sigs uniqueMetas = Ok checked ->
  map pubkey checked = map pubkey uniqueMetas.
Proof.
  induction sigs as [|sg r IH]; intros um checked; cbn [Transaction.checkSigners].
  - intros [= <-]. reflexivity.
  - destruct (publicKey sg) as [k|]; [|discriminate].
    destruct (find_index _ um) as [i|]; [|discriminate].
    intros H. rewrite (IH _ _ H). apply map_modify. reflexivity.
Qed.

(** The check keeps every signer and makes a signer of every key of the
    signature list. *)
Lemma checkSigners_signers sigs : forall uniqueMetas checked,
  Transaction.checkSigners sigs uniqueMetas = Ok checked ->
  (forall pair k, In pair sigs -> publicKey pair = Some k ->
     exists u, In u checked /\ pubkey u = k /\ isSigner u = true)
  /\ (forall u, In u uniqueMetas -> isSigner u = true ->
        exists u', In u' checked /\ pubkey u' = pubkey u /\ isSigner u' = true).
Proof.
  induction sigs as [|sg r IH]; intros um checked; cbn [Transaction.checkSigners].
  - intros [= <-]. split; [intros pair k []|].
    intros u Hu Hs. exists u. auto.
  - destruct (publicKey sg) as [k0|] eqn:Ek; [|discriminate].
    destruct (find_index _ um) as [i|] eqn:Ei; [|discriminate].
    intros H. destruct (IH _ _ H) as [IH1 IH2].
    apply find_index_Some in Ei as (x & Hx & Heq & _).
    apply PublicKey_equals_eq in Heq.
    assert (Hpromoted : exists u', In u' checked /\ pubkey u' = k0 /\ isSigner u' = true).
    { destruct (IH2 (set_isSigner true x)) as (u' & Hu' & Hk' & Hs');
        [apply In_modify_at; exact Hx | reflexivity|].
      exists u'. split; [exact Hu'|]. split; [|exact Hs']. rewrite Hk'. exact Heq. }
    split.
    + intros pair k [<-|Hin] Hk; [|exact (IH1 pair k Hin Hk)].
      rewrite Ek in Hk. injection Hk as <-. exact Hpromoted.
    + intros u Hu Hs.
      destruct (In_modify_or (set_isSigner true) um i u Hu) as [Hin|Hat].
      * exact (IH2 u Hin Hs).
      * rewrite Hx in Hat. injection Hat as ->.
        destruct Hpromoted as (u' & Hu' & Hk' & Hs'). exists u'.
        split; [exact Hu'|]. split; [congruence | exact Hs'].
Qed.

Lemma uniqueMetasOf_NoDup (tx : Transaction.t) (k : PublicKey) uniqueMetas :
  Transaction.uniqueMetasOf tx k = Ok uniqueMetas ->
  List.NoDup (map pubkey uniqueMetas).
Proof.
  unfold Transaction.uniqueMetasOf. intros H. inv_bind_as H metas Em.
  apply checkSigners_pubkeys in H. rewrite H.
  apply (NoDup_map_inv PublicKey_toString). rewrite map_map.
  apply moveFeePayer_NoDup.
  destruct (cull_inv_sorted (Transaction.sortMetas metas) (sortMetas_signersFirst metas))
    as [Hnd _].
  exact Hnd.
Qed.

Lemma NoDup_partition {A} (p : A -> bool) (l : list A) :
  List.NoDup l -> List.NoDup (List.filter p l ++ List.filter (fun x => negb (p x)) l).
Proof.
  intros H. apply (Permutation_NoDup (l := l)); [|exact H].
  clear H. induction l as [|x r IH]; simpl; [reflexivity|].
  destruct (p x); simpl.
  - apply perm_skip. exact IH.
  - rewrite IH at 1. apply Permutation_middle.
Qed.

Lemma map_filter_pubkey (p : AccountMeta -> bool) (l : list AccountMeta) :
  List.NoDup (map pubkey l) ->
  List.NoDup (map pubkey (List.filter p l)
              ++ map pubkey (List.filter (fun x => negb (p x)) l)).
Proof.
  intros H. rewrite <- map_app.
  apply (Permutation_NoDup (l := map pubkey l)); [|exact H].
  apply Permutation_map.
  clear H. induction l as [|x r IH]; simpl; [reflexivity|].
  destruct (p x); simpl.
  - apply perm_skip. exact IH.
  - rewrite IH at 1. apply Permutation_middle.
Qed.

(** X8: no key stands twice in the account table of a compiled message. *)
Theorem compileMessage_accountKeys_distinct (tx tx' : Transaction.t) (m : Message.t) :
  Transaction.compileMessage tx = (tx', Ok m) ->
  List.NoDup (Message.accountKeys m).
Proof.
  unfold Transaction.compileMessage. intros [= _ H].
  destruct (compileBody_table _ _ H) as (k & um & _ & Hum & Hkeys & _).
  rewrite Hkeys. apply map_filter_pubkey. exact (uniqueMetasOf_NoDup _ _ _ Hum).
Qed.

Lemma compileMessage_accountKeys_distinct_witness :
  List.NoDup (Message.accountKeys sample_message).
Proof.
  apply (compileMessage_accountKeys_distinct sample_tx sample_tx sample_message).
  vm_compute. reflexivity.
Defined.

(** X9: the key of every entry of the signature list is one of the keys
    the compiled message requires a signature of: it stands among the first
    [numRequiredSignatures] keys of the table. *)
Theorem compileMessage_signature_keys_required
    (tx tx' : Transaction.t) (m : Message.t) (pair : SignaturePubkeyPair) (k : PublicKey) :
  Transaction.compileMessage tx = (tx', Ok m) ->
  In pair (Transaction.signatures tx) ->
  publicKey pair = Some k ->
  In k (slice_to (Message.accountKeys m) (numRequiredSignatures (Message.header m))).
Proof.
  unfold Transaction.compileMessage. intros [= _ H] Hin Hk.
  destruct (compileBody_table _ _ H) as (payer & um & _ & Hum & Hkeys & Hheader).
  rewrite Hkeys, Hheader. cbn [Transaction.headerOf numRequiredSignatures].
  unfold Transaction.count.
  rewrite <- (length_map pubkey (List.filter isSigner um)), slice_to_app.
  unfold Transaction.uniqueMetasOf in Hum. inv_bind_as Hum metas Em.
  rewrite applyNonce_signatures in Hum.
  destruct (checkSigners_signers _ _ _ Hum) as [Hsig _].
  destruct (Hsig pair k Hin Hk) as (u & Hu & Huk & Hus).
  apply in_map_iff. exists u. split; [exact Huk|].
  apply filter_In. split; assumption.
Qed.

Lemma compileMessage_signature_keys_required_witness :
  In (key 5)
     (slice_to [key 5; key 2; key 3; key 100] 3).
Proof.
  apply (compileMessage_signature_keys_required
           implicit_payer_tx
           (fst (Transaction.compileMessage implicit_payer_tx))
           (Message.mk (mkHeader 3 1 1) [key 5; key 2; key 3; key 100] sample_blockhash
              [mkCompiledInstruction 3 [1; 2; 2] "Ldp"])
           (mkPair None (Some (key 5))) (key 5)).
  - vm_compute. reflexivity.
  - vm_compute. left. reflexivity.
  - reflexivity.
Defined.

Lemma indexOf_nth (l : list string) (s : string) :
  0 <= indexOf l s -> nth_error l (Z.to_nat (indexOf l s)) = Some s.
Proof.
  unfold indexOf, findIndex. destruct (find_index _ l) as [i|] eqn:E; [|lia].
  intros _. rewrite Nat2Z.id.
  apply find_index_Some in E as (x & Hx & Heq & _).
  apply String.eqb_eq in Heq. congruence.
Qed.

Lemma nth_error_toString (ks : list PublicKey) (i : nat) (k : PublicKey) :
  nth_error (map PublicKey_toString ks) i = Some (PublicKey_toString k) ->
  nth_error ks i = Some k.
Proof.
  rewrite nth_error_map. destruct (nth_error ks i) as [k'|]; [|discriminate].
  cbn. intros [= H]. apply PublicKey_toString_inj in H. congruence.
Qed.

(** The indices of a compiled instruction, resolved in the account table. *)
Lemma compiled_indices (tx tx' : Transaction.t) (m : Message.t) :
  Transaction.compileMessage tx = (tx', Ok m) ->
  Forall2
    (fun ix c =>
       (exists pid,
          programId ix = Some pid
          /\ 0 <= programIdIndex c
          /\ nth_error (Message.accountKeys m) (Z.to_nat (programIdIndex c)) = Some pid)
       /\ Forall2 (fun meta a =>
                     0 <= a
                     /\ nth_error (Message.accountKeys m) (Z.to_nat a) = Some (pubkey meta))
            (keys ix) (accounts c)
       /\ cdata c = bs58.encode (data ix))
    (Transaction.instructions tx') (Message.instructions m).
Proof.
  unfold Transaction.compileMessage. intros [= <- H].
  set (tx1 := Transaction.applyNonce tx) in *. clearbody tx1.
  unfold Transaction.compileBody in H.
  inv_bind_as H blockhash Ebh. inv_bind_as H payer Epayer. inv_bind_as H u Echeck.
  inv_bind_as H um Eum. inv_bind_as H cix Eixs. inv_bind_as H asserted Eassert.
  unfold Message.new in H. inv_bind_as H ks Eks. injection H as <-.
  cbn [Message.accountKeys Message.instructions].
  assert (Hks : Transaction.signedKeys um ++ Transaction.unsignedKeys um
                = map PublicKey_toString ks).
  { unfold Transaction.signedKeys, Transaction.unsignedKeys in *.
    rewrite <- map_app, <- (map_map pubkey PublicKey_toString) in Eks.
    pose proof (mapM_of_string_toString _ _ Eks) as ->.
    rewrite <- map_app, <- (map_map pubkey PublicKey_toString). reflexivity. }
  rewrite Hks in Eixs. clear Hks Eks Eum Echeck Epayer Ebh.
  apply mapM_Forall2 in Eixs. apply mapM_Forall2 in Eassert.
  revert asserted Eassert.
  induction Eixs as [|ix c l cs Hc _ IH]; intros asserted Eassert; [constructor|].
  inversion Eassert as [|? ? ? rest Ha Hrest]; subst.
  constructor; [|exact (IH _ Hrest)].
  unfold Transaction.compileInstruction in Hc. inv_bind_as Hc pid Epid.
  apply of_option_Ok in Epid. injection Hc as <-.
  unfold Transaction.assertIndices in Ha.
  cbn [programIdIndex accounts cdata] in *.
  destruct (Z.leb_spec 0 (indexOf (map PublicKey_toString ks) (PublicKey_toString pid)))
    as [Hp|Hp]; cbn [andb] in Ha; [|discriminate].
  destruct (forallb _ _) eqn:Hall in Ha; [|discriminate].
  split; [|split; [|reflexivity]].
  - exists pid. split; [exact Epid|]. split; [exact Hp|].
    apply nth_error_toString, indexOf_nth. exact Hp.
  - rewrite forallb_forall in Hall. clear - Hall.
    induction (keys ix) as [|meta r IHr]; cbn [map]; constructor.
    + assert (H0 : 0 <= indexOf (map PublicKey_toString ks)
                          (PublicKey_toString (pubkey meta))).
      { apply Z.leb_le. apply Hall. left. reflexivity. }
      split; [exact H0|]. apply nth_error_toString, indexOf_nth. exact H0.
    + apply IHr. intros a Ha. apply Hall. right. exact Ha.
Qed.


(** X10: every index of a compiled instruction points at the key it stands
    for: the program id index at the program id of the instruction, each
    account index at the key of the account meta in the same place; the
    data is the base-58 text of the instruction data.  The instructions are
    those of the transaction as [compileMessage] leaves it. *)
Theorem compileMessage_indices_resolve (tx tx' : Transaction.t) (m : Message.t) :
  Transaction.compileMessage tx = (tx', Ok m) ->
  Forall2
    (fun ix c =>
       (exists pid,
          programId ix = Some pid
          /\ 0 <= programIdIndex c
          /\ nth_error (Message.accountKeys m) (Z.to_nat (programIdIndex c)) = Some pid)
       /\ Forall2 (fun meta a =>
                     0 <= a
                     /\ nth_error (Message.accountKeys m) (Z.to_nat a) = Some (pubkey meta))
            (keys ix) (accounts c)
       /\ cdata c = bs58.encode (data ix))
    (Transaction.instructions tx') (Message.instructions m).
Proof. exact (compiled_indices tx tx' m). Qed.

Lemma compileMessage_indices_resolve_witness :
  Forall2
    (fun ix c =>
       (exists pid,
          programId ix = Some pid
          /\ 0 <= programIdIndex c
          /\ nth_error (Message.accountKeys sample_message) (Z.to_nat (programIdIndex c))
             = Some pid)
       /\ Forall2 (fun meta a =>
                     0 <= a
                     /\ nth_error (Message.accountKeys sample_message) (Z.to_nat a)
                        = Some (pubkey meta))
            (keys ix) (accounts c)
       /\ cdata c = bs58.encode (data ix))
    (Transaction.instructions sample_tx) (Message.instructions sample_message).
Proof.
  apply (compileMessage_indices_resolve sample_tx sample_tx sample_message).
  vm_compute. reflexivity.
Defined.

(** X11: in every compiled message the fee payer -- the [feePayer] of the
    transaction or, without one, the key of its first signature entry -- is
    the key at index 0, is among the required signers, and is writable. *)
Theorem compileMessage_feePayer_first (tx tx' : Transaction.t) (m : Message.t) :
  Transaction.compileMessage tx = (tx', Ok m) ->
  exists k,
    Transaction.chooseFeePayer tx = Ok k
    /\ hd_error (Message.accountKeys m) = Some k
    /\ 1 <= numRequiredSignatures (Message.header m)
    /\ Message.isAccountWritable m 0 = true.
Proof.
  unfold Transaction.compileMessage. intros [= _ H].
  destruct (compileBody_table _ _ H) as (k & um & Hk & _).
  exists k. split.
  - unfold Transaction.chooseFeePayer in *.
    rewrite applyNonce_feePayer, applyNonce_signatures in Hk. exact Hk.
  - exact (compileBody_feePayer_first _ _ _ H Hk).
Qed.

Lemma compileMessage_feePayer_first_witness :
  exists k,
    Transaction.chooseFeePayer sample_tx = Ok k
    /\ hd_error (Message.accountKeys sample_message) = Some k
    /\ 1 <= numRequiredSignatures (Message.header sample_message)
    /\ Message.isAccountWritable sample_message 0 = true.
Proof.
  apply (compileMessage_feePayer_first sample_tx sample_tx sample_message).
  vm_compute. reflexivity.
Defined.

(* ===================================================================== *)
(** ** Further properties: the blockhash cache                            *)
(* ===================================================================== *)

Section CacheProperties.
Variable getRecentBlockhash : nat -> Result string.
Variable latency : Z.

(** X12: a blockhash [_pollNewBlockhash] returns differs from the one that
    was cached, was asked from the node, and is the cached one afterwards,
    fetched at the time of return, with both sets of signatures empty;
    the polling flag is down again. *)
Theorem pollNewBlockhash_new (c c' : BlockhashCache) (w w' : World) (b : string) :
  _pollNewBlockhash getRecentBlockhash latency c w = (c', w', Ok b) ->
  _blockhashInfo c' = mkBlockhashInfo (Some b) (clock w') [] []
  /\ bi_recentBlockhash (_blockhashInfo c) <> Some b
  /\ (blockhashRequests w < blockhashRequests w' <= blockhashRequests w + 50)%nat
  /\ getRecentBlockhash (blockhashRequests w' - 1) = Ok b
  /\ _pollingBlockhash c' = false.
Proof.
  unfold _pollNewBlockhash.
  destruct (pollLoop getRecentBlockhash latency 50 (set_polling true c) w)
    as [[c1 w1] r] eqn:E.
  intros [= <- <- ->].
  assert (Hloop : forall tries c0 w0 c1 w1,
            pollLoop getRecentBlockhash latency tries c0 w0 = (c1, w1, Ok b) ->
            _blockhashInfo c1 = mkBlockhashInfo (Some b) (clock w1) [] []
            /\ bi_recentBlockhash (_blockhashInfo c0) <> Some b
            /\ (blockhashRequests w0 < blockhashRequests w1
                <= blockhashRequests w0 + tries)%nat
            /\ getRecentBlockhash (blockhashRequests w1 - 1) = Ok b).
  { clear. induction tries as [|n IH]; intros c0 w0 c1 w1; cbn [pollLoop]; [discriminate|].
    destruct (getRecentBlockhash (blockhashRequests w0)) as [blockhash|e] eqn:Eg;
      [|discriminate].
    destruct (differs _ blockhash) eqn:Ed.
    - intros [= <- <- <-]. cbn. split; [reflexivity|].
      split; [apply differs_true; exact Ed|]. split; [lia|].
      rewrite Nat.sub_0_r. exact Eg.
    - intros H. apply IH in H as (Hi & Hn & Hr & Hg). cbn in Hr.
      split; [exact Hi|]. split; [exact Hn|]. split; [lia | exact Hg]. }
  apply Hloop in E as (Hi & Hn & Hr & Hg). cbn in *.
  repeat split; try assumption; lia.
Qed.

(** X13: a node that answers the cached blockhash fifty times in a row
    makes [_pollNewBlockhash] give up: fifty requests, a sleep of half a
    slot (200 ms) after each, then the error; the cache keeps what it had
    and the polling flag is down again. *)
Theorem pollNewBlockhash_timeout (c : BlockhashCache) (w : World) (b : string) :
  bi_recentBlockhash (_blockhashInfo c) = Some b ->
  (forall n, (blockhashRequests w <= n < blockhashRequests w + 50)%nat ->
             getRecentBlockhash n = Ok b) ->
  _pollNewBlockhash getRecentBlockhash latency c w
  = (set_polling false c,
     mkWorld (clock w + 50 * (latency + 200)) (blockhashRequests w + 50),
     Err BlockhashTimeout).
Proof.
  intros Hb Hnode. unfold _pollNewBlockhash.
  assert (Hloop : forall tries c0 w0,
            bi_recentBlockhash (_blockhashInfo c0) = Some b ->
            (forall n, (blockhashRequests w0 <= n < blockhashRequests w0 + tries)%nat ->
                       getRecentBlockhash n = Ok b) ->
            pollLoop getRecentBlockhash latency tries c0 w0
            = (c0, mkWorld (clock w0 + Z.of_nat tries * (latency + 200))
                     (blockhashRequests w0 + tries),
               Err BlockhashTimeout)).
  { clear. induction tries as [|n IH]; intros c0 w0 Hb Hnode; cbn [pollLoop].
    - destruct w0 as [t r]. cbn. do 3 f_equal; lia.
    - rewrite (Hnode (blockhashRequests w0)) by lia.
      rewrite Hb. cbn [differs]. rewrite String.eqb_refl. cbn [negb].
      rewrite IH; [|exact Hb|].
      + cbn. change (MS_PER_SLOT / 2) with 200. do 3 f_equal; lia.
      + intros k Hk. cbn in Hk. apply Hnode. lia. }
  rewrite Hloop; [|exact Hb|exact Hnode].
  destruct c as [d p i]. reflexivity.
Qed.

End CacheProperties.

Lemma pollNewBlockhash_new_witness :
  exists c' w',
    _pollNewBlockhash counting_node 10 new_cache (mkWorld 0 0)
    = (c', w', Ok (bs58.encode (repeat x01 32)))
    /\ _blockhashInfo c' = mkBlockhashInfo (Some (bs58.encode (repeat x01 32))) (clock w') [] [].
Proof.
  eexists _, _. split.
  - vm_compute. reflexivity.
  - eapply (pollNewBlockhash_new counting_node 10 new_cache _ (mkWorld 0 0)).
    vm_compute. reflexivity.
Defined.

Definition stuck_node (n : nat) : Result string := Ok sample_blockhash.

Lemma pollNewBlockhash_timeout_witness :
  _pollNewBlockhash stuck_node 10
    (mkBlockhashCache false false (mkBlockhashInfo (Some sample_blockhash) 0 [] []))
    (mkWorld 0 0)
  = (mkBlockhashCache false false (mkBlockhashInfo (Some sample_blockhash) 0 [] []),
     mkWorld 10500 50, Err BlockhashTimeout).
Proof.
  apply (pollNewBlockhash_timeout stuck_node 10
           (mkBlockhashCache false false (mkBlockhashInfo (Some sample_blockhash) 0 [] []))
           (mkWorld 0 0) sample_blockhash).
  - reflexivity.
  - intros n _. reflexivity.
Defined.

(** X14: [_recentBlockhash], asked to use the cache while no poll is under
    way, answers without a request to the node exactly when a blockhash is
    cached that was fetched less than 30 seconds ago; it then returns that
    blockhash and changes nothing.  Otherwise the blockhash it returns is a
    new one. *)
Theorem recentBlockhash_uses_fresh_cache
    (getRecentBlockhash : nat -> Result string) (latency : Z)
    (c c' : BlockhashCache) (w w' : World) (b : string) :
  _pollingBlockhash c = false ->
  _recentBlockhash getRecentBlockhash latency false c w = (c', w', Ok b) ->
  let fresh :=
    exists cached,
      bi_recentBlockhash (_blockhashInfo c) = Some cached
      /\ clock w - lastFetch (_blockhashInfo c) < 30000 in
  (blockhashRequests w' = blockhashRequests w <-> fresh)
  /\ (fresh -> c' = c /\ w' = w /\ bi_recentBlockhash (_blockhashInfo c) = Some b)
  /\ (~ fresh -> bi_recentBlockhash (_blockhashInfo c) <> Some b
                 /\ bi_recentBlockhash (_blockhashInfo c') = Some b).
Proof.
  intros Hp H fresh.
  assert (Heq : _recentBlockhash getRecentBlockhash latency false c w
                = match bi_recentBlockhash (_blockhashInfo c) with
                  | Some cached =>
                      if BLOCKHASH_CACHE_TIMEOUT_MS <=? clock w - lastFetch (_blockhashInfo c)
                      then _pollNewBlockhash getRecentBlockhash latency c w
                      else (c, w, Ok cached)
                  | None => _pollNewBlockhash getRecentBlockhash latency c w
                  end).
  { unfold _recentBlockhash. cbn [negb]. rewrite Hp.
    destruct (bi_recentBlockhash (_blockhashInfo c)); [|reflexivity].
    destruct (BLOCKHASH_CACHE_TIMEOUT_MS <=? _); reflexivity. }
  rewrite Heq in H. clear Heq.
  assert (Hpoll : _pollNewBlockhash getRecentBlockhash latency c w = (c', w', Ok b) ->
                  ~ fresh ->
                  (blockhashRequests w' = blockhashRequests w <-> fresh)
                  /\ (fresh -> c' = c /\ w' = w
                               /\ bi_recentBlockhash (_blockhashInfo c) = Some b)
                  /\ (~ fresh -> bi_recentBlockhash (_blockhashInfo c) <> Some b
                                 /\ bi_recentBlockhash (_blockhashInfo c') = Some b)).
  { intros Hn Hstale. apply pollNewBlockhash_Ok in Hn as (Hi & Hne & Hr & _).
    split; [split; [lia | contradiction]|]. split; [contradiction|].
    intros _. split; [exact Hne|]. rewrite Hi. reflexivity. }
  destruct (bi_recentBlockhash (_blockhashInfo c)) as [cached|] eqn:Ec.
  - unfold BLOCKHASH_CACHE_TIMEOUT_MS in H.
    destruct (Z.leb_spec (30 * 1000) (clock w - lastFetch (_blockhashInfo c))) as [Hold|Hnew].
    + apply Hpoll; [exact H|]. intros (x & _ & Hx). lia.
    + injection H as <- <- <-.
      assert (Hf : fresh) by (exists cached; split; [reflexivity | lia]).
      split; [split; [intros _; exact Hf | reflexivity]|].
      split; [intros _; repeat split; reflexivity | contradiction].
  - apply Hpoll; [exact H|]. intros (x & Hx & _). discriminate.
Qed.

Lemma recentBlockhash_uses_fresh_cache_witness :
  let c := mkBlockhashCache false false (mkBlockhashInfo (Some sample_blockhash) 1000 [] []) in
  let w := mkWorld 30999 1 in
  (blockhashRequests w = blockhashRequests w <->
   exists cached,
     bi_recentBlockhash (_blockhashInfo c) = Some cached
     /\ clock w - lastFetch (_blockhashInfo c) < 30000).
Proof.
  intros c w.
  apply (recentBlockhash_uses_fresh_cache counting_node 10 c c w w sample_blockhash).
  - reflexivity.
  - reflexivity.
Defined.

(* ===================================================================== *)
(** ** Further properties: the stream channel                             *)
(* ===================================================================== *)

Lemma wsOnClose_abnormal_witness :
  familyOf AccountChange (fst (_wsOnClose 1006 two_subscriptions)) !! 0%nat
  = Some (mkSubscription None "account")
  /\ familyOf Logs (fst (_wsOnClose 1006 two_subscriptions)) !! 0%nat
     = Some (mkSubscription (Some (Subscribed 7)) "logs")
  /\ familyOf Slot (fst (_wsOnClose 1006 two_subscriptions)) !! 0%nat = None.
Proof.
  assert (H1006 : 1006 <> 1000) by lia.
  destruct (wsOnClose_abnormal 1006 two_subscriptions AccountChange 0 H1006)
    as (_ & _ & _ & _ & Haccount).
  destruct (wsOnClose_abnormal 1006 two_subscriptions Logs 0 H1006)
    as (_ & _ & _ & _ & Hlogs).
  destruct (wsOnClose_abnormal 1006 two_subscriptions Slot 0 H1006)
    as (_ & _ & _ & _ & Hslot).
  split; [exact Haccount|]. split; [exact Hlogs | exact Hslot].
Defined.

Lemma wsOnClose_normal_keeps_confirmed_witness :
  familyOf Logs (fst (_wsOnClose 1000 two_subscriptions)) !! 0%nat
  = Some (mkSubscription (Some (Subscribed 7)) "logs").
Proof.
  apply (wsOnClose_normal_keeps_confirmed two_subscriptions Logs 0
           (mkSubscription (Some (Subscribed 7)) "logs") 7).
  - reflexivity.
  - reflexivity.
Defined.

Lemma keysOf_fmap (f : Subscription -> Subscription) (m : gmap nat Subscription) :
  Permutation (keysOf (f <$> m)) (keysOf m).
Proof.
  unfold keysOf. rewrite !merge_sort_Permutation.
  rewrite map_to_list_fmap, <- list_fmap_compose.
  replace (fst ∘ prod_map id f <$> map_to_list m) with (map fst (map_to_list m));
    [reflexivity|].
  apply map_ext. intros [k v]. reflexivity.
Qed.

Lemma keysOf_fmap_length (f : Subscription -> Subscription) (m : gmap nat Subscription) :
  length (keysOf (f <$> m)) = length (keysOf m).
Proof. apply Permutation_length, keysOf_fmap. Qed.

Lemma needsCall_marked (m : gmap nat Subscription) (id : nat) :
  needsCall (markSubscribing <$> m) id = false.
Proof.
  unfold needsCall. rewrite lookup_fmap.
  destruct (m !! id) as [[[s|] r]|]; reflexivity.
Qed.

Lemma filter_none {A} (p : A -> bool) (l : list A) :
  (forall x, p x = false) -> List.filter p l = [].
Proof.
  intros Hp. induction l as [|x r IH]; simpl; [reflexivity|]. rewrite Hp. exact IH.
Qed.

Lemma subscribeFamily_marked (method : string) (m : gmap nat Subscription) :
  snd (subscribeFamily method (markSubscribing <$> m)) = [].
Proof.
  unfold subscribeFamily. cbn [snd].
  rewrite (filter_none _ _ (needsCall_marked m)). reflexivity.
Qed.

(** The calls that subscribe. *)
Definition isSubscribeCall (call : SocketCall) : bool :=
  match call with
  | Call _ _ => true
  | _ => false
  end.

(** X15: [_updateSubscriptions] sends the subscribe call of a record once:
    called again right away, before any answer of the node, it sends no
    subscribe call at all. *)
Theorem updateSubscriptions_subscribes_once (c : Connection) :
  List.filter isSubscribeCall (snd (_updateSubscriptions (fst (_updateSubscriptions c)))) = [].
Proof.
  unfold _updateSubscriptions at 2.
  destruct (_ && _) eqn:Hnone.
  - destruct (_rpcWebSocketConnected c) eqn:Hc; cbn [fst].
    + unfold _updateSubscriptions.
      cbn [_accountChangeSubscriptions _programAccountChangeSubscriptions _rootSubscriptions
           _signatureSubscriptions _slotSubscriptions _logsSubscriptions
           _slotUpdateSubscriptions _rpcWebSocketConnected].
      rewrite Hnone. reflexivity.
    + unfold _updateSubscriptions. rewrite Hnone, Hc. reflexivity.
  - destruct (negb _) eqn:Hconn; cbn [fst].
    + unfold _updateSubscriptions.
      cbn [_accountChangeSubscriptions _programAccountChangeSubscriptions _rootSubscriptions
           _signatureSubscriptions _slotSubscriptions _logsSubscriptions
           _slotUpdateSubscriptions _rpcWebSocketConnected _rpcWebSocketIdleTimeout].
      rewrite Hnone. reflexivity.
    + unfold subscribeFamily at 1 2 3 4 5 6 7. cbn [fst].
      unfold _updateSubscriptions.
      cbn [_accountChangeSubscriptions _programAccountChangeSubscriptions _rootSubscriptions
           _signatureSubscriptions _slotSubscriptions _logsSubscriptions
           _slotUpdateSubscriptions _rpcWebSocketConnected _rpcWebSocketIdleTimeout].
      rewrite !keysOf_fmap_length, Hnone. cbn [orb negb].
      repeat match goal with
             | |- context [subscribeFamily ?meth (markSubscribing <$> ?m)] =>
                 let H := fresh in
                 pose proof (subscribeFamily_marked meth m) as H;
                 destruct (subscribeFamily meth (markSubscribing <$> m));
                 cbn [snd] in H; subst
             end.
      reflexivity.
Qed.

Lemma keysOf_In (m : gmap nat Subscription) (id : nat) :
  In id (keysOf m) <-> is_Some (m !! id).
Proof.
  unfold keysOf. rewrite <- list_elem_of_In, merge_sort_Permutation.
  rewrite list_elem_of_In, in_map_iff. split.
  - intros ([k v] & <- & Hin). apply list_elem_of_In, elem_of_map_to_list in Hin.
    exists v. exact Hin.
  - intros [v Hv]. exists (id, v). split; [reflexivity|].
    apply list_elem_of_In, elem_of_map_to_list. exact Hv.
Qed.

Lemma keysOf_nonempty (m : gmap nat Subscription) (id : nat) (s : Subscription) :
  m !! id = Some s -> (length (keysOf m) =? 0)%nat = false.
Proof.
  intros H. assert (Hin : In id (keysOf m)) by (apply keysOf_In; exists s; exact H).
  destruct (keysOf m); [destruct Hin | reflexivity].
Qed.

Lemma subscribeFamily_call (method : string) (m : gmap nat Subscription) (id : nat)
    (s : Subscription) :
  m !! id = Some s -> subscriptionId s = None ->
  In (Call method id) (snd (subscribeFamily method m))
  /\ fst (subscribeFamily method m) !! id = Some (markSubscribing s).
Proof.
  intros Hs Hnull. unfold subscribeFamily. cbn [fst snd]. split.
  - apply in_map, filter_In. split; [apply keysOf_In; exists s; exact Hs|].
    unfold needsCall. rewrite Hs. destruct s as [[x|] r]; [discriminate | reflexivity].
  - rewrite lookup_fmap, Hs. reflexivity.
Qed.

(** The name of the subscribe call of each family. *)
Definition subscribeMethod (f : Family) : string :=
  match f with
  | AccountChange => "accountSubscribe"
  | ProgramAccountChange => "programSubscribe"
  | Root => "rootSubscribe"
  | Signature => "signatureSubscribe"
  | Slot => "slotSubscribe"
  | Logs => "logsSubscribe"
  | SlotUpdate => "slotsUpdatesSubscribe"
  end.

(** X16: while the socket is connected, [_updateSubscriptions] sends the
    subscribe call of every record, of every family, whose id is null, and
    marks the record as subscribing. *)
Theorem updateSubscriptions_subscribes_null (c : Connection) (f : Family) (id : nat)
    (s : Subscription) :
  _rpcWebSocketConnected c = true ->
  familyOf f c !! id = Some s ->
  subscriptionId s = None ->
  In (Call (subscribeMethod f) id) (snd (_updateSubscriptions c))
  /\ familyOf f (fst (_updateSubscriptions c)) !! id
     = Some (mkSubscription (Some Subscribing) (registered s)).
Proof.
  intros Hc Hs Hnull.
  assert (Hmark : markSubscribing s = mkSubscription (Some Subscribing) (registered s)).
  { unfold markSubscribing. rewrite Hnull. reflexivity. }
  rewrite <- Hmark. clear Hmark.
  unfold _updateSubscriptions. rewrite Hc. cbn [orb negb].
  assert (Hnone : (length (keysOf (familyOf f c)) =? 0)%nat = false)
    by exact (keysOf_nonempty _ _ _ Hs).
  destruct f; cbn [familyOf subscribeMethod] in *;
    rewrite Hnone, ?andb_false_r, ?andb_false_l;
    match goal with
    | |- context [subscribeFamily ?meth ?m] =>
        match type of Hs with
        | m !! _ = _ => destruct (subscribeFamily_call meth m id s Hs Hnull) as [Hcall Hrec]
        end
    end;
    repeat match goal with
           | |- context [let '(_, _) := subscribeFamily ?meth ?m in _] =>
               destruct (subscribeFamily meth m) as [? ?]
           end;
    cbn [fst snd familyOf _accountChangeSubscriptions _programAccountChangeSubscriptions
         _rootSubscriptions _signatureSubscriptions _slotSubscriptions _logsSubscriptions
         _slotUpdateSubscriptions] in *;
    (split; [rewrite !in_app_iff; tauto | exact Hrec]).
Qed.

Lemma updateSubscriptions_subscribes_null_witness :
  let c := fst (_wsOnClose 1006 two_subscriptions) in
  In (Call "accountSubscribe" 0)
     (snd (_updateSubscriptions (set_connected true c))).
Proof.
  intros c.
  apply (updateSubscriptions_subscribes_null (set_connected true c) AccountChange 0
           (mkSubscription None "account")).
  - reflexivity.
  - reflexivity.
  - reflexivity.
Defined.

(** X17: after a close with a code other than 1000, when the socket opens
    again, every record of the six families that are reset is subscribed
    anew, whatever id it had before. *)
Theorem reconnect_resubscribes (code : Z) (c : Connection) (f : Family) (id : nat)
    (s : Subscription) :
  code <> 1000 ->
  f <> Logs ->
  familyOf f c !! id = Some s ->
  let reopened := _wsOnOpen (fst (_wsOnClose code c)) in
  In (Call (subscribeMethod f) id) (snd reopened)
  /\ familyOf f (fst reopened) !! id
     = Some (mkSubscription (Some Subscribing) (registered s)).
Proof.
  intros Hcode Hf Hs reopened. subst reopened. unfold _wsOnOpen.
  apply (updateSubscriptions_subscribes_null _ f id (set_subscriptionId None s)).
  - reflexivity.
  - unfold _wsOnClose. destruct (Z.eqb_spec code 1000); [contradiction|]. cbn [fst].
    destruct f; try contradiction; cbn [familyOf] in Hs |- *;
      unfold set_heartbeat, set_connected, _resetSubscriptions;
      cbn [_accountChangeSubscriptions _programAccountChangeSubscriptions _rootSubscriptions
           _signatureSubscriptions _slotSubscriptions _logsSubscriptions
           _slotUpdateSubscriptions];
      rewrite resetFamily_lookup, Hs; reflexivity.
  - reflexivity.
Qed.

Lemma reconnect_resubscribes_witness :
  In (Call "accountSubscribe" 0)
     (snd (_wsOnOpen (fst (_wsOnClose 1006 two_subscriptions)))).
Proof.
  apply (reconnect_resubscribes 1006 two_subscriptions AccountChange 0
           (mkSubscription (Some (Subscribed 3)) "account")).
  - lia.
  - discriminate.
  - reflexivity.
Defined.

(* ===================================================================== *)
(** ** Further properties: the signature slots                            *)
(* ===================================================================== *)

Lemma every2_keys (sigs : list SignaturePubkeyPair) : forall (signedKeys : list PublicKey),
  length sigs = length signedKeys ->
  every2 (fun pair key =>
            match publicKey pair with
            | Some k => PublicKey_equals key k
            | None => false
            end) sigs signedKeys = true ->
  map publicKey sigs = map Some signedKeys.
Proof.
  induction sigs as [|p r IH]; intros [|k ks]; cbn [every2 length map]; try discriminate.
  - reflexivity.
  - intros [= Hl] H. apply andb_true_iff in H as [Hk Hr].
    destruct (publicKey p) as [k'|]; [|discriminate].
    apply PublicKey_equals_eq in Hk. subst k'. f_equal. exact (IH ks Hl Hr).
Qed.

Lemma compiledSignatures_keys (sigs : list SignaturePubkeyPair) (m : Message.t) :
  map publicKey (compiledSignatures sigs m)
  = map Some (slice_to (Message.accountKeys m) (numRequiredSignatures (Message.header m)))
  /\ (compiledSignatures sigs m = sigs
      \/ Forall (fun p => signature p = None) (compiledSignatures sigs m)).
Proof.
  unfold compiledSignatures.
  destruct (Nat.eqb_spec (length sigs)
              (length (slice_to (Message.accountKeys m)
                         (numRequiredSignatures (Message.header m))))) as [Hl|Hl];
    cbn [andb].
  - destruct (every2 _ sigs _) eqn:He.
    + split; [exact (every2_keys _ _ Hl He) | left; reflexivity].
    + split; [rewrite map_map; reflexivity|]. right.
      apply List.Forall_forall. intros p Hp. apply in_map_iff in Hp as (k & <- & _). reflexivity.
  - split; [rewrite map_map; reflexivity|]. right.
    apply List.Forall_forall. intros p Hp. apply in_map_iff in Hp as (k & <- & _). reflexivity.
Qed.

Lemma compile_general (tx : Transaction.t) :
  _compile tx
  = match Transaction.compileBody (Transaction.applyNonce tx) with
    | Ok m =>
        (Transaction.mk (compiledSignatures (Transaction.signatures tx) m)
           (Transaction.feePayer tx)
           (Transaction.instructions (Transaction.applyNonce tx))
           (Transaction.recentBlockhash (Transaction.applyNonce tx))
           (Transaction.nonceInfo tx), Ok m)
    | Err e => (Transaction.applyNonce tx, Err e)
    end.
Proof.
  pose proof (applyNonce_signatures tx) as Hs.
  pose proof (applyNonce_feePayer tx) as Hf.
  assert (Hni : Transaction.nonceInfo (Transaction.applyNonce tx) = Transaction.nonceInfo tx).
  { destruct tx as [s f i r [ni|]]; unfold Transaction.applyNonce;
      cbn [Transaction.nonceInfo]; [|reflexivity].
    destruct (negb _); reflexivity. }
  unfold _compile, bindM, Transaction.compileMessage, this, compiledSignatures.
  rewrite <- Hs, <- Hf, <- Hni. clear Hs Hf Hni.
  generalize (Transaction.applyNonce tx). intros tx1.
  destruct (Transaction.compileBody tx1) as [m|e]; [|reflexivity].
  destruct (_ && _); destruct tx1; reflexivity.
Qed.

(** X18: after [_compile] the signature slots carry exactly the keys the
    message requires signatures of, in the order of the account table.
    The signatures found are kept only when their keys were already those;
    otherwise every slot is null. *)
Theorem compile_signature_slots (tx tx' : Transaction.t) (m : Message.t) :
  _compile tx = (tx', Ok m) ->
  map publicKey (Transaction.signatures tx')
  = map Some (slice_to (Message.accountKeys m) (numRequiredSignatures (Message.header m)))
  /\ (Transaction.signatures tx' = Transaction.signatures tx
      \/ Forall (fun p => signature p = None) (Transaction.signatures tx')).
Proof.
  rewrite compile_general.
  destruct (Transaction.compileBody _) as [m'|e]; [|discriminate].
  intros [= <- <-]. cbn [Transaction.signatures]. apply compiledSignatures_keys.
Qed.

Lemma compile_signature_slots_witness :
  map publicKey (Transaction.signatures (fst (_compile sample_tx)))
  = map Some (slice_to (Message.accountKeys sample_message)
                (numRequiredSignatures (Message.header sample_message))).
Proof.
  apply (compile_signature_slots sample_tx (fst (_compile sample_tx)) sample_message).
  vm_compute. reflexivity.
Defined.

(** [addSignature(pubkey, signature)] *)
Definition addSignature (pubkey : PublicKey) (sig : list byte) : Method unit :=
  let! _ := _compile in
  _addSignature pubkey sig.

Lemma nth_error_modify_at {A} (f : A -> A) (l : list A) : forall i x,
  nth_error l i = Some x -> nth_error (modify f i l) i = Some (f x).
Proof.
  induction l as [|a r IH]; intros [|i] x; cbn; try discriminate.
  - intros [= ->]. reflexivity.
  - apply IH.
Qed.

(** X19: [addSignature] for a key the compiled message requires no
    signature of throws the unknown-signer error. *)
Theorem addSignature_unknown_signer
    (pubkey : PublicKey) (sig : list byte) (tx : Transaction.t) (m : Message.t) :
  snd (Transaction.compileMessage tx) = Ok m ->
  length sig = 64%nat ->
  ~ In pubkey (slice_to (Message.accountKeys m) (numRequiredSignatures (Message.header m))) ->
  snd (addSignature pubkey sig tx) = Err (UnknownSigner (PublicKey_toString pubkey)).
Proof.
  unfold Transaction.compileMessage. cbn [snd]. intros Hm Hlen Hnot.
  unfold addSignature, bindM. rewrite compile_general, Hm.
  unfold _addSignature. rewrite Hlen. cbn [Nat.eqb negb]. unfold bindM, this.
  cbn [Transaction.signatures].
  destruct (find_index _ (compiledSignatures (Transaction.signatures tx) m)) as [i|] eqn:Ei;
    [|reflexivity].
  exfalso. apply Hnot.
  apply find_index_Some in Ei as (p & Hp & Heq & _).
  destruct (publicKey p) as [k|] eqn:Ek; [|discriminate].
  apply PublicKey_equals_eq in Heq. subst k.
  destruct (compiledSignatures_keys (Transaction.signatures tx) m) as [Hkeys _].
  assert (Hin : In (Some pubkey) (map publicKey (compiledSignatures (Transaction.signatures tx) m))).
  { apply in_map_iff. exists p. split; [exact Ek|]. eapply nth_error_In. exact Hp. }
  rewrite Hkeys in Hin. apply in_map_iff in Hin as (k & [= ->] & Hk). exact Hk.
Qed.

Lemma addSignature_unknown_signer_witness :
  snd (addSignature (key 9) (repeat x01 64) sample_tx)
  = Err (UnknownSigner (PublicKey_toString (key 9))).
Proof.
  apply (addSignature_unknown_signer (key 9) (repeat x01 64) sample_tx sample_message).
  - vm_compute. reflexivity.
  - reflexivity.
  - vm_compute. intros [H|[H|[H|[]]]]; discriminate.
Defined.

(** X20: when [addSignature] returns, the key is one of the required
    signers, the signature has 64 bytes and stands in the slot of the key,
    at the index the key has in the account table. *)
Theorem addSignature_slot
    (pubkey : PublicKey) (sig : list byte) (tx tx' : Transaction.t) :
  addSignature pubkey sig tx = (tx', Ok tt) ->
  exists m i,
    snd (Transaction.compileMessage tx) = Ok m
    /\ length sig = 64%nat
    /\ (Z.of_nat i < numRequiredSignatures (Message.header m))
    /\ nth_error (Message.accountKeys m) i = Some pubkey
    /\ nth_error (Transaction.signatures tx') i = Some (mkPair (Some sig) (Some pubkey)).
Proof.
  unfold addSignature. intros H. apply bindM_Ok in H as (m & tx1 & Hc & H).
  rewrite compile_general in Hc.
  destruct (Transaction.compileBody (Transaction.applyNonce tx)) as [m'|e] eqn:Em;
    [|discriminate].
  injection Hc as <- <-.
  unfold _addSignature in H.
  destruct (Nat.eqb_spec (length sig) 64) as [Hlen|]; [|discriminate]. cbn [negb] in H.
  unfold bindM, this in H. cbn [Transaction.signatures] in H.
  destruct (find_index _ (compiledSignatures (Transaction.signatures tx) m')) as [i|] eqn:Ei;
    [|discriminate].
  unfold set_signatures in H. injection H as <-. cbn [Transaction.signatures].
  apply find_index_Some in Ei as (p & Hp & Heq & _).
  destruct (publicKey p) as [k|] eqn:Ek; [|discriminate].
  apply PublicKey_equals_eq in Heq. subst k.
  destruct (compiledSignatures_keys (Transaction.signatures tx) m') as [Hkeys _].
  assert (Hi : nth_error (slice_to (Message.accountKeys m')
                            (numRequiredSignatures (Message.header m'))) i = Some pubkey).
  { pose proof (f_equal (fun l => nth_error l i) Hkeys) as Hn. cbn beta in Hn.
    rewrite !nth_error_map, Hp in Hn. cbn in Hn. rewrite Ek in Hn.
    destruct (nth_error (slice_to _ _) i); cbn in Hn; congruence. }
  exists m', i. split; [unfold Transaction.compileMessage; exact Em|]. split; [exact Hlen|].
  unfold slice_to in Hi.
  destruct (Z.ltb_spec (numRequiredSignatures (Message.header m')) 0) as [Hneg|Hpos].
  - exfalso. destruct (TransactionFacts.compileBody_wf _ _ Em) as (_ & Hn & _). lia.
  - assert (Hlt : (i < Z.to_nat (numRequiredSignatures (Message.header m')))%nat).
    { assert (Hsome : nth_error (firstn (Z.to_nat (numRequiredSignatures (Message.header m')))
                                   (Message.accountKeys m')) i <> None) by congruence.
      apply nth_error_Some in Hsome. rewrite length_firstn in Hsome. lia. }
    split; [lia|]. split.
    + rewrite nth_error_firstn in Hi.
      destruct (Nat.ltb_spec i (Z.to_nat (numRequiredSignatures (Message.header m'))));
        [exact Hi | lia].
    + rewrite (nth_error_modify_at _ _ _ _ Hp). unfold set_signature. rewrite Ek. reflexivity.
Qed.

Lemma addSignature_slot_witness :
  exists m i,
    snd (Transaction.compileMessage sample_tx) = Ok m
    /\ length (repeat x01 64) = 64%nat
    /\ (Z.of_nat i < numRequiredSignatures (Message.header m))
    /\ nth_error (Message.accountKeys m) i = Some (key 2)
    /\ nth_error (Transaction.signatures (fst (addSignature (key 2) (repeat x01 64) sample_tx))) i
       = Some (mkPair (Some (repeat x01 64)) (Some (key 2))).
Proof.
  apply (addSignature_slot (key 2) (repeat x01 64) sample_tx).
  vm_compute. reflexivity.
Defined.

Lemma lastSecret_owner (signers : list Signer) (p : SignaturePubkeyPair) (sk : list byte) :
  lastSecret signers p = Some sk ->
  exists signer, In signer signers /\ ownsSlot p signer = true /\ sk = secretKey signer.
Proof.
  induction signers as [|x r IH]; cbn [lastSecret]; [discriminate|].
  destruct (lastSecret r p) as [sk'|].
  - intros [= <-]. destruct (IH eq_refl) as (signer & Hin & Ho & Hs).
    exists signer. split; [right; exact Hin|]. split; assumption.
  - destruct (ownsSlot p x) eqn:Ho; [|discriminate]. intros [= <-].
    exists x. split; [left; reflexivity|]. split; [exact Ho | reflexivity].
Qed.

(** X21: the primary signature [sign] leaves is a signature of the fee
    payer: the bytes of the compiled message signed with the secret key of
    one of the signers, whose public key is the key at index 0 of the
    account table. *)
Theorem sign_primary_by_fee_payer
    (nacl_sign : list byte -> list byte -> list byte)
    (nacl_verify : list byte -> list byte -> list byte -> bool)
    (signers : list Signer) (tx tx' : Transaction.t) (b : string) (s : list byte) :
  Transaction.nonceInfo tx = None ->
  Transaction.recentBlockhash tx = Some b ->
  sign nacl_sign nacl_verify signers tx = (tx', Ok tt) ->
  primarySignature tx' = Some s ->
  exists m signData signer,
    Transaction.compileBody
      (Transaction.mk (signerSlots signers) (Transaction.feePayer tx)
         (Transaction.instructions tx) (Some b) None) = Ok m
    /\ Message.serialize m = Ok signData
    /\ In signer signers
    /\ hd_error (Message.accountKeys m) = Some (signer_publicKey signer)
    /\ s = nacl_sign signData (secretKey signer).
Proof.
  destruct tx as [sigs fp ixs rb ni].
  cbn [Transaction.nonceInfo Transaction.recentBlockhash Transaction.feePayer
       Transaction.instructions].
  intros -> -> Hsign Hs.
  destruct (sign_primary _ _ _ _ _ _ _ _ _ Hsign Hs)
    as (sigs' & m & d & p & sk & _ & Hm & Hd & Hp & Hsk & ->).
  apply lastSecret_owner in Hsk as (signer & Hin & Ho & ->).
  exists m, d, signer. split; [exact Hm|]. split; [exact Hd|].
  split; [exact (dedupeSigners_In _ _ _ Hin)|]. split; [|reflexivity].
  unfold ownsSlot in Ho. destruct (publicKey p) as [k|] eqn:Ek; [|discriminate].
  apply PublicKey_equals_eq in Ho. subst k.
  destruct (compiledSignatures_keys (signerSlots signers) m) as [Hkeys _].
  destruct (compiledSignatures (signerSlots signers) m) as [|p0 rest]; [discriminate|].
  cbn [hd_error] in Hp. injection Hp as ->.
  cbn [map] in Hkeys. rewrite Ek in Hkeys.
  unfold slice_to in Hkeys.
  destruct (numRequiredSignatures (Message.header m) <? 0).
  - destruct (Message.accountKeys m) as [|k0 ks]; [destruct (_ - _)%nat; discriminate|].
    destruct (length (k0 :: ks) - _)%nat; [discriminate|].
    cbn in Hkeys. injection Hkeys as -> _. reflexivity.
  - destruct (Message.accountKeys m) as [|k0 ks];
      [destruct (Z.to_nat _); discriminate|].
    destruct (Z.to_nat _); [discriminate|].
    cbn in Hkeys. injection Hkeys as -> _. reflexivity.
Qed.

Definition signed_transfer : Transaction.t * Result unit :=
  Eval vm_compute in
    sign digest_sign digest_verify [payer_signer]
      (set_recentBlockhash sample_blockhash transfer_tx).

Lemma sign_primary_by_fee_payer_witness :
  exists m signData signer,
    Transaction.compileBody
      (Transaction.mk (signerSlots [payer_signer]) (Some (key 1))
         (Transaction.instructions transfer_tx) (Some sample_blockhash) None) = Ok m
    /\ Message.serialize m = Ok signData
    /\ In signer [payer_signer]
    /\ hd_error (Message.accountKeys m) = Some (signer_publicKey signer)
    /\ primarySignature (fst signed_transfer) = Some (digest_sign signData (secretKey signer)).
Proof.
  destruct (sign_primary_by_fee_payer digest_sign digest_verify [payer_signer]
              (set_recentBlockhash sample_blockhash transfer_tx) (fst signed_transfer)
              sample_blockhash
              (match primarySignature (fst signed_transfer) with
               | Some s => s
               | None => []
               end))
    as (m & d & signer & Hm & Hd & Hin & Hhd & Hs).
  - reflexivity.
  - reflexivity.
  - vm_compute. reflexivity.
  - vm_compute. reflexivity.
  - exists m, d, signer. split; [exact Hm|]. split; [exact Hd|]. split; [exact Hin|].
    split; [exact Hhd|]. rewrite <- Hs. vm_compute. reflexivity.
Defined.

(* ===================================================================== *)
(** ** Further properties: the wire form of a transaction                 *)
(* ===================================================================== *)

(** The 64 bytes a slot takes on the wire. *)
Definition slotBytes (p : SignaturePubkeyPair) : list byte :=
  match signature p with
  | Some sig => sig
  | None => repeat x00 64
  end.

Lemma verifyPairs_all nacl_verify (signData : list byte) (sigs : list SignaturePubkeyPair) :
  verifyPairs nacl_verify sigs signData true = true ->
  Forall (fun p => exists sig,
            signature p = Some sig
            /\ nacl_verify signData sig
                 (match publicKey p with
                  | Some k => PublicKey_toBuffer k
                  | None => []
                  end) = true) sigs.
Proof.
  induction sigs as [|[[sig|] k] r IH]; cbn [verifyPairs]; [constructor| |discriminate].
  destruct (nacl_verify signData sig _) eqn:Ev; cbn [negb]; [|discriminate].
  intros H. constructor; [|exact (IH H)]. exists sig. split; [reflexivity | exact Ev].
Qed.

Lemma serialize_Ok nacl_verify (tx tx' : Transaction.t) (wire : list byte) :
  serialize nacl_verify tx = (tx', Ok wire) ->
  exists m signData count,
    Transaction.compileBody (Transaction.applyNonce tx) = Ok m
    /\ tx' = Transaction.mk (compiledSignatures (Transaction.signatures tx) m)
               (Transaction.feePayer tx)
               (Transaction.instructions (Transaction.applyNonce tx))
               (Transaction.recentBlockhash (Transaction.applyNonce tx))
               (Transaction.nonceInfo tx)
    /\ Message.serialize m = Ok signData
    /\ encodeLength (Z.of_nat (length (Transaction.signatures tx'))) = Ok count
    /\ (length (Transaction.signatures tx') < 256)%nat
    /\ Forall (fun p => exists sig key,
                 signature p = Some sig /\ publicKey p = Some key
                 /\ length sig = 64%nat
                 /\ nacl_verify signData sig (PublicKey_toBuffer key) = true)
         (Transaction.signatures tx')
    /\ wire = count ++ concat (map slotBytes (Transaction.signatures tx')) ++ signData
    /\ (length wire <= 1232)%nat.
Proof.
  intros H. unfold serialize in H. apply bindM_Ok in H as (d & tx2 & Hsm & H).
  unfold serializeMessage in Hsm. apply bindM_Ok in Hsm as (m & tx3 & Hc & Hl).
  rewrite compile_general in Hc.
  destruct (Transaction.compileBody (Transaction.applyNonce tx)) as [m'|e] eqn:Em;
    [|discriminate].
  injection Hc as <- <-. unfold lift in Hl. injection Hl as <- Hd.
  apply bindM_Ok in H as (tx4 & tx5 & Hthis & H).
  unfold this in Hthis. injection Hthis as <- <-.
  destruct (_verifySignatures nacl_verify _ d true) eqn:Ev; cbn [negb] in H;
    [|discriminate].
  unfold _verifySignatures in Ev. cbn [Transaction.signatures] in Ev.
  apply verifyPairs_all in Ev.
  unfold _serialize in H. apply bindM_Ok in H as (tx6 & tx7 & Hthis & H).
  unfold this in Hthis. injection Hthis as <- <-. cbn [Transaction.signatures] in H.
  apply bindM_Ok in H as (count & tx8 & Hcount & H).
  unfold lift in Hcount. injection Hcount as <- Hcount.
  destruct (Nat.ltb_spec (length (compiledSignatures (Transaction.signatures tx) m')) 256)
      as [H256|]; cbn [negb] in H; [|discriminate].
  destruct (forallb _ _) eqn:Hall in H; cbn [negb] in H; [|discriminate].
  match type of H with
  | (if negb (length ?w <=? _)%nat then _ else _) _ = _ =>
      destruct (Nat.leb_spec (length w) PACKET_DATA_SIZE) as [Hsize|]; cbn [negb] in H;
        [|discriminate]
  end.
  unfold ret in H. injection H as <- <-. cbn [Transaction.signatures Transaction.instructions].
  exists m', d, count. split; [reflexivity|]. split; [reflexivity|].
  split; [exact Hd|]. split; [exact Hcount|]. split; [exact H256|].
  split; [|split; [reflexivity | exact Hsize]].
  rewrite forallb_forall in Hall.
  destruct (compiledSignatures_keys (Transaction.signatures tx) m') as [Hkeys _].
  apply List.Forall_forall. intros p Hp.
  rewrite List.Forall_forall in Ev. destruct (Ev p Hp) as (sig & Hsig & Hv).
  assert (Hk : exists key, publicKey p = Some key).
  { assert (Hin : In (publicKey p)
                    (map publicKey (compiledSignatures (Transaction.signatures tx) m')))
      by (apply in_map; exact Hp).
    rewrite Hkeys in Hin. apply in_map_iff in Hin as (key & Hkey & _). eauto. }
  destruct Hk as (key & Hk). exists sig, key.
  split; [exact Hsig|]. split; [exact Hk|]. split.
  - specialize (Hall p Hp). rewrite Hsig in Hall. apply Nat.eqb_eq. exact Hall.
  - rewrite Hk in Hv. exact Hv.
Qed.

(** X22: what [serialize] guarantees when it returns: every signature slot
    holds a signature of 64 bytes that the verifying function accepts for
    the message bytes and the key of the slot; the wire bytes are the
    number of slots as a compact length, the signatures in order, and the
    message bytes; and they are at most 1232 bytes, the packet data size. *)
Theorem serialize_wire nacl_verify (tx tx' : Transaction.t) (wire : list byte) :
  serialize nacl_verify tx = (tx', Ok wire) ->
  exists m signData count,
    snd (Transaction.compileMessage tx) = Ok m
    /\ Message.serialize m = Ok signData
    /\ encodeLength (Z.of_nat (length (Transaction.signatures tx'))) = Ok count
    /\ Forall (fun p => exists sig key,
                 signature p = Some sig /\ publicKey p = Some key
                 /\ length sig = 64%nat
                 /\ nacl_verify signData sig (PublicKey_toBuffer key) = true)
         (Transaction.signatures tx')
    /\ wire = count ++ concat (map slotBytes (Transaction.signatures tx')) ++ signData
    /\ (length wire <= 1232)%nat.
Proof.
  intros H.
  destruct (serialize_Ok _ _ _ _ H)
    as (m & d & count & Hm & _ & Hd & Hcount & _ & Hall & Hwire & Hsize).
  exists m, d, count. repeat split; assumption.
Qed.

Definition sent_transfer : Transaction.t * Result (list byte) :=
  Eval vm_compute in serialize digest_verify (fst signed_transfer).

Definition wire_of (r : Transaction.t * Result (list byte)) : list byte :=
  match snd r with
  | Ok wire => wire
  | Err _ => []
  end.

Lemma serialize_wire_witness :
  exists m signData count,
    snd (Transaction.compileMessage (fst signed_transfer)) = Ok m
    /\ Message.serialize m = Ok signData
    /\ encodeLength (Z.of_nat (length (Transaction.signatures (fst sent_transfer)))) = Ok count
    /\ wire_of sent_transfer
       = count ++ concat (map slotBytes (Transaction.signatures (fst sent_transfer)))
         ++ signData.
Proof.
  destruct (serialize_wire digest_verify (fst signed_transfer) (fst sent_transfer)
              (wire_of sent_transfer))
    as (m & d & count & Hm & Hd & Hcount & _ & Hwire & _).
  - vm_compute. reflexivity.
  - exists m, d, count. repeat split; assumption.
Defined.

Definition DEFAULT_SIGNATURE : list byte := repeat x00 64.

(** [arr[i]] for a number [i]: undefined outside the array. *)
Definition at_index {A} (l : list A) (i : Z) : option A :=
  if i <? 0 then None else nth_error l (Z.to_nat i).

(** The loop of [Transaction.from] over the signatures: 64 bytes each,
    kept as base-58 text. *)
Fixpoint read_signatures (count : nat) (byteArray : list byte) : list string * list byte :=
  match count with
  | O => ([], byteArray)
  | S c =>
      let signature := slice_to byteArray (Z.of_nat SIGNATURE_LENGTH) in
      let byteArray := slice_from byteArray (Z.of_nat SIGNATURE_LENGTH) in
      let '(signatures, rest) := read_signatures c byteArray in
      (bs58.encode signature :: signatures, rest)
  end.

(** The first loop of [populate]: a slot per signature, null for the text
    of 64 zero bytes, with the account key of the same index (undefined
    past the end of the table). *)
Fixpoint populate_signatures (accountKeys : list PublicKey) (signatures : list string)
    (index : nat) : Result (list SignaturePubkeyPair) :=
  match signatures with
  | [] => Ok []
  | signature :: r =>
      let* sig :=
        if String.eqb signature (bs58.encode DEFAULT_SIGNATURE) then Ok None
        else let* decoded := of_option NonBase58Character (bs58.decode signature) in
             Ok (Some decoded) in
      let* rest := populate_signatures accountKeys r (S index) in
      Ok (mkPair sig (nth_error accountKeys index) :: rest)
  end.

(** [transaction.signatures.some(keyObj =>
      keyObj.publicKey.toString() === pubkey.toString())] *)
Fixpoint some_signer (sigs : list SignaturePubkeyPair) (pubkey : PublicKey) : Result bool :=
  match sigs with
  | [] => Ok false
  | keyObj :: r =>
      match publicKey keyObj with
      | None => Err UndefinedRead
      | Some k =>
          if String.eqb (PublicKey_toString k) (PublicKey_toString pubkey) then Ok true
          else some_signer r pubkey
      end
  end.

(** One account of an instruction.  An index that names no key gives an
    undefined key in the source, which throws when it is compared with a
    signature key; with an empty signature list the source goes on with the
    undefined key.  A meta of the model always has a key, and the model
    answers with the error in both cases. *)
Definition populate_key (message : Message.t) (sigs : list SignaturePubkeyPair)
    (account : Z) : Result AccountMeta :=
  match at_index (Message.accountKeys message) account with
  | None => Err UndefinedRead
  | Some pubkey =>
      let* isSigner := some_signer sigs pubkey in
      Ok (mkMeta pubkey isSigner (Message.isAccountWritable message account))
  end.

(** The second loop of [populate]; every instruction is a new object,
    [oid] counts them. *)
Fixpoint populate_instructions (message : Message.t) (sigs : list SignaturePubkeyPair)
    (oid : nat) (instructions : list CompiledInstruction)
    : Result (list TransactionInstruction) :=
  match instructions with
  | [] => Ok []
  | instruction :: r =>
      let* keys := mapM (populate_key message sigs) (accounts instruction) in
      let programId := at_index (Message.accountKeys message) (programIdIndex instruction) in
      let* data := of_option NonBase58Character (bs58.decode (cdata instruction)) in
      let* rest := populate_instructions message sigs (S oid) r in
      Ok (mkInstruction oid keys programId data :: rest)
  end.

(** [Transaction.populate(message, signatures)] *)
Definition populate (message : Message.t) (signatures : list string) : Result Transaction.t :=
  let recentBlockhash := Some (Message.recentBlockhash message) in
  let feePayer :=
    if 0 <? numRequiredSignatures (Message.header message)
    then hd_error (Message.accountKeys message)
    else None in
  let* sigs := populate_signatures (Message.accountKeys message) signatures 0 in
  let* instructions := populate_instructions message sigs 0 (Message.instructions message) in
  Ok (Transaction.mk sigs feePayer instructions recentBlockhash None).

(** [Transaction.from(buffer)] *)
Definition Transaction_from (buffer : list byte) : Result Transaction.t :=
  let '(signatureCount, byteArray) := decodeLength buffer in
  let '(signatures, byteArray) := read_signatures (Z.to_nat signatureCount) byteArray in
  let* message := Message.from byteArray in
  populate message signatures.

Lemma read_signatures_concat (slots : list (list byte)) : forall rest,
  Forall (fun s => length s = 64%nat) slots ->
  read_signatures (length slots) (concat slots ++ rest) = (map bs58.encode slots, rest).
Proof.
  induction slots as [|s r IH]; intros rest Hall; [reflexivity|].
  inversion Hall as [|? ? Hs Hr]; subst.
  cbn [length read_signatures concat map]. rewrite <- app_assoc.
  assert (H64 : Z.of_nat SIGNATURE_LENGTH = Z.of_nat (length s)) by (rewrite Hs; reflexivity).
  rewrite H64, slice_to_app, slice_from_app, IH by exact Hr. reflexivity.
Qed.

(** The wire bytes of a transaction are read back into its message and the
    texts of its signatures. *)
Lemma Transaction_from_wire nacl_verify (tx tx' : Transaction.t) (wire : list byte) :
  serialize nacl_verify tx = (tx', Ok wire) ->
  exists m,
    Transaction.compileBody (Transaction.applyNonce tx) = Ok m
    /\ Transaction_from wire
       = populate m (map (fun p => bs58.encode (slotBytes p)) (Transaction.signatures tx')).
Proof.
  intros H.
  destruct (serialize_Ok _ _ _ _ H)
    as (m & d & count & Hm & _ & Hd & Hcount & H256 & Hall & -> & Hsize).
  exists m. split; [exact Hm|].
  unfold Transaction_from.
  assert (Hrange : 0 <= Z.of_nat (length (Transaction.signatures tx')) < 2 ^ 31)
    by (change (2 ^ 31) with 2147483648; lia).
  rewrite (MessageFacts.decode_after_encode _ _ _ Hrange Hcount).
  rewrite Nat2Z.id, <- (length_map slotBytes), read_signatures_concat.
  2:{ apply List.Forall_map. eapply List.Forall_impl; [|exact Hall].
      intros p (sig & key & Hsig & _ & Hl & _). unfold slotBytes. rewrite Hsig. exact Hl. }
  rewrite map_map.
  assert (Hfrom : Message.from d = Ok m).
  { unfold Message.serialize in Hd. inv_bind_as Hd laid Hsec. destruct laid as [sd ib].
    injection Hd as <-.
    assert (Hfit : (length (sd ++ ib) <= 2048)%nat).
    { rewrite !length_app in Hsize. rewrite length_firstn in Hsize.
      unfold PACKET_DATA_SIZE in *. lia. }
    rewrite firstn_all2 by exact Hfit.
    exact (proj2 (Message_roundtrip_wf m sd ib (TransactionFacts.compileBody_wf _ _ Hm)
                    Hsec Hfit)). }
  rewrite Hfrom. reflexivity.
Qed.

(** What [populate] makes of the slots of a serialized transaction. *)
Fixpoint reread_slots (accountKeys : list PublicKey) (slots : list SignaturePubkeyPair)
    (index : nat) : list SignaturePubkeyPair :=
  match slots with
  | [] => []
  | p :: r =>
      mkPair (if String.eqb (bs58.encode (slotBytes p)) (bs58.encode DEFAULT_SIGNATURE)
              then None else Some (slotBytes p))
             (nth_error accountKeys index)
      :: reread_slots accountKeys r (S index)
  end.

Lemma populate_signatures_slots accountKeys (slots : list SignaturePubkeyPair) : forall index,
  populate_signatures accountKeys (map (fun p => bs58.encode (slotBytes p)) slots) index
  = Ok (reread_slots accountKeys slots index).
Proof.
  induction slots as [|p r IH]; intros index; [reflexivity|].
  cbn [map populate_signatures reread_slots]. rewrite IH.
  destruct (String.eqb _ _); [reflexivity|].
  rewrite bs58.decode_encode. reflexivity.
Qed.

Lemma reread_slots_keys accountKeys (slots : list SignaturePubkeyPair) : forall index,
  map publicKey (reread_slots accountKeys slots index)
  = map (nth_error accountKeys) (seq index (length slots)).
Proof.
  induction slots as [|p r IH]; intros index; [reflexivity|].
  cbn [reread_slots map length seq publicKey]. rewrite IH. reflexivity.
Qed.

Lemma map_Some_firstn {A} (l : list A) (n : nat) :
  map Some (firstn n l) = map (nth_error l) (seq 0 (length (firstn n l))).
Proof.
  rewrite length_firstn. revert n.
  induction l as [|x r IH]; intros [|n]; cbn [firstn map length Nat.min seq]; try reflexivity.
  rewrite IH, <- seq_shift, map_map. reflexivity.
Qed.

Lemma reread_slots_signatures accountKeys (slots : list SignaturePubkeyPair) : forall index,
  Forall (fun p => signature p <> None) slots ->
  Forall2 (fun p p2 =>
             signature p2 = signature p
             \/ (signature p2 = None /\ signature p = Some DEFAULT_SIGNATURE))
    slots (reread_slots accountKeys slots index).
Proof.
  induction slots as [|p r IH]; intros index Hall; [constructor|].
  inversion Hall as [|? ? Hp Hr]; subst. cbn [reread_slots].
  constructor; [|exact (IH _ Hr)]. cbn [signature].
  unfold slotBytes. destruct (signature p) as [sig|]; [|contradiction].
  destruct (String.eqb_spec (bs58.encode sig) (bs58.encode DEFAULT_SIGNATURE)) as [He|].
  - right. apply bs58.encode_inj in He. subst. split; reflexivity.
  - left. reflexivity.
Qed.

Lemma some_signer_defined (sigs : list SignaturePubkeyPair) (pubkey : PublicKey) :
  Forall (fun p => publicKey p <> None) sigs ->
  exists b, some_signer sigs pubkey = Ok b.
Proof.
  induction 1 as [|p r Hp _ IH]; cbn [some_signer]; [eauto|].
  destruct (publicKey p); [|contradiction].
  destruct (String.eqb _ _); [eauto | exact IH].
Qed.

Lemma populate_keys_resolved (m : Message.t) (sigs : list SignaturePubkeyPair)
    (metas : list AccountMeta) (indices : list Z) :
  Forall (fun p => publicKey p <> None) sigs ->
  Forall2 (fun meta a =>
             0 <= a /\ nth_error (Message.accountKeys m) (Z.to_nat a) = Some (pubkey meta))
    metas indices ->
  exists read,
    mapM (populate_key m sigs) indices = Ok read
    /\ map pubkey read = map pubkey metas
    /\ Forall2 (fun a meta => isWritable meta = Message.isAccountWritable m a) indices read.
Proof.
  intros Hsigs. induction 1 as [|meta a metas' idx (Ha & Hk) _ (read & Hread & Hkeys & Hw)].
  - exists []. repeat split. constructor.
  - destruct (some_signer_defined sigs (pubkey meta) Hsigs) as (b & Hb).
    exists (mkMeta (pubkey meta) b (Message.isAccountWritable m a) :: read).
    cbn [mapM]. unfold populate_key at 1, at_index.
    destruct (Z.ltb_spec a 0); [lia|]. rewrite Hk. cbn [bind]. rewrite Hb. cbn [bind].
    rewrite Hread. cbn [bind map pubkey]. split; [reflexivity|].
    split; [f_equal; exact Hkeys|]. constructor; [reflexivity | exact Hw].
Qed.

Lemma populate_instructions_resolved (m : Message.t) (sigs : list SignaturePubkeyPair)
    (ixs : list TransactionInstruction) (cs : list CompiledInstruction) :
  Forall (fun p => publicKey p <> None) sigs ->
  Forall2
    (fun ix c =>
       (exists pid,
          programId ix = Some pid
          /\ 0 <= programIdIndex c
          /\ nth_error (Message.accountKeys m) (Z.to_nat (programIdIndex c)) = Some pid)
       /\ Forall2 (fun meta a =>
                     0 <= a
                     /\ nth_error (Message.accountKeys m) (Z.to_nat a) = Some (pubkey meta))
            (keys ix) (accounts c)
       /\ cdata c = bs58.encode (data ix)) ixs cs ->
  forall oid,
  exists read,
    populate_instructions m sigs oid cs = Ok read
    /\ Forall2 (fun ix ix2 =>
                  programId ix2 = programId ix
                  /\ data ix2 = data ix
                  /\ map pubkey (keys ix2) = map pubkey (keys ix)) ixs read.
Proof.
  intros Hsigs.
  induction 1 as [|ix c ixs' cs' ((pid & Hpid & Hp0 & Hpn) & Hkeys & Hdata) _ IH]; intros oid.
  - exists []. split; [reflexivity | constructor].
  - destruct (populate_keys_resolved m sigs _ _ Hsigs Hkeys) as (metas & Hmetas & Hpk & _).
    destruct (IH (S oid)) as (read & Hread & Hall).
    exists (mkInstruction oid metas (Some pid) (data ix) :: read).
    cbn [populate_instructions]. rewrite Hmetas. cbn [bind].
    rewrite Hdata, bs58.decode_encode. cbn [of_option bind]. rewrite Hread. cbn [bind].
    unfold at_index. destruct (Z.ltb_spec (programIdIndex c) 0); [lia|]. rewrite Hpn.
    split; [reflexivity|]. constructor; [|exact Hall].
    cbn [programId data keys]. split; [congruence|]. split; [reflexivity | exact Hpk].
Qed.

(** X23: a transaction that [serialize] returns the wire bytes of is read
    back from them by [Transaction.from]: the transaction read has the same
    recent blockhash, the fee payer at index 0 of the account table, the
    same signature slots (the same keys; the same signatures, but for a
    signature of 64 zero bytes, which is read as null), and instructions
    with the same program ids, the same data and the same account keys. *)
Theorem Transaction_from_serialize nacl_verify (tx tx' : Transaction.t) (wire : list byte) :
  serialize nacl_verify tx = (tx', Ok wire) ->
  exists m read,
    snd (Transaction.compileMessage tx) = Ok m
    /\ Transaction_from wire = Ok read
    /\ Transaction.recentBlockhash read = Transaction.recentBlockhash tx'
    /\ Transaction.feePayer read = hd_error (Message.accountKeys m)
    /\ map publicKey (Transaction.signatures read) = map publicKey (Transaction.signatures tx')
    /\ Forall2 (fun p p2 =>
                  signature p2 = signature p
                  \/ (signature p2 = None /\ signature p = Some DEFAULT_SIGNATURE))
         (Transaction.signatures tx') (Transaction.signatures read)
    /\ Forall2 (fun ix ix2 =>
                  programId ix2 = programId ix
                  /\ data ix2 = data ix
                  /\ map pubkey (keys ix2) = map pubkey (keys ix))
         (Transaction.instructions tx') (Transaction.instructions read).
Proof.
  intros H.
  destruct (Transaction_from_wire _ _ _ _ H) as (m & Hm & Hfrom).
  destruct (serialize_Ok _ _ _ _ H)
    as (m' & d & count & Hm' & Htx' & _ & _ & _ & Hall & _ & _).
  rewrite Hm in Hm'. injection Hm' as <-.
  set (slots := compiledSignatures (Transaction.signatures tx) m) in *.
  assert (Hslots : Transaction.signatures tx' = slots) by (rewrite Htx'; reflexivity).
  rewrite Hslots in *.
  destruct (compiledSignatures_keys (Transaction.signatures tx) m) as [Hkeys _].
  fold slots in Hkeys.
  set (read_slots := reread_slots (Message.accountKeys m) slots 0).
  assert (Hread_keys : map publicKey read_slots = map publicKey slots).
  { unfold read_slots. rewrite reread_slots_keys, Hkeys.
    unfold slice_to.
    destruct (Z.ltb_spec (numRequiredSignatures (Message.header m)) 0) as [Hneg|_].
    - destruct (TransactionFacts.compileBody_wf _ _ Hm) as (_ & Hn & _). lia.
    - rewrite map_Some_firstn. f_equal. f_equal.
      pose proof (f_equal (@length _) Hkeys) as Hlen. rewrite !length_map in Hlen.
      unfold slice_to in Hlen.
      destruct (numRequiredSignatures (Message.header m) <? 0) eqn:E;
        [apply Z.ltb_lt in E; destruct (TransactionFacts.compileBody_wf _ _ Hm)
                                as (_ & Hn & _); lia|].
      exact Hlen. }
  assert (Hdefined : Forall (fun p => publicKey p <> None) read_slots).
  { apply List.Forall_forall. intros p Hp Hnone.
    assert (Hin : In (publicKey p) (map publicKey read_slots)) by (apply in_map; exact Hp).
    rewrite Hread_keys, Hkeys in Hin. apply in_map_iff in Hin as (k & Hk & _). congruence. }
  assert (Hix : exists tx1, Transaction.compileMessage tx = (tx1, Ok m)
                            /\ Transaction.instructions tx1 = Transaction.instructions tx').
  { exists (Transaction.applyNonce tx). unfold Transaction.compileMessage. rewrite Hm, Htx'.
    split; reflexivity. }
  destruct Hix as (tx1 & Hcompile & Hixs).
  pose proof (compiled_indices _ _ _ Hcompile) as Hres. rewrite Hixs in Hres.
  destruct (populate_instructions_resolved m read_slots _ _ Hdefined Hres 0%nat)
    as (read_ixs & Hpop & Hsame).
  destruct (compileBody_table _ _ Hm) as (k & um & Hk & _).
  destruct (compileBody_feePayer_first _ _ _ Hm Hk) as (_ & Hn1 & _).
  exists m.
  exists (Transaction.mk read_slots (hd_error (Message.accountKeys m)) read_ixs
            (Some (Message.recentBlockhash m)) None).
  split; [unfold Transaction.compileMessage; exact Hm|]. split.
  - rewrite Hfrom. unfold populate. rewrite populate_signatures_slots. cbn [bind].
    fold read_slots. rewrite Hpop. cbn [bind].
    destruct (Z.ltb_spec 0 (numRequiredSignatures (Message.header m))); [reflexivity | lia].
  - cbn [Transaction.recentBlockhash Transaction.feePayer Transaction.signatures
         Transaction.instructions].
    split.
    { rewrite Htx'. cbn [Transaction.recentBlockhash].
      unfold Transaction.compileBody in Hm.
      destruct (Transaction.recentBlockhash (Transaction.applyNonce tx)) as [b|];
        [|discriminate].
      destruct (String.eqb b ""); [discriminate|]. cbn [bind] in Hm.
      inv_bind_as Hm payer Epayer. inv_bind_as Hm u Echeck. inv_bind_as Hm um' Eum.
      inv_bind_as Hm cix Eixs. inv_bind_as Hm asserted Eassert.
      unfold Message.new in Hm. inv_bind_as Hm ks Eks. injection Hm as <-. reflexivity. }
    split; [reflexivity|]. split; [exact Hread_keys|]. split; [|exact Hsame].
    apply reread_slots_signatures.
    eapply List.Forall_impl; [|exact Hall]. intros p (sig & _ & Hsig & _). congruence.
Qed.

Lemma Transaction_from_serialize_witness :
  exists m read,
    snd (Transaction.compileMessage (fst signed_transfer)) = Ok m
    /\ Transaction_from (wire_of sent_transfer) = Ok read
    /\ Transaction.recentBlockhash read = Transaction.recentBlockhash (fst sent_transfer)
    /\ map publicKey (Transaction.signatures read)
       = map publicKey (Transaction.signatures (fst sent_transfer)).
Proof.
  destruct (Transaction_from_serialize digest_verify (fst signed_transfer) (fst sent_transfer)
              (wire_of sent_transfer))
    as (m & read & Hm & Hfrom & Hb & _ & Hk & _).
  - vm_compute. reflexivity.
  - exists m, read. repeat split; assumption.
Defined.

Example Transaction_from_transfer :
  match Transaction_from (wire_of sent_transfer) with
  | Ok read =>
      Transaction.feePayer read = Some (key 1)
      /\ map (fun ix => map pubkey (keys ix)) (Transaction.instructions read) = [[key 2]]
      /\ map programId (Transaction.instructions read) = [Some (key 100)]
  | Err _ => False
  end.
Proof. vm_compute. repeat split; reflexivity. Qed.

(* ===================================================================== *)
(** ** Further properties: signing                                        *)
(* ===================================================================== *)

Section SigningProperties.
Variable nacl_sign : list byte -> list byte -> list byte.
Variable nacl_verify : list byte -> list byte -> list byte -> bool.

Lemma modify_owned (f : SignaturePubkeyPair -> SignaturePubkeyPair) (signer : Signer)
    (sigs : list SignaturePubkeyPair) : forall i,
  List.NoDup (map publicKey sigs) ->
  find_index (fun sigpair =>
                match publicKey sigpair with
                | Some k => PublicKey_equals (signer_publicKey signer) k
                | None => false
                end) sigs = Some i ->
  modify f i sigs = map (fun p => if ownsSlot p signer then f p else p) sigs.
Proof.
  induction sigs as [|p r IH]; intros i Hnd; cbn [find_index]; [discriminate|].
  inversion Hnd as [|? ? Hnotin Hnd']; subst.
  fold (ownsSlot p signer).
  destruct (ownsSlot p signer) eqn:E.
  - intros [= <-]. cbn [modify map]. rewrite E. f_equal.
    rewrite <- (map_id r) at 1. apply map_ext_in. intros q Hq.
    destruct (ownsSlot q signer) eqn:Eq; [|reflexivity].
    exfalso. apply Hnotin. unfold ownsSlot in E, Eq.
    destruct (publicKey p) as [kp|] eqn:Ekp; [|discriminate].
    destruct (publicKey q) as [kq|] eqn:Ekq; [|discriminate].
    apply PublicKey_equals_eq in E, Eq. subst kp kq. rewrite <- Ekq. apply in_map. exact Hq.
  - destruct (find_index _ r) as [j|] eqn:Ej; cbn [option_map]; [|discriminate].
    intros [= <-]. cbn [modify map]. rewrite E. f_equal. apply IH; [exact Hnd' | reflexivity].
Qed.

Lemma lastSecret_same_key (signers : list Signer) (p q : SignaturePubkeyPair) :
  publicKey p = publicKey q -> lastSecret signers p = lastSecret signers q.
Proof.
  intros Hk. induction signers as [|s r IH]; [reflexivity|].
  cbn [lastSecret]. rewrite IH. unfold ownsSlot. rewrite Hk. reflexivity.
Qed.

(** Every slot after the loop of [_partialSign], on slots with distinct
    keys: signed by the last signer that has the key of the slot, or as it
    was. *)
Lemma forEach_addSignature_slots (signData : list byte) :
  forall signers sigs fp ixs rb ni tx',
  List.NoDup (map publicKey sigs) ->
  forEachM (fun signer =>
              _addSignature (signer_publicKey signer)
                (nacl_sign signData (secretKey signer))) signers
    (Transaction.mk sigs fp ixs rb ni) = (tx', Ok tt) ->
  tx' = Transaction.mk (map (signedSlot nacl_sign signData signers) sigs) fp ixs rb ni.
Proof.
  induction signers as [|s r IH]; intros sigs fp ixs rb ni tx' Hnd.
  - cbn [forEachM]. unfold ret. intros [= <-]. f_equal.
    rewrite <- (map_id sigs) at 1. apply map_ext. intros p. reflexivity.
  - cbn [forEachM]. intros H. apply bindM_Ok in H as (u & tx1 & Hadd & Hrest).
    unfold _addSignature in Hadd.
    destruct (negb _); [discriminate|].
    unfold bindM, this in Hadd. cbn [Transaction.signatures] in Hadd.
    destruct (find_index _ sigs) as [index|] eqn:Ei; [|discriminate].
    unfold set_signatures in Hadd. cbn in Hadd. injection Hadd as <-.
    rewrite (modify_owned _ s sigs index Hnd Ei) in Hrest.
    apply IH in Hrest.
    2:{ rewrite map_map.
        replace (map (fun x => publicKey (if ownsSlot x s then set_signature _ x else x)) sigs)
          with (map publicKey sigs); [exact Hnd|].
        apply map_ext. intros p. destruct (ownsSlot p s); reflexivity. }
    rewrite Hrest, map_map. f_equal. apply map_ext. intros p.
    unfold signedSlot. cbn [lastSecret].
    assert (Hk : publicKey (if ownsSlot p s
                            then set_signature (Some (nacl_sign signData (secretKey s))) p
                            else p) = publicKey p)
      by (destruct (ownsSlot p s); reflexivity).
    rewrite (lastSecret_same_key r _ p Hk), Hk.
    destruct (lastSecret r p); [reflexivity|].
    destruct (ownsSlot p s); reflexivity.
Qed.

Lemma NoDup_firstn {A} (n : nat) (l : list A) : List.NoDup l -> List.NoDup (firstn n l).
Proof.
  intros H. revert n. induction H as [|x r Hx _ IH]; intros [|n]; cbn [firstn];
    try constructor.
  - intros Hin. apply Hx. rewrite <- (firstn_skipn n r). apply in_or_app. left. exact Hin.
  - apply IH.
Qed.

Lemma compiledSignatures_NoDup (tx : Transaction.t) (m : Message.t)
    (sigs : list SignaturePubkeyPair) :
  Transaction.compileBody tx = Ok m ->
  List.NoDup (map publicKey (compiledSignatures sigs m)).
Proof.
  intros Hm. destruct (compiledSignatures_keys sigs m) as [-> _].
  apply Finite.Injective_map_NoDup; [intros a b [= ->]; reflexivity|].
  assert (Hnd : List.NoDup (Message.accountKeys m)).
  { destruct (compileBody_table _ _ Hm) as (k & um & _ & Hum & Hkeys & _).
    rewrite Hkeys. apply map_filter_pubkey. exact (uniqueMetasOf_NoDup _ _ _ Hum). }
  unfold slice_to. destruct (_ <? 0); apply NoDup_firstn; exact Hnd.
Qed.

(** X24: [partialSign] signs the slots of its signers and leaves every
    other slot as [_compile] left it: a signature collected before, for a
    key none of the signers has, stays where it is. *)
Theorem partialSign_keeps_other_slots
    (signers : list Signer) (tx tx' : Transaction.t) :
  partialSign nacl_sign signers tx = (tx', Ok tt) ->
  exists m signData,
    snd (Transaction.compileMessage tx) = Ok m
    /\ Message.serialize m = Ok signData
    /\ Transaction.signatures tx'
       = map (signedSlot nacl_sign signData (dedupeSigners [] signers))
           (compiledSignatures (Transaction.signatures tx) m)
    /\ forall p,
         In p (compiledSignatures (Transaction.signatures tx) m) ->
         (forall signer, In signer signers -> ownsSlot p signer = false) ->
         In p (Transaction.signatures tx').
Proof.
  unfold partialSign. destruct signers as [|s0 r0]; [discriminate|].
  set (signers := s0 :: r0). intros H.
  apply bindM_Ok in H as (m & tx1 & Hc & H).
  rewrite compile_general in Hc.
  destruct (Transaction.compileBody (Transaction.applyNonce tx)) as [m'|e] eqn:Em;
    [|discriminate].
  injection Hc as <- <-.
  unfold _partialSign in H. apply bindM_Ok in H as (d & tx2 & Hd & H).
  unfold lift in Hd. injection Hd as <- Hd.
  apply forEach_addSignature_slots in H; [|exact (compiledSignatures_NoDup _ _ _ Em)].
  subst tx'. cbn [Transaction.signatures].
  exists m', d. split; [unfold Transaction.compileMessage; exact Em|].
  split; [exact Hd|]. split; [reflexivity|].
  intros p Hp Hother.
  apply in_map_iff. exists p. split; [|exact Hp].
  unfold signedSlot.
  destruct (lastSecret (dedupeSigners [] signers) p) as [sk|] eqn:Esk; [|reflexivity].
  apply lastSecret_owner in Esk as (signer & Hin & Ho & _).
  rewrite (Hother signer (dedupeSigners_In _ _ _ Hin)) in Ho. discriminate.
Qed.



(** All the slots after [sign]. *)
Lemma sign_slots (signers : list Signer) sigs fp ixs b tx' :
  sign nacl_sign nacl_verify signers (Transaction.mk sigs fp ixs (Some b) None)
  = (tx', Ok tt) ->
  exists m d,
    Transaction.compileBody (Transaction.mk (signerSlots signers) fp ixs (Some b) None)
    = Ok m
    /\ Message.serialize m = Ok d
    /\ tx' = Transaction.mk
               (map (signedSlot nacl_sign d (dedupeSigners [] signers))
                    (compiledSignatures (signerSlots signers) m))
               fp ixs (Some b) None.
Proof.
  unfold sign. destruct signers as [|s0 r]; [discriminate|].
  set (signers := s0 :: r). intros H.
  apply bindM_Ok in H as (u & tx1 & Hset & H).
  unfold set_signatures in Hset.
  cbn [Transaction.feePayer Transaction.instructions Transaction.recentBlockhash
       Transaction.nonceInfo] in Hset.
  injection Hset as <- _. fold (signerSlots signers) in H.
  apply bindM_Ok in H as (m & tx2 & Hcompile & H).
  rewrite compile_eq in Hcompile.
  destruct (Transaction.compileBody _) as [m'|e] eqn:Em; [|discriminate].
  injection Hcompile as <- <-.
  apply bindM_Ok in H as (u' & tx3 & Hpartial & H).
  unfold _partialSign in Hpartial.
  apply bindM_Ok in Hpartial as (d & tx4 & Hd & Hpartial).
  unfold lift in Hd. injection Hd as <- Hd.
  destruct u'.
  apply forEach_addSignature_slots in Hpartial;
    [|exact (compiledSignatures_NoDup _ _ _ Em)].
  subst tx3.
  apply bindM_Ok in H as (d' & tx5 & Hl & H).
  unfold lift in Hl. injection Hl as <- _.
  unfold bindM, this, ret in H. injection H as <-.
  exists m', d. repeat split; assumption.
Qed.


End SigningProperties.

Definition half_signed : Transaction.t * Result unit :=
  Eval vm_compute in partialSign digest_sign [payer_signer] two_signer_tx.

Lemma partialSign_keeps_other_slots_witness :
  exists m signData,
    snd (Transaction.compileMessage two_signer_tx) = Ok m
    /\ Message.serialize m = Ok signData
    /\ Transaction.signatures (fst half_signed)
       = map (signedSlot digest_sign signData (dedupeSigners [] [payer_signer]))
           (compiledSignatures (Transaction.signatures two_signer_tx) m).
Proof.
  destruct (partialSign_keeps_other_slots digest_sign [payer_signer] two_signer_tx
              (fst half_signed))
    as (m & d & Hm & Hd & Hslots & _).
  - vm_compute. reflexivity.
  - exists m, d. repeat split; assumption.
Defined.

Example half_signed_slots :
  map (fun p => (publicKey p, match signature p with Some _ => true | None => false end))
      (Transaction.signatures (fst half_signed))
  = [(Some (key 1), true); (Some (key 2), false)].
Proof. vm_compute. reflexivity. Qed.


(* ===================================================================== *)
(** ** Further properties: [setSigners] and key equality                  *)
(* ===================================================================== *)

(** The [filter] of [setSigners]: a key stays the first time its text is
    seen. *)
Fixpoint dedupeKeys (seen : list string) (signers : list PublicKey) : list PublicKey :=
  match signers with
  | [] => []
  | publicKey :: r =>
      let key := PublicKey_toString publicKey in
      if includes seen key then dedupeKeys seen r
      else publicKey :: dedupeKeys (seen ++ [key]) r
  end.

(** [setSigners(...signers)] *)
Definition setSigners (signers : list PublicKey) : Method unit :=
  match signers with
  | [] => throw NoSigners
  | _ => set_signatures (map (fun publicKey => mkPair None (Some publicKey))
                             (dedupeKeys [] signers))
  end.

Lemma includes_In (l : list string) (s : string) : includes l s = true <-> In s l.
Proof.
  unfold includes. rewrite existsb_exists. split.
  - intros (x & Hx & He). apply String.eqb_eq in He. subst. exact Hx.
  - intros H. exists s. split; [exact H | apply String.eqb_refl].
Qed.

Lemma dedupeKeys_spec (signers : list PublicKey) : forall seen,
  List.NoDup (dedupeKeys seen signers)
  /\ (forall k, In k (dedupeKeys seen signers) <->
                In k signers /\ ~ In (PublicKey_toString k) seen).
Proof.
  induction signers as [|x r IH]; intros seen; cbn [dedupeKeys].
  - split; [constructor|]. intros k. cbn. tauto.
  - destruct (includes seen (PublicKey_toString x)) eqn:E.
    + destruct (IH seen) as [Hnd Hin]. split; [exact Hnd|].
      intros k. rewrite Hin. cbn [In]. apply includes_In in E.
      split; [tauto|]. intros [[->|Hk] Hs]; [contradiction | tauto].
    + destruct (IH (seen ++ [PublicKey_toString x])) as [Hnd Hin].
      assert (Hx : ~ In (PublicKey_toString x) seen).
      { intros H. apply includes_In in H. congruence. }
      split.
      * constructor; [|exact Hnd]. rewrite Hin. intros [_ Hn]. apply Hn.
        apply in_or_app. right. left. reflexivity.
      * intros k. cbn [In]. rewrite Hin, in_app_iff. cbn [In]. split.
        -- intros [<-|[Hk Hn]]; [tauto|]. split; [right; exact Hk | tauto].
        -- intros [[<-|Hk] Hn]; [left; reflexivity|].
           destruct (PublicKey_equals x k) eqn:Ek.
           ++ apply PublicKey_equals_eq in Ek. left. exact Ek.
           ++ right. split; [exact Hk|]. intros [Hs|[Hs|[]]]; [contradiction|].
              apply PublicKey_toString_inj in Hs.
              assert (PublicKey_equals x k = true) by (apply PublicKey_equals_eq; exact Hs).
              congruence.
Qed.

Lemma dedupeKeys_order (signers : list PublicKey) : forall seen i j a b,
  (i < j)%nat ->
  nth_error (dedupeKeys seen signers) i = Some a ->
  nth_error (dedupeKeys seen signers) j = Some b ->
  exists before after,
    signers = before ++ a :: after /\ ~ In a before /\ ~ In b before.
Proof.
  induction signers as [|x r IH]; intros seen i j a b Hij; cbn [dedupeKeys].
  - destruct i; discriminate.
  - destruct (includes seen (PublicKey_toString x)) eqn:E.
    + intros Ha Hb.
      destruct (IH seen i j a b Hij Ha Hb) as (before & after & -> & Hna & Hnb).
      exists (x :: before), after. split; [reflexivity|].
      apply includes_In in E.
      destruct (dedupeKeys_spec (before ++ a :: after) seen) as [_ Hin].
      apply nth_error_In in Ha, Hb. apply Hin in Ha, Hb.
      split; intros [->|H]; tauto.
    + destruct i as [|i]; destruct j as [|j]; try lia; cbn [nth_error].
      * intros [= <-] _. exists [], r. split; [reflexivity|]. split; intros [].
      * intros Ha Hb.
        destruct (IH (seen ++ [PublicKey_toString x]) i j a b ltac:(lia) Ha Hb)
          as (before & after & -> & Hna & Hnb).
        exists (x :: before), after. split; [reflexivity|].
        destruct (dedupeKeys_spec (before ++ a :: after) (seen ++ [PublicKey_toString x]))
          as [_ Hin].
        apply nth_error_In in Ha, Hb. apply Hin in Ha, Hb.
        destruct Ha as [_ Ha], Hb as [_ Hb].
        split; intros [->|H]; try tauto.
        -- apply Ha. apply in_or_app. right. left. reflexivity.
        -- apply Hb. apply in_or_app. right. left. reflexivity.
Qed.

(** X26: [setSigners] throws for no signers; else it leaves one null
    slot for each key given and no key twice, the slots standing in the
    order in which the keys first appear among the signers: the first key
    given comes first, and of two slots the one in front has the key that
    appears first. *)
Theorem setSigners_slots (signers : list PublicKey) (tx : Transaction.t) :
  match signers with
  | [] => setSigners signers tx = (tx, Err NoSigners)
  | first :: _ =>
      exists slots,
        Transaction.signatures (fst (setSigners signers tx)) = map (mkPair None) (map Some slots)
        /\ snd (setSigners signers tx) = Ok tt
        /\ List.NoDup slots
        /\ hd_error slots = Some first
        /\ (forall k, In k slots <-> In k signers)
        /\ (forall i j a b,
              (i < j)%nat -> nth_error slots i = Some a -> nth_error slots j = Some b ->
              exists before after,
                signers = before ++ a :: after /\ ~ In a before /\ ~ In b before)
  end.
Proof.
  destruct signers as [|first r]; [reflexivity|].
  exists (dedupeKeys [] (first :: r)).
  destruct (dedupeKeys_spec (first :: r) []) as [Hnd Hin].
  split; [unfold setSigners, set_signatures; cbn [fst Transaction.signatures];
          rewrite map_map; reflexivity|].
  split; [reflexivity|]. split; [exact Hnd|]. split; [reflexivity|].
  split; [|apply dedupeKeys_order].
  intros k. rewrite Hin. cbn [In]. tauto.
Qed.

Example setSigners_order :
  map publicKey
    (Transaction.signatures
       (fst (setSigners [key 7; key 5; key 7; key 9; key 5] sample_tx)))
  = [Some (key 7); Some (key 5); Some (key 9)].
Proof. vm_compute. reflexivity. Qed.

(** X27: [equals] compares the numbers of two keys.  It answers true
    exactly when the keys have the same base-58 text, which is what
    [compileMessage] compares, and exactly when they have the same bytes. *)
Theorem PublicKey_equals_text (a b : PublicKey) :
  (PublicKey_equals a b = true <-> PublicKey_toString a = PublicKey_toString b)
  /\ (PublicKey_equals a b = true <-> PublicKey_toBytes a = PublicKey_toBytes b).
Proof.
  rewrite PublicKey_equals_eq. split; split.
  - intros ->. reflexivity.
  - apply PublicKey_toString_inj.
  - intros ->. reflexivity.
  - intros H. apply PublicKey_toString_inj.
    unfold PublicKey_toString, PublicKey_toBase58. rewrite H. reflexivity.
Qed.

(* ===================================================================== *)
(** ** C8: two calls of [sendTransaction] in a row                        *)
(* ===================================================================== *)

(** *** Compiling again with the slots [_compile] left *)

(** Whether the signature list names the key of a meta. *)
Definition named (sigs : list SignaturePubkeyPair) (u : AccountMeta) : bool :=
  existsb (fun sg =>
             match publicKey sg with
             | Some k => PublicKey_equals (pubkey u) k
             | None => false
             end) sigs.

Definition promote (sigs : list SignaturePubkeyPair) (u : AccountMeta) : AccountMeta :=
  if named sigs u then set_isSigner true u else u.

Lemma modify_found (k : PublicKey) (f : AccountMeta -> AccountMeta)
    (uniqueMetas : list AccountMeta) : forall i,
  List.NoDup (map pubkey uniqueMetas) ->
  find_index (fun x => PublicKey_equals (pubkey x) k) uniqueMetas = Some i ->
  modify f i uniqueMetas
  = map (fun u => if PublicKey_equals (pubkey u) k then f u else u) uniqueMetas.
Proof.
  induction uniqueMetas as [|u r IH]; intros i Hnd; cbn [find_index]; [discriminate|].
  inversion Hnd as [|? ? Hnotin Hnd']; subst.
  destruct (PublicKey_equals (pubkey u) k) eqn:E.
  - intros [= <-]. cbn [modify map]. rewrite E. f_equal.
    rewrite <- (map_id r) at 1. apply map_ext_in. intros v Hv.
    destruct (PublicKey_equals (pubkey v) k) eqn:Ev; [|reflexivity].
    exfalso. apply Hnotin. apply PublicKey_equals_eq in E, Ev. rewrite E, <- Ev.
    apply in_map. exact Hv.
  - destruct (find_index _ r) as [j|] eqn:Ej; cbn [option_map]; [|discriminate].
    intros [= <-]. cbn [modify map]. rewrite E. f_equal. apply IH; [exact Hnd' | reflexivity].
Qed.

(** What [checkSigners] returns: the table with the named keys promoted. *)
Lemma checkSigners_promote (sigs : list SignaturePubkeyPair) : forall uniqueMetas checked,
  List.NoDup (map pubkey uniqueMetas) ->
  Transaction.checkSigners sigs uniqueMetas = Ok checked ->
  checked = map (promote sigs) uniqueMetas.
Proof.
  induction sigs as [|sg r IH]; intros um checked Hnd; cbn [Transaction.checkSigners].
  - intros [= <-]. symmetry. apply map_id.
  - destruct (publicKey sg) as [k|] eqn:Ek; [|discriminate].
    destruct (find_index _ um) as [i|] eqn:Ei; [|discriminate].
    intros H. apply IH in H.
    2:{ rewrite map_modify by reflexivity. exact Hnd. }
    rewrite H, (modify_found k _ um i Hnd Ei), map_map. apply map_ext. intros u.
    unfold promote, named. cbn [existsb]. rewrite Ek.
    destruct (PublicKey_equals (pubkey u) k); cbn [orb pubkey set_isSigner]; [|reflexivity].
    destruct (existsb _ r); reflexivity.
Qed.

(** [checkSigners] returns when every entry of the list names a key of
    the table. *)
Lemma checkSigners_runs (sigs : list SignaturePubkeyPair) : forall uniqueMetas,
  (forall sg, In sg sigs ->
     exists k, publicKey sg = Some k /\ In k (map pubkey uniqueMetas)) ->
  exists checked, Transaction.checkSigners sigs uniqueMetas = Ok checked.
Proof.
  induction sigs as [|sg r IH]; intros um Hall; cbn [Transaction.checkSigners].
  - eexists. reflexivity.
  - destruct (Hall sg (or_introl eq_refl)) as (k & Hk & Hin). rewrite Hk.
    destruct (find_index _ um) as [i|] eqn:Ei.
    + apply IH. intros sg' Hsg'. rewrite map_modify by reflexivity.
      apply Hall. right. exact Hsg'.
    + exfalso. rewrite find_index_None in Ei.
      apply in_map_iff in Hin as (u & Hu & Hin).
      specialize (Ei u Hin). cbn in Ei.
      assert (PublicKey_equals (pubkey u) k = true) by (apply PublicKey_equals_eq; exact Hu).
      congruence.
Qed.

Lemma named_In (sigs : list SignaturePubkeyPair) (u : AccountMeta) :
  named sigs u = true <-> In (Some (pubkey u)) (map publicKey sigs).
Proof.
  unfold named. rewrite existsb_exists, in_map_iff. split.
  - intros (sg & Hin & H). exists sg. split; [|exact Hin].
    destruct (publicKey sg) as [k|]; [|discriminate].
    apply PublicKey_equals_eq in H. congruence.
  - intros (sg & Hk & Hin). exists sg. split; [exact Hin|]. rewrite Hk.
    apply PublicKey_equals_eq. reflexivity.
Qed.

(** The keys a compiled message requires signatures of are the keys of
    the signers of its table. *)
Lemma required_keys (m : Message.t) (uniqueMetas : list AccountMeta) :
  Message.accountKeys m
  = map pubkey (List.filter isSigner uniqueMetas)
    ++ map pubkey (List.filter (fun u => negb (isSigner u)) uniqueMetas) ->
  Message.header m = Transaction.headerOf uniqueMetas ->
  slice_to (Message.accountKeys m) (numRequiredSignatures (Message.header m))
  = map pubkey (List.filter isSigner uniqueMetas).
Proof.
  intros -> ->. cbn [Transaction.headerOf numRequiredSignatures]. unfold Transaction.count.
  rewrite <- (length_map pubkey (List.filter isSigner uniqueMetas)). apply slice_to_app.
Qed.

(** Compiling a transaction whose signature list names exactly the keys
    the compiled message requires gives the same message. *)
Lemma compileBody_resigned sigs sigs' fp ixs rb ni (m : Message.t) :
  Transaction.compileBody (Transaction.mk sigs fp ixs rb ni) = Ok m ->
  map publicKey sigs'
  = map Some (slice_to (Message.accountKeys m) (numRequiredSignatures (Message.header m))) ->
  Transaction.compileBody (Transaction.mk sigs' fp ixs rb ni) = Ok m.
Proof.
  intros H Hkeys.
  destruct (compileBody_table _ _ H) as (k & um & Hk & Hum & Htable & Hheader).
  rewrite (required_keys m um Htable Hheader) in Hkeys.
  destruct (compileBody_feePayer_first _ _ _ H Hk) as (Hhd & Hn & _).
  assert (Hk' : Transaction.chooseFeePayer (Transaction.mk sigs' fp ixs rb ni) = Ok k).
  { unfold Transaction.chooseFeePayer in *.
    cbn [Transaction.feePayer Transaction.signatures] in *.
    destruct fp as [k0|]; [exact Hk|].
    rewrite Htable in Hhd.
    destruct (List.filter isSigner um) as [|u0 us] eqn:Ef.
    - exfalso. rewrite Hheader in Hn. cbn [Transaction.headerOf numRequiredSignatures] in Hn.
      unfold Transaction.count in Hn. rewrite Ef in Hn. cbn in Hn. lia.
    - cbn in Hhd. injection Hhd as Hu0. cbn [map] in Hkeys.
      destruct sigs' as [|[sg0 k0] rest]; [discriminate|].
      cbn in Hkeys. injection Hkeys as -> _. rewrite Hu0. reflexivity. }
  assert (Hum' : Transaction.uniqueMetasOf (Transaction.mk sigs' fp ixs rb ni) k = Ok um).
  { unfold Transaction.uniqueMetasOf in *.
    cbn [Transaction.instructions Transaction.signatures] in *.
    destruct (Transaction.collectMetas ixs) as [metas|e]; [|discriminate].
    cbn [bind] in *.
    set (moved := Transaction.moveFeePayer k
                    (Transaction.cullDuplicates (Transaction.sortMetas metas))) in *.
    assert (Hnd : List.NoDup (map pubkey moved)).
    { apply (NoDup_map_inv PublicKey_toString). rewrite map_map.
      apply moveFeePayer_NoDup.
      destruct (cull_inv_sorted (Transaction.sortMetas metas) (sortMetas_signersFirst metas))
        as [Hnd _].
      exact Hnd. }
    pose proof (checkSigners_promote _ _ _ Hnd Hum) as Hpromoted.
    pose proof (checkSigners_pubkeys _ _ _ Hum) as Hsame.
    destruct (checkSigners_runs sigs' moved) as (um' & Hrun).
    { intros sg Hsg.
      assert (Hin : In (publicKey sg) (map publicKey sigs')) by (apply in_map; exact Hsg).
      rewrite Hkeys in Hin. apply in_map_iff in Hin as (key & Hkey & Hin).
      exists key. split; [symmetry; exact Hkey|].
      rewrite <- Hsame. apply in_map_iff in Hin as (u & Hu & Hin).
      apply filter_In in Hin as [Hin _]. apply in_map_iff. exists u. split; assumption. }
    rewrite Hrun. f_equal.
    rewrite (checkSigners_promote _ _ _ Hnd Hrun), Hpromoted.
    apply map_ext_in. intros u Hu.
    assert (Hnamed : named sigs' u = isSigner (promote sigs u)).
    { apply eq_true_iff_eq. rewrite named_In, Hkeys. split.
      - intros Hin. apply in_map_iff in Hin as (key & [= Hkey] & Hin).
        apply in_map_iff in Hin as (v & Hv & Hin).
        apply filter_In in Hin as [Hin Hs].
        rewrite Hpromoted in Hin. apply in_map_iff in Hin as (u' & <- & Hu').
        assert (u' = u).
        { assert (Hp : pubkey u' = pubkey u).
          { rewrite <- Hkey, <- Hv. unfold promote. destruct (named sigs u'); reflexivity. }
          clear - Hnd Hu Hu' Hp. induction moved as [|a r IH]; [destruct Hu|].
          inversion Hnd as [|? ? Hnotin Hnd']; subst.
          destruct Hu as [->|Hu], Hu' as [->|Hu']; try reflexivity.
          - exfalso. apply Hnotin. rewrite <- Hp. apply in_map. exact Hu'.
          - exfalso. apply Hnotin. rewrite Hp. apply in_map. exact Hu.
          - exact (IH Hnd' Hu Hu'). }
        subst u'. exact Hs.
      - intros Hs. apply in_map. apply in_map_iff. exists (promote sigs u).
        split; [unfold promote; destruct (named sigs u); reflexivity|].
        apply filter_In. split; [|exact Hs].
        rewrite Hpromoted. apply in_map. exact Hu. }
    unfold promote at 1. rewrite Hnamed. unfold promote.
    destruct (named sigs u); cbn [isSigner set_isSigner]; [reflexivity|].
    destruct u as [pk [|] wr]; reflexivity. }
  unfold Transaction.compileBody in *.
  cbn [Transaction.recentBlockhash Transaction.instructions] in *.
  rewrite Hk'. rewrite Hk in H. cbn [bind] in *.
  destruct (match rb with
            | Some s => if String.eqb s "" then Err RecentBlockhashRequired else Ok s
            | None => Err RecentBlockhashRequired
            end) as [blockhash|e]; [|discriminate].
  cbn [bind] in *.
  destruct (Transaction.checkProgramIds 0 ixs); [|discriminate].
  cbn [bind] in *. rewrite Hum'. rewrite Hum in H. exact H.
Qed.

(** The slots [_compile] finds in order it keeps. *)
Lemma compiledSignatures_valid (sigs : list SignaturePubkeyPair) (m : Message.t) :
  map publicKey sigs
  = map Some (slice_to (Message.accountKeys m) (numRequiredSignatures (Message.header m))) ->
  compiledSignatures sigs m = sigs.
Proof.
  unfold compiledSignatures.
  generalize (slice_to (Message.accountKeys m) (numRequiredSignatures (Message.header m))).
  intros signedKeys Hkeys.
  assert (Hlen : length sigs = length signedKeys).
  { rewrite <- (length_map publicKey sigs), Hkeys. apply length_map. }
  rewrite Hlen, Nat.eqb_refl. cbn [andb].
  assert (Hall : every2 (fun pair key =>
                           match publicKey pair with
                           | Some k => PublicKey_equals key k
                           | None => false
                           end) sigs signedKeys = true).
  { clear Hlen. revert signedKeys Hkeys.
    induction sigs as [|p r IH]; intros [|k ks]; cbn [map every2]; try discriminate.
    - reflexivity.
    - intros [= -> Hr]. rewrite (IH ks Hr), andb_true_r.
      apply PublicKey_equals_eq. reflexivity. }
  rewrite Hall. reflexivity.
Qed.

(** Every key of the signature list is a key the compiled message
    requires a signature of. *)
Lemma compileBody_signature_keys (tx : Transaction.t) (m : Message.t)
    (pair : SignaturePubkeyPair) (k : PublicKey) :
  Transaction.compileBody tx = Ok m ->
  In pair (Transaction.signatures tx) ->
  publicKey pair = Some k ->
  In k (slice_to (Message.accountKeys m) (numRequiredSignatures (Message.header m))).
Proof.
  intros H Hin Hk.
  destruct (compileBody_table _ _ H) as (payer & um & _ & Hum & Hkeys & Hheader).
  rewrite (required_keys m um Hkeys Hheader).
  unfold Transaction.uniqueMetasOf in Hum. inv_bind_as Hum metas Em.
  destruct (checkSigners_signers _ _ _ Hum) as [Hsig _].
  destruct (Hsig pair k Hin Hk) as (u & Hu & Huk & Hus).
  apply in_map_iff. exists u. split; [exact Huk|].
  apply filter_In. split; assumption.
Qed.

(** Two messages that differ in their blockhash only are laid out alike
    when both blockhashes are the text of 32 bytes. *)
Lemma serialize_other_blockhash h ks cix (b1 b2 : string) (d1 h2 : list byte) :
  Message.serialize (Message.mk h ks b1 cix) = Ok d1 ->
  bs58.decode b2 = Some h2 ->
  length h2 = 32%nat ->
  exists d2, Message.serialize (Message.mk h ks b2 cix) = Ok d2 /\ length d2 = length d1.
Proof.
  unfold Message.serialize, Message.sections.
  cbn [Message.accountKeys Message.instructions Message.recentBlockhash Message.header].
  intros H1 Hb2 Hlen2.
  inv_bind_as H1 laid1 E1. destruct laid1 as [sd1 ib1]. injection H1 as <-.
  inv_bind_as E1 keyCount Ek. rewrite Ek. cbn [bind].
  inv_bind_as E1 prepared Ep. rewrite Ep. cbn [bind].
  inv_bind_as E1 instructionCount Ec. rewrite Ec. cbn [bind].
  inv_bind_as E1 instructionBuffer Ei. rewrite Ei. cbn [bind].
  inv_bind_as E1 blob1 Eb1. rewrite Hb2. cbn [of_option bind].
  inv_bind_as E1 sd Es. rewrite Es. cbn [bind].
  inv_bind_as E1 sdk Esk. rewrite Esk. cbn [bind].
  inv_bind_as E1 out1 Eo1. injection E1 as <- <-.
  apply put_blob_Ok in Eo1 as (-> & Hl1 & Hc1).
  unfold put_blob, put. unfold PUBKEY_LENGTH in *. rewrite Hlen2. cbn [Nat.eqb negb].
  rewrite length_app, Hl1 in Hc1.
  destruct (Nat.ltb_spec 2048 (length sdk + 32)) as [Hover|_]; [lia|].
  cbn [bind]. eexists. split; [reflexivity|].
  rewrite !length_firstn, !length_app, Hl1, Hlen2. reflexivity.
Qed.

Section Resend.
Variable nacl_sign : list byte -> list byte -> list byte.
Variable nacl_verify : list byte -> list byte -> list byte -> bool.
Variable getRecentBlockhash : nat -> Result string.
Variable latency : Z.
Variable sendRawTransaction : list byte -> Result string.

(** *** Runs of [sign] and [serialize] that are known to return *)

Lemma addSignature_runs (pubkey : PublicKey) (sig : list byte) sigs fp ixs rb ni :
  length sig = 64%nat ->
  In (Some pubkey) (map publicKey sigs) ->
  exists sigs',
    _addSignature pubkey sig (Transaction.mk sigs fp ixs rb ni)
    = (Transaction.mk sigs' fp ixs rb ni, Ok tt)
    /\ map publicKey sigs' = map publicKey sigs.
Proof.
  intros Hlen Hin. unfold _addSignature. rewrite Hlen. cbn [Nat.eqb negb].
  unfold bindM, this. cbn [Transaction.signatures].
  destruct (find_index _ sigs) as [index|] eqn:Ei.
  - eexists. split; [reflexivity|]. apply map_modify. reflexivity.
  - exfalso. rewrite find_index_None in Ei.
    apply in_map_iff in Hin as (p & Hp & Hin). specialize (Ei p Hin). cbn in Ei.
    rewrite Hp in Ei.
    assert (PublicKey_equals pubkey pubkey = true) by (apply PublicKey_equals_eq; reflexivity).
    congruence.
Qed.

Lemma forEach_addSignature_runs (signData : list byte) :
  forall signers sigs fp ixs rb ni,
  (forall signer, In signer signers ->
     length (nacl_sign signData (secretKey signer)) = 64%nat) ->
  (forall signer, In signer signers ->
     In (Some (signer_publicKey signer)) (map publicKey sigs)) ->
  exists sigs',
    forEachM (fun signer =>
                _addSignature (signer_publicKey signer)
                  (nacl_sign signData (secretKey signer))) signers
      (Transaction.mk sigs fp ixs rb ni)
    = (Transaction.mk sigs' fp ixs rb ni, Ok tt).
Proof.
  induction signers as [|s r IH]; intros sigs fp ixs rb ni Hlen Hkeys.
  - exists sigs. reflexivity.
  - cbn [forEachM]. unfold bindM.
    destruct (addSignature_runs (signer_publicKey s) (nacl_sign signData (secretKey s))
                sigs fp ixs rb ni) as (sigs1 & -> & Hsame).
    + apply Hlen. left. reflexivity.
    + apply Hkeys. left. reflexivity.
    + apply IH.
      * intros signer Hin. apply Hlen. right. exact Hin.
      * intros signer Hin. rewrite Hsame. apply Hkeys. right. exact Hin.
Qed.

(** [sign] returns when the transaction compiles with the keys of the
    signers as its signature list, the message can be laid out and the
    signatures have 64 bytes. *)
Lemma sign_runs (signers : list Signer) sigs fp ixs (b : string) (m : Message.t)
    (d : list byte) :
  signers <> [] ->
  (forall sk, length (nacl_sign d sk) = 64%nat) ->
  Transaction.compileBody (Transaction.mk (signerSlots signers) fp ixs (Some b) None) = Ok m ->
  Message.serialize m = Ok d ->
  sign nacl_sign nacl_verify signers (Transaction.mk sigs fp ixs (Some b) None)
  = (Transaction.mk
       (map (signedSlot nacl_sign d (dedupeSigners [] signers))
            (compiledSignatures (signerSlots signers) m))
       fp ixs (Some b) None, Ok tt).
Proof.
  intros Hne Hlen Hm Hd.
  assert (Hruns : exists tx',
            sign nacl_sign nacl_verify signers (Transaction.mk sigs fp ixs (Some b) None)
            = (tx', Ok tt)).
  { unfold sign. destruct signers as [|s0 r]; [congruence|].
    set (signers := s0 :: r) in *.
    unfold bindM at 1, set_signatures.
    cbn [Transaction.feePayer Transaction.instructions Transaction.recentBlockhash
         Transaction.nonceInfo].
    fold (signerSlots signers).
    unfold bindM at 1. rewrite compile_eq, Hm.
    unfold bindM at 1. unfold _partialSign, bindM at 1, lift at 1. rewrite Hd.
    destruct (forEach_addSignature_runs d (dedupeSigners [] signers)
                (compiledSignatures (signerSlots signers) m) fp ixs (Some b) None)
      as (sigs' & ->).
    - intros signer _. apply Hlen.
    - intros signer Hin.
      destruct (compiledSignatures_keys (signerSlots signers) m) as [-> _].
      apply in_map.
      apply (compileBody_signature_keys _ m
               (mkPair None (Some (signer_publicKey signer))) _ Hm); [|reflexivity].
      cbn [Transaction.signatures]. unfold signerSlots.
      apply in_map_iff. exists signer. split; [reflexivity | exact Hin].
    - unfold bindM, lift, this, ret. eexists. reflexivity. }
  destruct Hruns as (tx' & Hsign). rewrite Hsign.
  destruct (sign_slots nacl_sign nacl_verify _ _ _ _ _ _ Hsign) as (m' & d' & Hm' & Hd' & ->).
  rewrite Hm in Hm'. injection Hm' as <-. rewrite Hd in Hd'. injection Hd' as <-.
  reflexivity.
Qed.

Lemma verifyPairs_intro (signData : list byte) (sigs : list SignaturePubkeyPair) :
  Forall (fun p => exists sig key,
            signature p = Some sig /\ publicKey p = Some key
            /\ nacl_verify signData sig (PublicKey_toBuffer key) = true) sigs ->
  verifyPairs nacl_verify sigs signData true = true.
Proof.
  induction 1 as [|[sg k] r (sig & key & Hs & Hk & Hv) _ IH]; [reflexivity|].
  cbn in Hs, Hk. subst sg k. cbn [verifyPairs]. rewrite Hv. exact IH.
Qed.

(** [serialize] returns for a transaction whose slots are those of its
    compiled message, each with a signature of 64 bytes that the verifying
    function accepts, when the wire form fits a packet. *)
Lemma serialize_runs slots fp ixs (b : string) (m : Message.t) (d count : list byte) :
  Transaction.compileBody (Transaction.mk slots fp ixs (Some b) None) = Ok m ->
  map publicKey slots
  = map Some (slice_to (Message.accountKeys m) (numRequiredSignatures (Message.header m))) ->
  Message.serialize m = Ok d ->
  Forall (fun p => exists sig key,
            signature p = Some sig /\ publicKey p = Some key
            /\ length sig = 64%nat
            /\ nacl_verify d sig (PublicKey_toBuffer key) = true) slots ->
  encodeLength (Z.of_nat (length slots)) = Ok count ->
  (length slots < 256)%nat ->
  (length (count ++ concat (map slotBytes slots) ++ d) <= 1232)%nat ->
  serialize nacl_verify (Transaction.mk slots fp ixs (Some b) None)
  = (Transaction.mk slots fp ixs (Some b) None,
     Ok (count ++ concat (map slotBytes slots) ++ d)).
Proof.
  intros Hm Hkeys Hd Hall Hcount H256 Hsize.
  unfold serialize, serializeMessage. unfold bindM at 1 2.
  rewrite compile_eq, Hm, (compiledSignatures_valid _ _ Hkeys).
  unfold lift at 1. rewrite Hd. unfold bindM at 1, this at 1.
  unfold _verifySignatures. cbn [Transaction.signatures].
  rewrite verifyPairs_intro.
  2:{ eapply List.Forall_impl; [|exact Hall].
      intros p (sig & key & Hs & Hk & _ & Hv). exists sig, key. auto. }
  cbn [negb]. unfold _serialize, bindM, this, lift. cbn [Transaction.signatures].
  rewrite Hcount.
  destruct (Nat.ltb_spec (length slots) 256) as [_|]; [|lia]. cbn [negb].
  assert (Hlens : forallb (fun p => match signature p with
                                    | Some sig => (length sig =? 64)%nat
                                    | None => true
                                    end) slots = true).
  { apply forallb_forall. intros p Hp. rewrite List.Forall_forall in Hall.
    destruct (Hall p Hp) as (sig & key & -> & _ & Hl & _). rewrite Hl. reflexivity. }
  rewrite Hlens. cbn [negb].
  change (map (fun p => match signature p with
                        | Some sig => sig
                        | None => repeat x00 64
                        end) slots) with (map slotBytes slots).
  change PACKET_DATA_SIZE with 1232%nat.
  destruct (Nat.leb_spec (length (count ++ concat (map slotBytes slots) ++ d)) 1232)
    as [_|]; [|lia].
  reflexivity.
Qed.

(** *** The cache on the way *)

Lemma recentBlockhash_cached (c : BlockhashCache) (w : World) (b : string) :
  _pollingBlockhash c = false ->
  bi_recentBlockhash (_blockhashInfo c) = Some b ->
  clock w - lastFetch (_blockhashInfo c) < BLOCKHASH_CACHE_TIMEOUT_MS ->
  _recentBlockhash getRecentBlockhash latency false c w = (c, w, Ok b).
Proof.
  intros Hp Hb Ht. unfold _recentBlockhash. cbn [negb]. rewrite Hp, Hb.
  destruct (Z.leb_spec BLOCKHASH_CACHE_TIMEOUT_MS (clock w - lastFetch (_blockhashInfo c)));
    [lia | reflexivity].
Qed.

Lemma recentBlockhash_not_polling disableCache c w c' w' b :
  _recentBlockhash getRecentBlockhash latency disableCache c w = (c', w', Ok b) ->
  _pollingBlockhash c' = false.
Proof.
  assert (Hpoll : _pollNewBlockhash getRecentBlockhash latency c w = (c', w', Ok b) ->
                  _pollingBlockhash c' = false).
  { intros H. apply pollNewBlockhash_Ok in H as (_ & _ & _ & _ & H). exact H. }
  unfold _recentBlockhash. destruct disableCache; cbn [negb]; [exact Hpoll|].
  destruct (_pollingBlockhash c) eqn:Ep; [discriminate|].
  destruct (bi_recentBlockhash (_blockhashInfo c)) as [cached|]; [|exact Hpoll].
  destruct (BLOCKHASH_CACHE_TIMEOUT_MS <=? _); cbn [negb]; [exact Hpoll|].
  intros [= <- _ _]. exact Ep.
Qed.

(** The poll against a node that repeats the cached blockhash [k] times
    and then gives another one. *)
Lemma pollLoop_finds (b1 b2 : string) : forall k tries c w,
  (k < tries)%nat ->
  bi_recentBlockhash (_blockhashInfo c) = Some b1 ->
  b2 <> b1 ->
  (forall j, (j < k)%nat -> getRecentBlockhash (blockhashRequests w + j) = Ok b1) ->
  getRecentBlockhash (blockhashRequests w + k) = Ok b2 ->
  exists t',
    pollLoop getRecentBlockhash latency tries c w
    = (set_blockhashInfo (mkBlockhashInfo (Some b2) t' [] []) c,
       mkWorld t' (blockhashRequests w + k + 1), Ok b2).
Proof.
  induction k as [|k IH]; intros tries c w Hk Hb Hne Hsame Hnew;
    (destruct tries as [|tries]; [lia|]); cbn [pollLoop].
  - rewrite Nat.add_0_r in Hnew. rewrite Hnew, Hb. cbn [differs].
    destruct (String.eqb_spec b1 b2) as [->|_]; [congruence|]. cbn [negb].
    eexists. cbn [clock]. rewrite Nat.add_0_r, Nat.add_1_r. reflexivity.
  - pose proof (Hsame O ltac:(lia)) as H0. rewrite Nat.add_0_r in H0.
    rewrite H0, Hb. cbn [differs]. rewrite String.eqb_refl. cbn [negb].
    destruct (IH tries c
                (sleep (MS_PER_SLOT / 2)
                   (mkWorld (clock w + latency) (S (blockhashRequests w)))))
      as (t' & ->); try assumption; try lia.
    + intros j Hj. cbn [sleep blockhashRequests].
      replace (S (blockhashRequests w) + j)%nat with (blockhashRequests w + S j)%nat by lia.
      apply Hsame. lia.
    + cbn [sleep blockhashRequests].
      replace (S (blockhashRequests w) + k)%nat with (blockhashRequests w + S k)%nat by lia.
      exact Hnew.
    + exists t'. cbn [sleep blockhashRequests]. do 3 f_equal. lia.
Qed.

Lemma signRound_eq continue (signers : list Signer) (disableCache : bool)
    (c c1 : BlockhashCache) (w w1 : World) (tx tx1 : Transaction.t) (b : string)
    (s : list byte) :
  _recentBlockhash getRecentBlockhash latency disableCache c w = (c1, w1, Ok b) ->
  sign nacl_sign nacl_verify signers (set_recentBlockhash b tx) = (tx1, Ok tt) ->
  primarySignature tx1 = Some s ->
  signRound nacl_sign nacl_verify getRecentBlockhash latency continue signers
    disableCache c w tx
  = if negb (includes (transactionSignatures (_blockhashInfo c1)) (base64 s))
    then (push_transactionSignature (base64 s) c1, w1, tx1, Ok tt)
    else continue true c1 w1 tx1.
Proof.
  intros Hr Hs Hp. unfold signRound. rewrite Hr. cbv zeta. rewrite Hs, Hp. reflexivity.
Qed.

Lemma signLoop_not_polling (signers : list Signer) disableCache c w tx c' w' tx' :
  signLoop nacl_sign nacl_verify getRecentBlockhash latency 2 signers disableCache c w tx
  = (c', w', tx', Ok tt) ->
  _pollingBlockhash c' = false.
Proof.
  rewrite (signLoop_S _ _ _ _ 1). unfold signRound at 1.
  destruct (_recentBlockhash getRecentBlockhash latency disableCache c w)
    as [[c1 w1] [b|e]] eqn:Er; [|discriminate].
  cbv zeta.
  destruct (sign nacl_sign nacl_verify signers (set_recentBlockhash b tx)) as [tx1 [u|e]];
    [|discriminate].
  destruct (primarySignature tx1) as [s|]; [|discriminate].
  apply recentBlockhash_not_polling in Er.
  destruct (negb _).
  - intros [= <- _ _]. exact Er.
  - rewrite (signLoop_S _ _ _ _ 0). unfold signRound.
    destruct (_recentBlockhash getRecentBlockhash latency true c1 w1)
      as [[c2 w2] [b2|e]] eqn:Er2; [|discriminate].
    cbv zeta.
    destruct (sign nacl_sign nacl_verify signers (set_recentBlockhash b2 tx1))
      as [tx2 [u'|e]]; [|discriminate].
    destruct (primarySignature tx2) as [s2|]; [|discriminate].
    apply recentBlockhash_not_polling in Er2.
    destruct (negb _); [|discriminate].
    intros [= <- _ _]. exact Er2.
Qed.

(** What a call of [sendTransaction] that returned has done. *)
Lemma sendTransaction_returned (signers : list Signer) c w sigs fp ixs rb c' w' tx' r :
  sendTransaction nacl_sign nacl_verify getRecentBlockhash latency sendRawTransaction
    (Transaction.mk sigs fp ixs rb None) signers c w = (c', w', tx', Ok r) ->
  exists b s sigs0 wire,
    sign nacl_sign nacl_verify signers (Transaction.mk sigs0 fp ixs (Some b) None)
    = (tx', Ok tt)
    /\ primarySignature tx' = Some s
    /\ bi_recentBlockhash (_blockhashInfo c') = Some b
    /\ includes (transactionSignatures (_blockhashInfo c')) (base64 s) = true
    /\ _pollingBlockhash c' = false
    /\ serialize nacl_verify tx' = (tx', Ok wire)
    /\ sendRawTransaction wire = Ok r.
Proof.
  unfold sendTransaction. cbn [Transaction.nonceInfo].
  destruct (signLoop nacl_sign nacl_verify getRecentBlockhash latency 2 signers _ c w _)
    as [[[c1 w1] tx1] [u|e]] eqn:El; [|discriminate].
  destruct u. pose proof (signLoop_not_polling _ _ _ _ _ _ _ _ El) as Hflag.
  apply signLoop_Ok in El as (b & s & sigs0 & Hsign & Hs & Hb & Hin & _).
  destruct (sign_primary _ _ _ _ _ _ _ _ _ Hsign Hs) as (sigs1 & _ & _ & _ & _ & Htx1 & _).
  destruct (serialize nacl_verify tx1) as [tx2 [wire|e]] eqn:Ew; [|discriminate].
  pose proof Ew as Ekeep. rewrite Htx1 in Ekeep. apply serialize_keeps in Ekeep.
  rewrite <- Htx1 in Ekeep. subst tx2.
  intros [= <- _ <- Hr]. exists b, s, sigs0, wire. repeat split; assumption.
Qed.

(** *** The slots of two runs of [sign] *)

Lemma compiledSignatures_null (signers : list Signer) (m : Message.t) :
  Forall (fun p => signature p = None) (compiledSignatures (signerSlots signers) m).
Proof.
  unfold compiledSignatures, signerSlots.
  destruct (_ && _); apply List.Forall_forall; intros p Hp;
    apply in_map_iff in Hp as (x & <- & _); reflexivity.
Qed.

Lemma signedSlot_key (d : list byte) (signers : list Signer) (p : SignaturePubkeyPair) :
  publicKey (signedSlot nacl_sign d signers p) = publicKey p.
Proof. unfold signedSlot. destruct (lastSecret signers p); reflexivity. Qed.

(** Null slots that are all signed afterwards all have a signer. *)
Lemma signed_slots_owned (d : list byte) (signers : list Signer)
    (slots : list SignaturePubkeyPair) :
  Forall (fun p => signature p = None) slots ->
  Forall (fun p => exists sig, signature p = Some sig)
    (map (signedSlot nacl_sign d signers) slots) ->
  Forall (fun p => exists sk, lastSecret signers p = Some sk) slots.
Proof.
  induction 1 as [|p r Hp _ IH]; cbn [map]; intros Hall; [constructor|].
  inversion Hall as [|? ? (sig & Hsig) Hrest]; subst.
  constructor; [|exact (IH Hrest)].
  unfold signedSlot in Hsig. destruct (lastSecret signers p) as [sk|]; [eauto|congruence].
Qed.

(** Slots that all have a signer among key pairs whose signatures verify
    are all signed and verified after [sign]. *)
Lemma owned_slots_verified (d : list byte) (signers : list Signer)
    (slots : list SignaturePubkeyPair) :
  (forall sk, length (nacl_sign d sk) = 64%nat) ->
  (forall signer, In signer signers ->
     nacl_verify d (nacl_sign d (secretKey signer))
       (PublicKey_toBuffer (signer_publicKey signer)) = true) ->
  Forall (fun p => exists sk, lastSecret signers p = Some sk) slots ->
  Forall (fun p => exists sig key,
            signature p = Some sig /\ publicKey p = Some key
            /\ length sig = 64%nat
            /\ nacl_verify d sig (PublicKey_toBuffer key) = true)
    (map (signedSlot nacl_sign d signers) slots).
Proof.
  intros H64 Hver Hall. apply List.Forall_forall. intros q Hq.
  apply in_map_iff in Hq as (p & <- & Hp).
  rewrite List.Forall_forall in Hall. destruct (Hall p Hp) as (sk & Hsk).
  unfold signedSlot. rewrite Hsk. cbn [signature publicKey].
  apply lastSecret_owner in Hsk as (signer & Hin & Ho & ->).
  unfold ownsSlot in Ho. destruct (publicKey p) as [key|]; [|discriminate].
  apply PublicKey_equals_eq in Ho. subst key.
  exists (nacl_sign d (secretKey signer)), (signer_publicKey signer).
  split; [reflexivity|]. split; [reflexivity|]. split; [apply H64 | apply Hver; exact Hin].
Qed.

Lemma length_slotBytes (slots : list SignaturePubkeyPair) :
  Forall (fun p => match signature p with
                   | Some sig => length sig = 64%nat
                   | None => True
                   end) slots ->
  length (concat (map slotBytes slots)) = (64 * length slots)%nat.
Proof.
  induction 1 as [|p r Hp _ IH]; [reflexivity|].
  cbn [map concat length]. rewrite length_app, IH. unfold slotBytes.
  destruct (signature p) as [sig|]; [rewrite Hp | rewrite repeat_length]; lia.
Qed.

(** C8: [sendTransaction] has returned for a transaction, leaving the
    blockhash [b1] in the cache, and is called again, while the cache is in
    use and [b1] is fresh, for a transaction with the same fee payer and
    instructions and with the same signers.  The node answers [b1] to the
    next [k] requests, [k < 50], and then another well-formed blockhash
    [b2].  Then:

    - the first call handed [sendRawTransaction] the wire bytes of the
      transaction it signed, which start with the number of signatures and
      the primary signature [s1], and it recorded [s1] in the set of
      signatures sent under [b1];
    - the first round of the second call gets [b1] from the cache without a
      request and signs to the same primary signature [s1], which is in
      that set;
    - the second call returns what [sendRawTransaction] answers to the wire
      bytes of the transaction signed under [b2], after [k + 1] requests to
      the node; [b2] is the cached blockhash now and the set holds the new
      primary signature [s2] alone;
    - the two submissions carry different primary signatures, on condition
      that the signing function gives different signatures to the different
      sign data of the transaction under [b1] and [b2].

    The signing functions are those of a signature scheme: signatures have
    64 bytes and the verifying function accepts what the signing function
    made with a signer's secret key for that signer's public key. *)
Theorem sendTransaction_twice_new_blockhash
    (tx tx' tx1 : Transaction.t) (signers : list Signer)
    (c0 c1 : BlockhashCache) (w0 w1 : World) (t : Z) (r1 b1 b2 : string) (k : nat) :
  Transaction.nonceInfo tx = None ->
  Transaction.nonceInfo tx' = None ->
  Transaction.feePayer tx' = Transaction.feePayer tx ->
  Transaction.instructions tx' = Transaction.instructions tx ->
  sendTransaction nacl_sign nacl_verify getRecentBlockhash latency sendRawTransaction
    tx signers c0 w0 = (c1, w1, tx1, Ok r1) ->
  bi_recentBlockhash (_blockhashInfo c1) = Some b1 ->
  _disableBlockhashCaching c1 = false ->
  t - lastFetch (_blockhashInfo c1) < BLOCKHASH_CACHE_TIMEOUT_MS ->
  (k < 50)%nat ->
  (forall j, (j < k)%nat -> getRecentBlockhash (blockhashRequests w1 + j) = Ok b1) ->
  getRecentBlockhash (blockhashRequests w1 + k) = Ok b2 ->
  b2 <> b1 ->
  (exists h, bs58.decode b2 = Some h /\ length h = 32%nat) ->
  (forall d sk, length (nacl_sign d sk) = 64%nat) ->
  (forall signer d,
     In signer signers ->
     nacl_verify d (nacl_sign d (secretKey signer))
       (PublicKey_toBuffer (signer_publicKey signer)) = true) ->
  (forall d1 d2 sk,
     signDataUnder signers tx b1 = Ok d1 ->
     signDataUnder signers tx b2 = Ok d2 ->
     d1 <> d2 ->
     In sk (map secretKey signers) ->
     nacl_sign d1 sk <> nacl_sign d2 sk) ->
  exists (s1 s2 count rest1 rest2 wire1 wire2 : list byte)
         (c2 : BlockhashCache) (w2 : World) (tx2 : Transaction.t),
    serialize nacl_verify tx1 = (tx1, Ok wire1)
    /\ sendRawTransaction wire1 = Ok r1
    /\ primarySignature tx1 = Some s1
    /\ includes (transactionSignatures (_blockhashInfo c1)) (base64 s1) = true
    /\ _recentBlockhash getRecentBlockhash latency false c1
         (mkWorld t (blockhashRequests w1))
       = (c1, mkWorld t (blockhashRequests w1), Ok b1)
    /\ primarySignature
         (fst (sign nacl_sign nacl_verify signers (set_recentBlockhash b1 tx'))) = Some s1
    /\ sendTransaction nacl_sign nacl_verify getRecentBlockhash latency sendRawTransaction
         tx' signers c1 (mkWorld t (blockhashRequests w1))
       = (c2, w2, tx2, sendRawTransaction wire2)
    /\ blockhashRequests w2 = (blockhashRequests w1 + k + 1)%nat
    /\ bi_recentBlockhash (_blockhashInfo c2) = Some b2
    /\ transactionSignatures (_blockhashInfo c2) = [base64 s2]
    /\ Transaction.recentBlockhash tx2 = Some b2
    /\ primarySignature tx2 = Some s2
    /\ serialize nacl_verify tx2 = (tx2, Ok wire2)
    /\ encodeLength (Z.of_nat (length (Transaction.signatures tx1))) = Ok count
    /\ wire1 = count ++ s1 ++ rest1
    /\ wire2 = count ++ s2 ++ rest2
    /\ length s1 = 64%nat
    /\ length s2 = 64%nat
    /\ s2 <> s1.
Proof.
  destruct tx as [sigs fp ixs rb ni], tx' as [sigs' fp' ixs' rb' ni'].
  cbn [Transaction.nonceInfo Transaction.feePayer Transaction.instructions].
  intros -> -> -> -> H1 Hb1 Hcaching Hfresh Hk Hsame Hnew Hne (h2 & Hh2 & Hlen2)
    H64 Hver Hsep.
  apply sendTransaction_returned in H1
    as (b & s1 & sigsA & wire1 & Hsign1 & Hs1 & Hb & Hin1 & Hflag & Hser1 & Hr1).
  rewrite Hb1 in Hb. injection Hb as <-.
  assert (Hsigners : signers <> []).
  { intros ->. unfold sign, throw in Hsign1. discriminate. }
  (* the first run of [sign] *)
  destruct (sign_slots nacl_sign nacl_verify _ _ _ _ _ _ Hsign1)
    as (m1 & d1 & Hm1 & Hd1 & Htx1).
  destruct (compileBody_blockhash _ _ _ _ _ _ Hm1) as (_ & Hrb1 & Hany).
  assert (Hb2 : b2 <> ""%string).
  { intros ->. vm_compute in Hh2. injection Hh2 as <-. discriminate. }
  pose proof (Hany b2 Hb2) as Hm2. clear Hany.
  destruct m1 as [h1 ks1 rb1 cix1].
  cbn [Message.header Message.accountKeys Message.instructions Message.recentBlockhash]
    in Hrb1, Hm2.
  subst rb1.
  destruct (serialize_other_blockhash _ _ _ _ b2 _ h2 Hd1 Hh2 Hlen2) as (d2 & Hd2 & Hlen12).
  assert (Hdd : d1 <> d2).
  { apply (serialize_blockhash_differs _ _ _ _ _ _ _ Hd1 Hd2). congruence. }
  set (m1 := Message.mk h1 ks1 b1 cix1) in *.
  set (m2 := Message.mk h1 ks1 b2 cix1) in *.
  set (unique := dedupeSigners [] signers) in *.
  set (cs := compiledSignatures (signerSlots signers) m1) in *.
  assert (Hcs2 : compiledSignatures (signerSlots signers) m2 = cs) by reflexivity.
  assert (Hcskeys : map publicKey cs
                    = map Some (slice_to ks1 (numRequiredSignatures h1))).
  { destruct (compiledSignatures_keys (signerSlots signers) m1) as [Hkeys _]. exact Hkeys. }
  assert (Hslotkeys : forall d,
            map publicKey (map (signedSlot nacl_sign d unique) cs)
            = map Some (slice_to ks1 (numRequiredSignatures h1))).
  { intros d. rewrite map_map, <- Hcskeys. apply map_ext. intros p. apply signedSlot_key. }
  (* what the first call sent *)
  destruct (serialize_Ok _ _ _ _ Hser1)
    as (m' & d' & count & Hm' & _ & Hd' & Hcount & H256 & Hall1 & Hwire1 & Hsize1).
  rewrite Htx1 in Hm', Hcount, H256, Hall1, Hwire1.
  cbn [Transaction.signatures] in Hcount, H256, Hall1, Hwire1.
  unfold Transaction.applyNonce in Hm'. cbn [Transaction.nonceInfo] in Hm'.
  rewrite (compileBody_resigned _ _ _ _ _ _ m1 Hm1 (Hslotkeys d1)) in Hm'.
  injection Hm' as <-. rewrite Hd1 in Hd'. injection Hd' as <-.
  assert (Howned : Forall (fun p => exists sk, lastSecret unique p = Some sk) cs).
  { apply (signed_slots_owned d1); [apply compiledSignatures_null|].
    eapply List.Forall_impl; [|exact Hall1].
    intros p (sig & key & Hsig & _). exists sig. exact Hsig. }
  (* the primary signatures *)
  destruct cs as [|p0 rest] eqn:Ecs.
  { rewrite Htx1 in Hs1. discriminate. }
  destruct (List.Forall_inv Howned) as (sk0 & Hsk0).
  assert (Es1 : s1 = nacl_sign d1 sk0).
  { rewrite Htx1 in Hs1. unfold primarySignature in Hs1. cbn in Hs1.
    unfold signedSlot in Hs1. rewrite Hsk0 in Hs1. cbn in Hs1. congruence. }
  set (s2 := nacl_sign d2 sk0).
  set (slots2 := map (signedSlot nacl_sign d2 unique) (p0 :: rest)).
  set (tx2 := Transaction.mk slots2 fp ixs (Some b2) None).
  assert (Hs2 : primarySignature tx2 = Some s2).
  { unfold primarySignature, tx2, slots2. cbn. unfold signedSlot. rewrite Hsk0. reflexivity. }
  (* the second run of [sign] and of [serialize] *)
  assert (Hsign2 : sign nacl_sign nacl_verify signers
                     (set_recentBlockhash b2 tx1) = (tx2, Ok tt)).
  { rewrite Htx1. unfold set_recentBlockhash.
    cbn [Transaction.signatures Transaction.feePayer Transaction.instructions
         Transaction.nonceInfo].
    rewrite (sign_runs signers _ fp ixs b2 m2 d2 Hsigners (H64 d2) Hm2 Hd2).
    rewrite Hcs2. reflexivity. }
  set (wire2 := count ++ concat (map slotBytes slots2) ++ d2).
  assert (Hall2 : Forall (fun p => exists sig key,
                            signature p = Some sig /\ publicKey p = Some key
                            /\ length sig = 64%nat
                            /\ nacl_verify d2 sig (PublicKey_toBuffer key) = true) slots2).
  { apply owned_slots_verified; [apply H64 | | exact Howned].
    intros signer Hin. apply Hver. exact (dedupeSigners_In _ _ _ Hin). }
  assert (Hlen_slots : forall d,
            length (map (signedSlot nacl_sign d unique) (p0 :: rest))
            = length (p0 :: rest)) by (intros d; apply length_map).
  assert (Hser2 : serialize nacl_verify tx2 = (tx2, Ok wire2)).
  { apply (serialize_runs slots2 fp ixs b2 m2 d2 count).
    - exact (compileBody_resigned _ _ _ _ _ _ m2 Hm2 (Hslotkeys d2)).
    - exact (Hslotkeys d2).
    - exact Hd2.
    - exact Hall2.
    - unfold slots2. rewrite Hlen_slots, <- (Hlen_slots d1). exact Hcount.
    - unfold slots2. rewrite Hlen_slots, <- (Hlen_slots d1). exact H256.
    - rewrite Hwire1 in Hsize1. rewrite !length_app in *.
      rewrite length_slotBytes in Hsize1.
      2:{ eapply List.Forall_impl; [|exact Hall1].
          intros p (sig & key & -> & _ & Hl & _). exact Hl. }
      rewrite length_slotBytes.
      2:{ eapply List.Forall_impl; [|exact Hall2].
          intros p (sig & key & -> & _ & Hl & _). exact Hl. }
      unfold slots2. rewrite Hlen_slots. rewrite Hlen_slots in Hsize1. lia. }
  (* the cache in the second call *)
  set (w := mkWorld t (blockhashRequests w1)).
  assert (Hcached : _recentBlockhash getRecentBlockhash latency false c1 w = (c1, w, Ok b1)).
  { apply recentBlockhash_cached; [exact Hflag | exact Hb1 | exact Hfresh]. }
  destruct (pollLoop_finds b1 b2 k 50 (set_polling true c1) w Hk Hb1 Hne Hsame Hnew)
    as (t' & Hpoll).
  set (c2 := set_polling false
               (set_blockhashInfo (mkBlockhashInfo (Some b2) t' [] []) (set_polling true c1))).
  set (w2 := mkWorld t' (blockhashRequests w + k + 1)).
  assert (Hforced : _recentBlockhash getRecentBlockhash latency true c1 w = (c2, w2, Ok b2)).
  { unfold _recentBlockhash. cbn [negb]. unfold _pollNewBlockhash. rewrite Hpoll.
    reflexivity. }
  assert (HsignA : sign nacl_sign nacl_verify signers
                     (set_recentBlockhash b1 (Transaction.mk sigs' fp ixs rb' None))
                   = (tx1, Ok tt)).
  { unfold set_recentBlockhash.
    cbn [Transaction.signatures Transaction.feePayer Transaction.instructions
         Transaction.nonceInfo].
    rewrite (sign_reset nacl_sign nacl_verify signers sigs') by exact Hsigners.
    rewrite <- (sign_reset nacl_sign nacl_verify signers sigsA) by exact Hsigners.
    exact Hsign1. }
  assert (Hloop : signLoop nacl_sign nacl_verify getRecentBlockhash latency 2 signers false
                    c1 w (Transaction.mk sigs' fp ixs rb' None)
                  = (push_transactionSignature (base64 s2) c2, w2, tx2, Ok tt)).
  { rewrite (signLoop_S _ _ _ _ 1).
    rewrite (signRound_eq _ _ _ _ _ _ _ _ _ _ _ Hcached HsignA Hs1), Hin1. cbn [negb].
    rewrite (signLoop_S _ _ _ _ 0).
    rewrite (signRound_eq _ _ _ _ _ _ _ _ _ _ _ Hforced Hsign2 Hs2). reflexivity. }
  exists s1, s2, count, (concat (map slotBytes (map (signedSlot nacl_sign d1 unique) rest)) ++ d1),
    (concat (map slotBytes (map (signedSlot nacl_sign d2 unique) rest)) ++ d2),
    wire1, wire2, (push_transactionSignature (base64 s2) c2),
    (mkWorld (clock w2 + latency) (blockhashRequests w2)), tx2.
  split; [exact Hser1|]. split; [exact Hr1|]. split; [exact Hs1|]. split; [exact Hin1|].
  split; [exact Hcached|]. split; [rewrite HsignA; exact Hs1|].
  split.
  { unfold sendTransaction. cbn [Transaction.nonceInfo]. rewrite Hcaching, Hloop, Hser2.
    reflexivity. }
  split; [reflexivity|]. split; [reflexivity|]. split; [reflexivity|].
  split; [reflexivity|]. split; [exact Hs2|]. split; [exact Hser2|].
  split; [rewrite Htx1; exact Hcount|].
  split.
  { rewrite Hwire1. cbn [map concat]. unfold slotBytes at 1, signedSlot at 1.
    rewrite Hsk0. cbn [signature]. rewrite Es1, <- !app_assoc. reflexivity. }
  split.
  { unfold wire2, slots2. cbn [map concat]. unfold slotBytes at 1, signedSlot at 1.
    rewrite Hsk0. cbn [signature]. rewrite <- !app_assoc. reflexivity. }
  split; [rewrite Es1; apply H64|]. split; [apply H64|].
  rewrite Es1. apply not_eq_sym. apply Hsep.
  - exact (signDataUnder_eq _ (Transaction.mk sigs fp ixs rb None) _ _ _ Hm1 Hd1).
  - exact (signDataUnder_eq _ (Transaction.mk sigs fp ixs rb None) _ _ _ Hm2 Hd2).
  - exact Hdd.
  - apply lastSecret_In in Hsk0. apply in_map_iff in Hsk0 as (x & <- & Hx).
    apply in_map. exact (dedupeSigners_In _ _ _ Hx).
Qed.

End Resend.

Lemma sendTransaction_twice_new_blockhash_witness :
  exists (s1 s2 wire2 : list byte) (c2 : BlockhashCache) (w2 : World) (tx2 : Transaction.t),
    primarySignature (snd (fst first_send)) = Some s1
    /\ send transfer_tx (fst (fst (fst first_send)))
         (mkWorld 25 (blockhashRequests (snd (fst (fst first_send)))))
       = (c2, w2, tx2, echo_signature wire2)
    /\ blockhashRequests w2
       = (blockhashRequests (snd (fst (fst first_send))) + 0 + 1)%nat
    /\ bi_recentBlockhash (_blockhashInfo c2) = Some (bs58.encode (repeat x02 32))
    /\ primarySignature tx2 = Some s2
    /\ (exists count rest2, wire2 = count ++ s2 ++ rest2)
    /\ s2 <> s1.
Proof.
  destruct (sendTransaction_twice_new_blockhash digest_sign digest_verify counting_node 10
              echo_signature transfer_tx transfer_tx (snd (fst first_send)) [payer_signer]
              new_cache (fst (fst (fst first_send))) (mkWorld 0 0)
              (snd (fst (fst first_send))) 25 (returned first_send)
              (bs58.encode (repeat x01 32)) (bs58.encode (repeat x02 32)) 0)
    as (s1 & s2 & count & rest1 & rest2 & wire1 & wire2 & c2 & w2 & tx2
        & _ & _ & Hs1 & _ & _ & _ & Hsend & Hreq & Hb2 & _ & _ & Hs2 & _ & _ & _ & Hwire2
        & _ & _ & Hdiff).
  - reflexivity.
  - reflexivity.
  - reflexivity.
  - reflexivity.
  - vm_compute. reflexivity.
  - vm_compute. reflexivity.
  - reflexivity.
  - vm_compute. reflexivity.
  - lia.
  - intros j Hj. lia.
  - vm_compute. reflexivity.
  - intros H. apply bs58.encode_inj in H. discriminate H.
  - exists (repeat x02 32). split; [apply bs58.decode_encode | reflexivity].
  - exact digest_sign_length.
  - intros signer d _. reflexivity.
  - intros d1 d2 sk Hd1 Hd2 _ Hsk.
    vm_compute in Hd1, Hd2. injection Hd1 as <-. injection Hd2 as <-.
    destruct Hsk as [<- | []]. vm_compute. discriminate.
  - exists s1, s2, wire2, c2, w2, tx2.
    split; [exact Hs1|]. split; [exact Hsend|]. split; [exact Hreq|]. split; [exact Hb2|].
    split; [exact Hs2|]. split; [exists count, rest2; exact Hwire2 | exact Hdiff].
Defined.
